(** * BeatZGPT: the humanization pipeline and its three engines

    A shallow embedding of [src/core/space_manipulator.py],
    [src/core/semantic_replacer.py], [src/core/syntax_restructurer.py],
    [src/core/pipeline.py] and of what they use of [src/nlp/parsers.py] and
    [src/nlp/analyzers.py], with the properties of the specification proved
    (or refuted) on it, and of [src/utils/text_processing.py].

    Conventions of the embedding:
    - a Python [str] is the list of its code points ([list N]); the case
      mappings of [str] are an interface that is fixed on ASCII;
    - a Python [float] that is only stored and compared (intensity,
      threshold, similarity, confidence) is a rational number ([Q]): the
      comparisons of the code are exact on floats, and every float is a
      rational; where the code computes with floats, the rounded operations
      are an interface;
    - every engine owns a [random.Random] object; its methods are written in
      a state-and-exception monad over the generator state, and the
      generator itself is an interface ([random()] in [0, 1), [_randbelow(n)]
      in [0, n));
    - spaCy, WordNet, the sentence-transformer model and textstat are
      collaborators outside the repository: they are interfaces whose calls
      may raise;
    - [print] is not modelled. *)

From Stdlib Require Import String Ascii List Bool Arith NArith ZArith QArith Qabs Lia.
Import ListNotations.

Set Implicit Arguments.

(* ================================================================== *)
(** * Python strings *)
(* ================================================================== *)

Module PyStr.

(** A code point, and a Python string. *)
Abbreviation char := N (only parsing).
Abbreviation str := (list N) (only parsing).

(** [u "abc"] is the Python literal ['abc'] (ASCII literals only; other code
    points are written as numbers). *)
Definition u (s : string) : str := map N_of_ascii (list_ascii_of_string s).

Definition char_eqb (a b : char) : bool := N.eqb a b.

Fixpoint str_eqb (a b : str) : bool :=
  match a, b with
  | [], [] => true
  | x :: a', y :: b' => char_eqb x y && str_eqb a' b'
  | _, _ => false
  end.

Lemma str_eqb_eq : forall a b, str_eqb a b = true <-> a = b.
Proof.
  induction a as [|x a IH]; destruct b as [|y b]; simpl; split; intro H;
    try discriminate; try reflexivity.
  - apply andb_true_iff in H. destruct H as [H1 H2].
    apply N.eqb_eq in H1. apply IH in H2. congruence.
  - inversion H; subst. apply andb_true_iff. split.
    + apply N.eqb_refl.
    + apply IH. reflexivity.
Qed.

Lemma str_eqb_refl : forall a, str_eqb a a = true.
Proof. intro a. apply str_eqb_eq. reflexivity. Qed.

Definition SPACE : char := 32%N.
Definition NEWLINE : char := 10%N.

(** [str.isspace] on one code point: the white-space table of CPython
    ([_PyUnicode_IsWhitespace]). U+200B (zero-width space) is not in it. *)
Definition isspace (c : char) : bool :=
  ((9 <=? c) && (c <=? 13) || (28 <=? c) && (c <=? 32) || (c =? 133)
   || (c =? 160) || (c =? 5760) || (8192 <=? c) && (c <=? 8202)
   || (c =? 8232) || (c =? 8233) || (c =? 8239) || (c =? 8287)
   || (c =? 12288))%N.

(** [sep.join(parts)]. *)
Fixpoint join (sep : str) (parts : list str) : str :=
  match parts with
  | [] => []
  | [p] => p
  | p :: rest => p ++ sep ++ join sep rest
  end.

(** [enumerate(text)]. *)
Fixpoint enumerate_from {A} (i : nat) (l : list A) : list (nat * A) :=
  match l with
  | [] => []
  | x :: l' => (i, x) :: enumerate_from (S i) l'
  end.
Definition enumerate {A} (l : list A) := enumerate_from 0 l.

(** [text.count(c)] for a one-character needle. *)
Definition count (c : char) (text : str) : nat :=
  length (filter (char_eqb c) text).

(** [s.startswith(prefix)] and [s.endswith(suffix)]. *)
Fixpoint startswith (prefix s : str) : bool :=
  match prefix, s with
  | [], _ => true
  | p :: prefix', c :: s' => char_eqb p c && startswith prefix' s'
  | _ :: _, [] => false
  end.

Definition endswith (suffix s : str) : bool := startswith (rev suffix) (rev s).

(** [needle in hay]. *)
Fixpoint contains (needle hay : str) : bool :=
  startswith needle hay
  || match hay with
     | [] => false
     | _ :: hay' => contains needle hay'
     end.

(** [c in chars] for one character. *)
Definition char_in (c : char) (chars : str) : bool := existsb (char_eqb c) chars.

(** [s.lstrip(chars)], [s.rstrip(chars)], [s.strip(chars)], and the
    no-argument forms that strip white space. *)
Fixpoint lstrip_by (p : char -> bool) (s : str) : str :=
  match s with
  | [] => []
  | c :: s' => if p c then lstrip_by p s' else s
  end.

Definition rstrip_by (p : char -> bool) (s : str) : str :=
  rev (lstrip_by p (rev s)).

Definition strip_by (p : char -> bool) (s : str) : str :=
  rstrip_by p (lstrip_by p s).

Definition strip_chars (chars s : str) : str := strip_by (fun c => char_in c chars) s.
Definition rstrip_chars (chars s : str) : str := rstrip_by (fun c => char_in c chars) s.
Definition strip (s : str) : str := strip_by isspace s.

(** [s.split()]: the maximal runs of characters that are not white space.
    [words_from s] is the run that starts [s] (empty when [s] starts with
    white space) and the runs after it. *)
Definition push_word (w : str) (ws : list str) : list str :=
  match w with
  | [] => ws
  | _ :: _ => w :: ws
  end.

Fixpoint words_from (s : str) : str * list str :=
  match s with
  | [] => ([], [])
  | c :: s' =>
      let (w, ws) := words_from s' in
      if isspace c then ([], push_word w ws) else (c :: w, ws)
  end.

Definition split (s : str) : list str :=
  let (w, ws) := words_from s in push_word w ws.

(** [s.split(sep, 1)] for a one-character separator: the part before the
    first [sep] and the part after it, or [s] alone. *)
Fixpoint split_once (sep : char) (s : str) : list str :=
  match s with
  | [] => [[]]
  | c :: s' =>
      if char_eqb c sep then [[]; s']
      else match split_once sep s' with
           | first :: others => (c :: first) :: others
           | [] => [[c]]
           end
  end.

(** [s.replace(old, new)]: every occurrence of [old], left to right, without
    overlap. [skip] counts the characters of an occurrence still to pass. *)
Fixpoint replace_from (old new : str) (skip : nat) (s : str) : str :=
  match s with
  | [] => []
  | c :: s' =>
      match skip with
      | S k => replace_from old new k s'
      | O =>
          if startswith old s
          then new ++ replace_from old new (length old - 1) s'
          else c :: replace_from old new 0 s'
      end
  end.

Definition replace (old new s : str) : str :=
  match old with
  | [] => new ++ concat (map (fun c => c :: new) s)
  | _ :: _ => replace_from old new 0 s
  end.

(** ASCII case mapping, the part of the Unicode tables that the constants of
    the repository live in. *)
Definition is_ascii (s : str) : bool := forallb (fun c => c <? 128)%N s.
Definition ascii_isupper (c : char) : bool := ((65 <=? c) && (c <=? 90))%N.
Definition ascii_islower (c : char) : bool := ((97 <=? c) && (c <=? 122))%N.
Definition ascii_lower_char (c : char) : char :=
  if ascii_isupper c then (c + 32)%N else c.
Definition ascii_upper_char (c : char) : char :=
  if ascii_islower c then (c - 32)%N else c.
Definition ascii_lower (s : str) : str := map ascii_lower_char s.
Definition ascii_upper (s : str) : str := map ascii_upper_char s.
Definition ascii_capitalize (s : str) : str :=
  match s with
  | [] => []
  | c :: s' => ascii_upper_char c :: ascii_lower s'
  end.

End PyStr.
Import PyStr.

(** The case mappings of [str]: [lower()], [upper()], [capitalize()] and
    [isupper()] of a one-character string. The Unicode tables behind them
    are part of the interpreter; they are an interface here, fixed on ASCII
    strings. *)
Class PyUnicode : Type := {
  lower : str -> str;
  upper : str -> str;
  capitalize : str -> str;
  isupper : char -> bool;
  lower_ascii : forall s, is_ascii s = true -> lower s = ascii_lower s;
  upper_ascii : forall s, is_ascii s = true -> upper s = ascii_upper s;
  capitalize_ascii :
    forall s, is_ascii s = true -> capitalize s = ascii_capitalize s;
  isupper_ascii : forall c, (c <? 128)%N = true -> isupper c = ascii_isupper c
}.

(** The tables that know the ASCII letters only. *)
#[export] Instance ascii_tables : PyUnicode := {|
  lower := ascii_lower;
  upper := ascii_upper;
  capitalize := ascii_capitalize;
  isupper := ascii_isupper;
  lower_ascii := fun s _ => eq_refl;
  upper_ascii := fun s _ => eq_refl;
  capitalize_ascii := fun s _ => eq_refl;
  isupper_ascii := fun c _ => eq_refl
|}.

(* ================================================================== *)
(** * Exceptions, and the monad of methods *)
(* ================================================================== *)

Inductive PyExn : Type :=
| ValueError (msg : string)
| IndexError (msg : string)
| OSError (msg : string)
| ExternalError (msg : string).

(** A method of an object whose mutable state is [S]: it returns or raises,
    and the state it leaves behind is kept in both cases. *)
Definition M (S A : Type) : Type := S -> (PyExn + A) * S.

Definition ret {S A} (a : A) : M S A := fun s => (inr a, s).
Definition raise {S A} (e : PyExn) : M S A := fun s => (inl e, s).
Definition bind {S A B} (m : M S A) (k : A -> M S B) : M S B :=
  fun s => match m s with
           | (inr a, s') => k a s'
           | (inl e, s') => (inl e, s')
           end.

Declare Scope py_scope.
Delimit Scope py_scope with py.
Notation "x <- m ;; k" := (bind m (fun x => k))
  (at level 61, m at next level, right associativity) : py_scope.
Notation "' p <- m ;; k" := (bind m (fun p => k))
  (at level 61, p pattern, m at next level, right associativity) : py_scope.
Open Scope py_scope.

(** [try: body except Exception: handler]. *)
Definition try_except {S A} (body : M S A) (handler : PyExn -> M S A) : M S A :=
  fun s => match body s with
           | (inr a, s') => (inr a, s')
           | (inl e, s') => handler e s'
           end.

(* ================================================================== *)
(** * [random.Random] *)
(* ================================================================== *)

(** The generator of the Python standard library, as an interface: the
    state, seeding from an integer, [random()] with its range [0, 1), and
    [_randbelow(n)] with its range [0, n). *)
Class PyRandom : Type := {
  rng : Type;
  rng_seed : Z -> rng;
  rng_random : rng -> Q * rng;
  rng_randbelow : nat -> rng -> nat * rng;
  rng_random_range : forall g, 0 <= fst (rng_random g) /\ fst (rng_random g) < 1;
  rng_randbelow_lt : forall n g, (0 < n)%nat -> (fst (rng_randbelow n g) < n)%nat
}.

Module Random.
Section WithGenerator.
Context {G : PyRandom}.

(** [random.Random(seed)]: with [seed=None] the generator is seeded from the
    entropy of the operating system. *)
Definition Random (seed : option Z) (os_entropy : Z) : rng :=
  match seed with
  | Some a => rng_seed a
  | None => rng_seed os_entropy
  end.

(** [self.random.random()]. *)
Definition random : M rng Q :=
  fun g => let (x, g') := rng_random g in (inr x, g').

(** [self.random.choice(seq)]: [seq[self._randbelow(len(seq))]], an
    [IndexError] on an empty sequence. *)
Definition choice {A} (seq : list A) : M rng A :=
  fun g => match seq with
           | [] => (inl (IndexError "Cannot choose from an empty sequence"), g)
           | x :: _ =>
               let (k, g') := rng_randbelow (length seq) g in
               (inr (nth k seq x), g')
           end.

Lemma choice_In : forall A (seq : list A) g,
  seq <> [] ->
  exists a, fst (choice seq g) = inr a /\ In a seq /\
            snd (choice seq g) = snd (rng_randbelow (length seq) g).
Proof.
  intros A seq g Hne. unfold choice.
  destruct seq as [|x rest]; [congruence|].
  pose proof (rng_randbelow_lt (n := length (x :: rest)) g) as Hlt.
  destruct (rng_randbelow (length (x :: rest)) g) as [k g'] eqn:E.
  simpl fst in *. simpl snd.
  exists (nth k (x :: rest) x). repeat split.
  apply nth_In. apply Hlt. simpl. lia.
Qed.

End WithGenerator.
End Random.
Import Random.

(** A linear congruential generator: an instance of the interface on which
    the definitions below can be evaluated. *)
Module LCG.

Definition modulus : Z := 2147483648.
Definition next (s : Z) : Z := ((1103515245 * s + 12345) mod modulus)%Z.

Definition lcg_random (s : Z) : Q * Z :=
  let s' := next s in (Qmake s' 2147483648, s').

Definition lcg_randbelow (n : nat) (s : Z) : nat * Z :=
  let s' := next s in (Z.to_nat ((s' / 65536) mod Z.of_nat n), s').

Lemma next_range : forall s, (0 <= next s < modulus)%Z.
Proof. intro s. unfold next. apply Z.mod_pos_bound. reflexivity. Qed.

Lemma lcg_random_range : forall g,
  0 <= fst (lcg_random g) /\ fst (lcg_random g) < 1.
Proof.
  intro g. pose proof (next_range g) as H. unfold modulus in H.
  unfold lcg_random, Qle, Qlt. simpl fst. simpl Qnum. simpl Qden. lia.
Qed.

Lemma lcg_randbelow_lt : forall n g,
  (0 < n)%nat -> (fst (lcg_randbelow n g) < n)%nat.
Proof.
  intros n g Hn. unfold lcg_randbelow. simpl fst.
  pose proof (Z.mod_pos_bound (next g / 65536) (Z.of_nat n)) as H.
  lia.
Qed.

#[export] Instance lcg : PyRandom := {|
  rng := Z;
  rng_seed := fun a => (Z.abs a mod modulus)%Z;
  rng_random := lcg_random;
  rng_randbelow := lcg_randbelow;
  rng_random_range := lcg_random_range;
  rng_randbelow_lt := lcg_randbelow_lt
|}.

End LCG.

(** Comparison of floats that the code only compares. *)
Definition Qlt_bool (a b : Q) : bool := negb (Qle_bool b a).

(** A class-level [dict] with string keys, in insertion order. *)
Fixpoint dict_get {V} (key : string) (d : list (string * V)) : option V :=
  match d with
  | [] => None
  | (k, v) :: d' => if String.eqb k key then Some v else dict_get key d'
  end.

(* ================================================================== *)
(** * [src/core/space_manipulator.py] *)
(* ================================================================== *)

Module SpaceManipulator.
Section WithGenerator.
Context {G : PyRandom}.

(** [SPACE_VARIANTS]: the name and the character of each space. *)
Definition SPACE_VARIANTS : list (string * str) :=
  [ ("standard", [32%N]);
    ("non_breaking", [160%N]);
    ("en_space", [8194%N]);
    ("em_space", [8195%N]);
    ("thin_space", [8201%N]);
    ("hair_space", [8202%N]);
    ("zero_width", [8203%N]);
    ("figure_space", [8199%N]);
    ("narrow_no_break", [8239%N]) ]%string.

(** The object: [self.intensity], [self.random], [self.variants]. *)
Record obj : Type := mk_obj {
  intensity : Q;
  random_state : rng;
  variants : list str
}.

Definition set_random (self : obj) (g : rng) : obj :=
  {| intensity := intensity self; random_state := g; variants := variants self |}.

(** A block that only touches [self.random]. *)
Definition on_random {A} (m : M rng A) : M obj A :=
  fun self => let (r, g') := m (random_state self) in (r, set_random self g').

(** [0.0 <= intensity <= 1.0]. *)
Definition valid_intensity (i : Q) : bool := Qle_bool 0 i && Qle_bool i 1.

(** [[v for k, v in self.SPACE_VARIANTS.items() if k != 'standard']]. *)
Definition variants_of_table : list str :=
  map snd (filter (fun kv => negb (String.eqb (fst kv) "standard")) SPACE_VARIANTS).

(** [SpaceManipulator(intensity, seed)]. *)
Definition __init__ (intensity : Q) (seed : option Z) (os_entropy : Z)
  : PyExn + obj :=
  if negb (valid_intensity intensity) then
    inl (ValueError "Intensity must be between 0.0 and 1.0")
  else
    inr {| intensity := intensity;
           random_state := Random seed os_entropy;
           variants := variants_of_table |}.

(** [self.SPACE_VARIANTS['standard']]. *)
Definition standard_space : str :=
  match dict_get "standard" SPACE_VARIANTS with
  | Some v => v
  | None => []
  end.

(** The three tests of the [preserve_boundaries] branch, at index [i]:
    [is_start or is_end or is_line_boundary]. *)
Definition at_boundary (text : str) (i : nat) : bool :=
  let is_start := Nat.eqb i 0 in
  let is_end := Nat.eqb i (length text - 1) in
  let is_line_boundary :=
    (Nat.ltb 0 i &&
       match nth_error text (i - 1) with
       | Some c => char_eqb c NEWLINE
       | None => false
       end)
    || (Nat.ltb i (length text - 1) &&
       match nth_error text (i + 1) with
       | Some c => char_eqb c NEWLINE
       | None => false
       end) in
  is_start || is_end || is_line_boundary.

(** The Bernoulli trial and the draw of a variant:
    [if self.random.random() < self.intensity: self.random.choice(self.variants)]
    and the character itself otherwise. *)
Definition replace_or_keep (self : obj) (char : str) : M rng str :=
  r <- random ;;
  if Qlt_bool r (intensity self) then choice (variants self) else ret char.

(** The body of [for i, char in enumerate(text)], with [result] the list that
    the loop appends to. *)
Fixpoint replace_spaces_loop (self : obj) (text : str) (preserve_boundaries : bool)
    (items : list (nat * char)) (result : list str) : M rng (list str) :=
  match items with
  | [] => ret result
  | (i, c) :: rest =>
      let char := [c] in
      if str_eqb char standard_space then
        if preserve_boundaries && at_boundary text i then
          replace_spaces_loop self text preserve_boundaries rest (result ++ [char])
        else
          x <- replace_or_keep self char ;;
          replace_spaces_loop self text preserve_boundaries rest (result ++ [x])
      else
        replace_spaces_loop self text preserve_boundaries rest (result ++ [char])
  end.

(** [replace_spaces(self, text, preserve_boundaries)]. *)
Definition replace_spaces (text : str) (preserve_boundaries : bool) : M obj str :=
  fun self =>
    if (match text with [] => true | _ => false end)
       || Qeq_bool (intensity self) 0
    then (inr text, self)
    else
      on_random
        (result <- replace_spaces_loop self text preserve_boundaries
                     (enumerate text) [] ;;
         ret (concat result)) self.

(** [analyze_distribution(self, text)]: the count of each space character, by
    name, in the order of the table. *)
Definition analyze_distribution (text : str) : list (string * nat) :=
  map (fun kv : string * str =>
         (fst kv, length (filter (fun c => str_eqb [c] (snd kv)) text)))
      SPACE_VARIANTS.

(** The three counting entries of [get_replacement_stats(original, modified)]:
    [total_spaces], [spaces_replaced] (an [int], possibly negative) and whether
    the rate is computed ([total_original > 0]). *)
Definition get_replacement_stats (original modified : str) : Z * Z :=
  let orig_dist := analyze_distribution original in
  let mod_dist := analyze_distribution modified in
  let total_original := Z.of_nat (list_sum (map snd orig_dist)) in
  let standard_left :=
    match dict_get "standard" mod_dist with
    | Some n => Z.of_nat n
    | None => 0%Z
    end in
  (total_original, (total_original - standard_left)%Z).

(** A fresh object and one call: [SpaceManipulator(intensity, seed)
    .replace_spaces(text, preserve_boundaries)]. *)
Definition fresh_run (intensity : Q) (seed : option Z) (os_entropy : Z)
    (text : str) (preserve_boundaries : bool) : PyExn + str :=
  match __init__ intensity seed os_entropy with
  | inl e => inl e
  | inr self => fst (replace_spaces text preserve_boundaries self)
  end.

End WithGenerator.
End SpaceManipulator.

(* ================================================================== *)
(** * The collaborators: spaCy and WordNet *)
(* ================================================================== *)

(** What the code reads of a spaCy [Doc]: of each token its [text],
    [text_with_ws], [pos_], [tag_], [dep_], [lemma_], the index [i] of the
    token, of its [head] and of its [children] and [subtree]; of each
    sentence of [doc.sents] its [text]. *)
Module Spacy.

Record Token : Type := mk_token {
  i : nat;
  text : str;
  text_with_ws : str;
  pos_ : string;
  tag_ : string;
  dep_ : string;
  lemma_ : str;
  head : nat;
  children : list nat;
  subtree : list nat
}.

Record Doc : Type := mk_doc {
  tokens : list Token;
  sents : list str
}.

(** [doc[k]], for the indices that the tokens of [doc] hold. *)
Definition token_at (doc : Doc) (k : nat) : option Token := nth_error (tokens doc) k.

End Spacy.

(** [self.nlp(text)]: the loaded spaCy model, which may raise. *)
Class NLPModel : Type := {
  nlp : str -> PyExn + Spacy.Doc
}.

(** [wordnet.synsets(word, pos=pos)]: for each synset the names of its
    lemmas; it may raise. [list_of_set] is the order in which a Python [set]
    of strings is iterated: some order of its distinct elements. *)
Class WordNetCorpus : Type := {
  synsets : str -> option string -> PyExn + list (list str);
  list_of_set : list str -> list str;
  list_of_set_In : forall l x, In x (list_of_set l) <-> In x l;
  list_of_set_NoDup : forall l, NoDup (list_of_set l)
}.

(** A block that cannot touch the state: a collaborator's answer. *)
Definition call {S A} (r : PyExn + A) : M S A := fun s => (r, s).

(** A dictionary with [str] keys, in insertion order. *)
Fixpoint str_dict_get {V} (key : str) (d : list (str * V)) : option V :=
  match d with
  | [] => None
  | (k, v) :: d' => if str_eqb k key then Some v else str_dict_get key d'
  end.

(** [x in names] for a list of labels. *)
Definition label_in (x : string) (names : list string) : bool :=
  existsb (String.eqb x) names.

(* ================================================================== *)
(** * [src/core/semantic_replacer.py] *)
(* ================================================================== *)

Module SemanticReplacer.
Section WithCollaborators.
Context {G : PyRandom} {U : PyUnicode} {P : NLPModel} {W : WordNetCorpus}.

Definition DISCOURSE_MARKERS : list (str * list str) :=
  [ (u "however", [u "nevertheless"; u "nonetheless"; u "that said";
                   u "on the other hand"; u "conversely"; u "yet"]);
    (u "therefore", [u "thus"; u "hence"; u "consequently"; u "as a result";
                     u "accordingly"; u "for this reason"]);
    (u "additionally", [u "furthermore"; u "moreover"; u "what's more";
                        u "beyond that"; u "in addition"; u "also"]);
    (u "in conclusion", [u "ultimately"; u "in summary"; u "to sum up";
                         u "all things considered"; u "in the end"]);
    (u "for example", [u "for instance"; u "such as"; u "like"; u "namely";
                       u "to illustrate"]);
    (u "in other words", [u "that is to say"; u "put differently";
                          u "to put it another way"; u "namely"]);
    (u "first", [u "firstly"; u "to begin with"; u "initially"; u "first of all"]);
    (u "finally", [u "lastly"; u "in the end"; u "ultimately"; u "to conclude"]) ].

Definition PHRASE_SUBSTITUTIONS : list (str * list str) :=
  [ (u "in order to", [u "to"; u "so as to"; u "for the purpose of"]);
    (u "due to the fact that", [u "because"; u "since"; u "as"; u "given that"]);
    (u "at this point in time", [u "now"; u "currently"; u "at present"]);
    (u "in the event that", [u "if"; u "should"; u "in case"]);
    (u "with regard to", [u "regarding"; u "concerning"; u "about"]);
    (u "a number of", [u "several"; u "many"; u "some"]);
    (u "in spite of", [u "despite"; u "notwithstanding"]);
    (u "prior to", [u "before"]);
    (u "subsequent to", [u "after"; u "following"]);
    (u "in the process of", [u "currently"; u "while"]) ].

Definition SYNONYM_GROUPS : list (str * list (string * list str)) :=
  [ (u "important",
      [ ("formal", [u "paramount"; u "crucial"; u "vital"; u "essential"]);
        ("technical", [u "critical"; u "significant"; u "key"]);
        ("casual", [u "big"; u "major"; u "main"]) ]%string);
    (u "show",
      [ ("formal", [u "demonstrate"; u "illustrate"; u "exhibit"]);
        ("technical", [u "indicate"; u "reveal"; u "display"]);
        ("casual", [u "prove"; u "point out"]) ]%string);
    (u "improve",
      [ ("formal", [u "enhance"; u "augment"; u "optimize"]);
        ("technical", [u "refine"; u "advance"; u "upgrade"]);
        ("casual", [u "boost"; u "better"; u "fix up"]) ]%string);
    (u "use",
      [ ("formal", [u "utilize"; u "employ"; u "apply"]);
        ("technical", [u "implement"; u "deploy"; u "leverage"]);
        ("casual", [u "try"; u "work with"]) ]%string) ].

(** [word[0].isupper()]; an [IndexError] on the empty string. *)
Definition first_isupper {S} (word : str) : M S bool :=
  match word with
  | [] => raise (IndexError "string index out of range")
  | c :: _ => ret (isupper c)
  end.

(** [get_wordnet_synonyms(self, word, pos)]. *)
Definition get_wordnet_synonyms (word : str) (pos : option string)
  : PyExn + list str :=
  match synsets word pos with
  | inl e => inl e
  | inr syns =>
      let names := map (replace (u "_") (u " ")) (concat syns) in
      let added :=
        filter (fun synonym => negb (str_eqb (lower synonym) (lower word)))
               names in
      inr (list_of_set added)
  end.

(** [replace_with_synonym(self, word, pos)], with [self.formality]. *)
Definition replace_with_synonym (formality : string) (word : str)
    (pos : option string) : M rng (str * Q) :=
  let word_lower := lower word in
  let wordnet_fallback : M rng (str * Q) :=
    synonyms <- call (get_wordnet_synonyms word_lower pos) ;;
    match synonyms with
    | _ :: _ =>
        replacement <- choice synonyms ;;
        up <- first_isupper word ;;
        ret (if up then capitalize replacement else replacement, 6 # 10)
    | [] => ret (word, 0)
    end in
  match str_dict_get word_lower SYNONYM_GROUPS with
  | Some group =>
      match dict_get formality group with
      | Some alternatives =>
          replacement <- choice alternatives ;;
          up <- first_isupper word ;;
          ret (if up then capitalize replacement else replacement, 9 # 10)
      | None => wordnet_fallback
      end
  | None => wordnet_fallback
  end.

(** [for punct in '.,;:!?': if word.endswith(punct): ...; break]: the
    punctuation mark that the word ends with, if it is one of the six. *)
Fixpoint trailing_punct (puncts : str) (word : str) : str :=
  match puncts with
  | [] => []
  | punct :: puncts' =>
      if endswith [punct] word then [punct] else trailing_punct puncts' word
  end.

Definition PUNCTUATION : str := u ".,;:!?".

(** The inner loop of [replace_discourse_markers] over [words], appending to
    [new_words] and counting in [replacements]. *)
Fixpoint replace_marker_words (marker : str) (alternatives : list str)
    (words : list str) (new_words : list str) (replacements : nat)
  : M rng (list str * nat) :=
  match words with
  | [] => ret (new_words, replacements)
  | word :: rest =>
      let word_clean := lower (strip_chars PUNCTUATION word) in
      if str_eqb word_clean (lower marker) then
        replacement <- choice alternatives ;;
        up <- first_isupper word ;;
        let replacement := if up then capitalize replacement else replacement in
        let replacement := replacement ++ trailing_punct PUNCTUATION word in
        replace_marker_words marker alternatives rest
          (new_words ++ [replacement]) (S replacements)
      else
        replace_marker_words marker alternatives rest
          (new_words ++ [word]) replacements
  end.

(** One turn of [for marker, alternatives in self.DISCOURSE_MARKERS.items()]. *)
Definition replace_one_marker (marker : str) (alternatives : list str)
    (modified : str) (replacements : nat) : M rng (str * nat) :=
  if contains (lower marker) (lower modified) then
    '(new_words, replacements) <-
       replace_marker_words marker alternatives (split modified) []
         replacements ;;
    ret (join (u " ") new_words, replacements)
  else ret (modified, replacements).

Fixpoint replace_markers_in (table : list (str * list str)) (modified : str)
    (replacements : nat) : M rng (str * nat) :=
  match table with
  | [] => ret (modified, replacements)
  | (marker, alternatives) :: table' =>
      '(modified, replacements) <-
         replace_one_marker marker alternatives modified replacements ;;
      replace_markers_in table' modified replacements
  end.

(** [replace_discourse_markers(self, text)]. *)
Definition replace_discourse_markers (text : str) : M rng (str * nat) :=
  replace_markers_in DISCOURSE_MARKERS text 0.

(** One turn of [for phrase, alternatives in self.PHRASE_SUBSTITUTIONS.items()]. *)
Definition replace_one_phrase (phrase : str) (alternatives : list str)
    (modified : str) (replacements : nat) : M rng (str * nat) :=
  if contains phrase (lower modified) then
    replacement <- choice alternatives ;;
    if contains phrase modified then
      ret (replace phrase replacement modified, S replacements)
    else if contains (capitalize phrase) modified then
      ret (replace (capitalize phrase) (capitalize replacement) modified,
           S replacements)
    else ret (modified, replacements)
  else ret (modified, replacements).

Fixpoint replace_phrases_in (table : list (str * list str)) (modified : str)
    (replacements : nat) : M rng (str * nat) :=
  match table with
  | [] => ret (modified, replacements)
  | (phrase, alternatives) :: table' =>
      '(modified, replacements) <-
         replace_one_phrase phrase alternatives modified replacements ;;
      replace_phrases_in table' modified replacements
  end.

(** [replace_phrases(self, text)]. *)
Definition replace_phrases (text : str) : M rng (str * nat) :=
  replace_phrases_in PHRASE_SUBSTITUTIONS text 0.

(** [token.pos_ in ['VERB', 'ADJ', 'ADV'] and len(token.text) > 4]. *)
Definition content_word (token : Spacy.Token) : bool :=
  label_in (Spacy.pos_ token) ["VERB"; "ADJ"; "ADV"]%string
  && Nat.ltb 4 (length (Spacy.text token)).

(** [pos_map.get(token.pos_)]. *)
Definition pos_map : list (string * string) :=
  [("VERB", "v"); ("ADJ", "a"); ("ADV", "r")]%string.

(** The word that the loop of [replace_semantics] appends for one token. *)
Definition replace_token (formality : string) (intensity : Q)
    (token : Spacy.Token) : M rng str :=
  if content_word token then
    r <- random ;;
    if Qlt_bool r intensity then
      let wn_pos := dict_get (Spacy.pos_ token) pos_map in
      '(replacement, conf) <-
         replace_with_synonym formality (Spacy.text token) wn_pos ;;
      if Qlt_bool (5 # 10) conf then ret replacement
      else ret (Spacy.text token)
    else ret (Spacy.text token)
  else ret (rstrip_by isspace (Spacy.text_with_ws token)).

Fixpoint replace_tokens (formality : string) (intensity : Q)
    (tokens : list Spacy.Token) (words : list str) : M rng (list str) :=
  match tokens with
  | [] => ret words
  | token :: rest =>
      word <- replace_token formality intensity token ;;
      replace_tokens formality intensity rest (words ++ [word])
  end.

(** [for punct in '.,;:!?': modified = modified.replace(f' {punct}', punct)]. *)
Definition fix_punctuation_spacing (modified : str) : str :=
  fold_left (fun m punct => replace (SPACE :: [punct]) [punct] m)
            PUNCTUATION modified.

(** The block under [if intensity > 0.3]. *)
Definition replace_content_words (formality : string) (intensity : Q)
    (modified : str) : M rng str :=
  doc <- call (nlp modified) ;;
  words <- replace_tokens formality intensity (Spacy.tokens doc) [] ;;
  ret (fix_punctuation_spacing (join (u " ") words)).

(** [replace_semantics(self, text, intensity)]. *)
Definition replace_semantics (formality : string) (text : str) (intensity : Q)
  : M rng str :=
  '(modified, _) <- replace_discourse_markers text ;;
  '(modified, _) <- replace_phrases modified ;;
  if Qlt_bool (3 # 10) intensity then
    replace_content_words formality intensity modified
  else ret modified.

End WithCollaborators.
End SemanticReplacer.

(* ================================================================== *)
(** * [src/nlp/parsers.py] *)
(* ================================================================== *)

Module NLPParser.
Section WithModel.
Context {P : NLPModel}.

(** [parse(self, text)]. *)
Definition parse (text : str) : PyExn + Spacy.Doc := nlp text.

(** [get_sentences(self, text)]. *)
Definition get_sentences (text : str) : PyExn + list str :=
  match parse text with
  | inl e => inl e
  | inr doc => inr (map strip (Spacy.sents doc))
  end.

(** The tokens that the indices of [ks] name in [doc]. *)
Definition tokens_at (doc : Spacy.Doc) (ks : list nat) : list Spacy.Token :=
  flat_map (fun k => match Spacy.token_at doc k with
                     | Some t => [t]
                     | None => []
                     end) ks.

(** [any(child.dep_ == "auxpass" for child in token.children)]. *)
Definition has_auxpass_child (doc : Spacy.Doc) (token : Spacy.Token) : bool :=
  existsb (fun child => String.eqb (Spacy.dep_ child) "auxpass")
          (tokens_at doc (Spacy.children token)).

(** [is_passive_voice(self, sentence)]. *)
Definition is_passive_voice (sentence : str) : PyExn + bool :=
  match parse sentence with
  | inl e => inl e
  | inr doc =>
      inr (existsb
             (fun token =>
                String.eqb (Spacy.dep_ token) "nsubjpass"
                || (String.eqb (Spacy.tag_ token) "VBN"
                    && has_auxpass_child doc token))
             (Spacy.tokens doc))
  end.

(** The dictionary that [find_clauses] returns. *)
Record Clauses : Type := mk_clauses {
  main : list str;
  dependent : list str;
  relative : list str
}.

(** [' '.join([t.text for t in token.subtree])]. *)
Definition subtree_text (doc : Spacy.Doc) (token : Spacy.Token) : str :=
  join (u " ") (map Spacy.text (tokens_at doc (Spacy.subtree token))).

(** [find_clauses(self, sentence)]. *)
Definition find_clauses (sentence : str) : PyExn + Clauses :=
  match parse sentence with
  | inl e => inl e
  | inr doc =>
      inr (fold_left
             (fun clauses token =>
                if label_in (Spacy.dep_ token) ["advcl"; "ccomp"; "xcomp"]%string
                then {| main := main clauses;
                        dependent := dependent clauses ++ [subtree_text doc token];
                        relative := relative clauses |}
                else if String.eqb (Spacy.dep_ token) "relcl"
                then {| main := main clauses;
                        dependent := dependent clauses;
                        relative := relative clauses ++ [subtree_text doc token] |}
                else clauses)
             (Spacy.tokens doc)
             {| main := []; dependent := []; relative := [] |})
  end.

End WithModel.
End NLPParser.

(* ================================================================== *)
(** * [src/core/syntax_restructurer.py] *)
(* ================================================================== *)

Module SyntaxRestructurer.
Section WithCollaborators.
Context {G : PyRandom} {U : PyUnicode} {P : NLPModel}.

(** The three roles that the loops of the voice conversions collect; a later
    token overwrites an earlier one. *)
Record Roles : Type := mk_roles {
  role_a : option Spacy.Token;
  role_b : option Spacy.Token;
  role_c : option Spacy.Token
}.

(** The truth value of a token in [if agent and passive_subject and
    main_verb]: a token is false when its text is empty. *)
Definition truthy (t : option Spacy.Token) : bool :=
  match t with
  | Some tok => negb (Nat.eqb (length (Spacy.text tok)) 0)
  | None => false
  end.

Definition same_token (a : Spacy.Token) (b : option Spacy.Token) : bool :=
  match b with
  | Some t => Nat.eqb (Spacy.i a) (Spacy.i t)
  | None => false
  end.

(** [token.head.text == "by"]. *)
Definition head_is_by (doc : Spacy.Doc) (token : Spacy.Token) : bool :=
  match Spacy.token_at doc (Spacy.head token) with
  | Some h => str_eqb (Spacy.text h) (u "by")
  | None => false
  end.

(** [passive_to_active(self, sentence)]. *)
Definition passive_to_active (sentence : str) : PyExn + (str * Q) :=
  match NLPParser.is_passive_voice sentence with
  | inl e => inl e
  | inr false => inr (sentence, 0)
  | inr true =>
      match NLPParser.parse sentence with
      | inl e => inl e
      | inr doc =>
          let roles :=
            fold_left
              (fun r token =>
                 if String.eqb (Spacy.dep_ token) "nsubjpass" then
                   {| role_a := Some token; role_b := role_b r; role_c := role_c r |}
                 else if String.eqb (Spacy.dep_ token) "agent"
                         || (String.eqb (Spacy.dep_ token) "pobj"
                             && head_is_by doc token) then
                   {| role_a := role_a r; role_b := Some token; role_c := role_c r |}
                 else if String.eqb (Spacy.tag_ token) "VBN"
                         && NLPParser.has_auxpass_child doc token then
                   {| role_a := role_a r; role_b := role_b r; role_c := Some token |}
                 else r)
              (Spacy.tokens doc)
              {| role_a := None; role_b := None; role_c := None |} in
          let passive_subject := role_a roles in
          let agent := role_b roles in
          let main_verb := role_c roles in
          match agent, passive_subject, main_verb with
          | Some ag, Some subj, Some verb =>
              if truthy agent && truthy passive_subject && truthy main_verb then
                let new_sentence :=
                  capitalize (Spacy.text ag) ++ u " " ++ Spacy.lemma_ verb
                  ++ u " " ++ Spacy.text subj in
                let remaining :=
                  map Spacy.text
                    (filter
                       (fun t =>
                          negb (same_token t agent || same_token t passive_subject
                                || same_token t main_verb)
                          && negb (label_in (Spacy.dep_ t)
                                     ["auxpass"; "agent"; "prep"]%string)
                          && negb (existsb (str_eqb (lower (Spacy.text t)))
                                     [u "was"; u "were"; u "been"; u "by"; u "the"]))
                       (Spacy.tokens doc)) in
                let new_sentence :=
                  match remaining with
                  | [] => new_sentence
                  | _ :: _ => new_sentence ++ u " " ++ join (u " ") remaining
                  end in
                inr (new_sentence ++ u ".", 8 # 10)
              else inr (sentence, 0)
          | _, _, _ => inr (sentence, 0)
          end
      end
  end.

(** [active_to_passive(self, sentence)]. *)
Definition active_to_passive (sentence : str) : PyExn + (str * Q) :=
  match NLPParser.is_passive_voice sentence with
  | inl e => inl e
  | inr true => inr (sentence, 0)
  | inr false =>
      match NLPParser.parse sentence with
      | inl e => inl e
      | inr doc =>
          let roles :=
            fold_left
              (fun r token =>
                 if String.eqb (Spacy.dep_ token) "nsubj" then
                   {| role_a := Some token; role_b := role_b r; role_c := role_c r |}
                 else if String.eqb (Spacy.pos_ token) "VERB"
                         && String.eqb (Spacy.dep_ token) "ROOT" then
                   {| role_a := role_a r; role_b := Some token; role_c := role_c r |}
                 else if label_in (Spacy.dep_ token) ["dobj"; "obj"]%string then
                   {| role_a := role_a r; role_b := role_b r; role_c := Some token |}
                 else r)
              (Spacy.tokens doc)
              {| role_a := None; role_b := None; role_c := None |} in
          match role_a roles, role_b roles, role_c roles with
          | Some subject, Some verb, Some obj =>
              if truthy (role_a roles) && truthy (role_b roles)
                 && truthy (role_c roles) then
                let be_verb :=
                  if label_in (Spacy.tag_ obj) ["NN"; "NNP"]%string
                  then u "was" else u "were" in
                inr (capitalize (Spacy.text obj) ++ u " " ++ be_verb ++ u " "
                     ++ Spacy.text verb ++ u " by "
                     ++ lower (Spacy.text subject) ++ u ".", 6 # 10)
              else inr (sentence, 0)
          | _, _, _ => inr (sentence, 0)
          end
      end
  end.

(** [reorder_clauses(self, sentence)]. *)
Definition reorder_clauses (sentence : str) : PyExn + (str * Q) :=
  match NLPParser.find_clauses sentence with
  | inl e => inl e
  | inr clauses =>
      match NLPParser.dependent clauses with
      | [] => inr (sentence, 0)
      | _ :: _ =>
          match NLPParser.parse sentence with
          | inl e => inl e
          | inr _ =>
              if startswith (u "because") (lower sentence) then
                match split_once 44%N sentence with
                | [part0; part1] =>
                    let dependent := strip part0 in
                    let main := strip part1 in
                    let main :=
                      match main with
                      | c :: main' => upper [c] ++ main'
                      | [] => main
                      end in
                    let dependent := lower dependent in
                    inr (main ++ u " " ++ dependent ++ u ".", 7 # 10)
                | _ => inr (sentence, 0)
                end
              else inr (sentence, 0)
          end
      end
  end.

Definition nominalizations : list (str * str) :=
  [ (u "implementation of", u "implementing");
    (u "completion of", u "completing");
    (u "development of", u "developing");
    (u "creation of", u "creating");
    (u "analysis of", u "analyzing");
    (u "evaluation of", u "evaluating");
    (u "examination of", u "examining") ].

(** The loop of [reverse_nominalization], which stops at the first key that
    occurs. *)
Fixpoint reverse_nominalization_in (table : list (str * str)) (sentence : str)
  : str * Q :=
  match table with
  | [] => (sentence, 0)
  | (nominal, verbal) :: table' =>
      if contains nominal (lower sentence) then
        let modified := replace nominal verbal sentence in
        let modified := replace (capitalize nominal) (capitalize verbal) modified in
        (modified, 6 # 10)
      else reverse_nominalization_in table' sentence
  end.

(** [reverse_nominalization(self, sentence)]. *)
Definition reverse_nominalization (sentence : str) : str * Q :=
  reverse_nominalization_in nominalizations sentence.

Definition connectors : list str := [u "and"; u "while"; u "as"].

(** [len(words) > 30 and ',' in sent], and [len(words) < 8]. *)
Definition long_with_comma (sent : str) : bool :=
  Nat.ltb 30 (length (split sent)) && contains (u ",") sent.
Definition short (sent : str) : bool := Nat.ltb (length (split sent)) 8.

(** [f"{sent.rstrip('.')} {connector} {next_sent.lower()}"]. *)
Definition combine (sent connector next_sent : str) : str :=
  rstrip_chars (u ".") sent ++ u " " ++ connector ++ u " " ++ lower next_sent.

(** The [while i < len(sentences)] loop of [vary_sentence_complexity]:
    [sentences] is the list from index [i] on, [result] the list built so
    far. A turn consumes one sentence, or two when it combines. *)
Fixpoint vary_loop (sentences : list str) (result : list str)
  : M rng (list str) :=
  match sentences with
  | [] => ret result
  | sent :: rest =>
      let combine_or_keep : M rng (list str) :=
        match rest with
        | next_sent :: rest' =>
            if short sent && short next_sent then
              connector <- choice connectors ;;
              vary_loop rest' (result ++ [combine sent connector next_sent])
            else vary_loop rest (result ++ [sent])
        | [] => vary_loop rest (result ++ [sent])
        end in
      if long_with_comma sent then
        match split_once 44%N sent with
        | [part0; part1] =>
            vary_loop rest (result ++ [strip part0 ++ u "."; strip part1])
        | _ => combine_or_keep
        end
      else combine_or_keep
  end.

(** [vary_sentence_complexity(self, sentences)]. *)
Definition vary_sentence_complexity (sentences : list str)
  : M rng (list str * Q) :=
  match sentences with
  | [] => ret (sentences, 0)
  | _ :: _ =>
      result <- vary_loop sentences [] ;;
      ret (result,
           if Nat.eqb (length result) (length sentences) then 0 else 5 # 10)
  end.

(** The body of [for sent in sentences] in [restructure]. *)
Definition restructure_sentence (enable_voice enable_clauses
    enable_nominalization : bool) (sent : str) : PyExn + str :=
  let current := sent in
  match
    (if enable_voice then
       match NLPParser.is_passive_voice current with
       | inl e => inl e
       | inr true =>
           match passive_to_active current with
           | inl e => inl e
           | inr (result, conf) =>
               inr (if Qlt_bool (5 # 10) conf then result else current)
           end
       | inr false => inr current
       end
     else inr current)
  with
  | inl e => inl e
  | inr current =>
      match
        (if enable_clauses then
           match reorder_clauses current with
           | inl e => inl e
           | inr (result, conf) =>
               inr (if Qlt_bool (5 # 10) conf then result else current)
           end
         else inr current)
      with
      | inl e => inl e
      | inr current =>
          if enable_nominalization then
            let (result, conf) := reverse_nominalization current in
            inr (if Qlt_bool (5 # 10) conf then result else current)
          else inr current
      end
  end.

Fixpoint restructure_sentences (enable_voice enable_clauses
    enable_nominalization : bool) (sentences : list str)
    (transformed : list str) : PyExn + list str :=
  match sentences with
  | [] => inr transformed
  | sent :: rest =>
      match restructure_sentence enable_voice enable_clauses
              enable_nominalization sent with
      | inl e => inl e
      | inr current =>
          restructure_sentences enable_voice enable_clauses
            enable_nominalization rest (transformed ++ [current])
      end
  end.

(** [restructure(self, text, enable_voice, enable_clauses,
    enable_nominalization)]. *)
Definition restructure (text : str) (enable_voice enable_clauses
    enable_nominalization : bool) : M rng str :=
  sentences <- call (NLPParser.get_sentences text) ;;
  transformed <- call (restructure_sentences enable_voice enable_clauses
                         enable_nominalization sentences []) ;;
  '(transformed, _) <- vary_sentence_complexity transformed ;;
  ret (join (u " ") transformed).

End WithCollaborators.
End SyntaxRestructurer.

(* ================================================================== *)
(** * [src/nlp/analyzers.py] and [src/core/pipeline.py] *)
(* ================================================================== *)

(** The arithmetic of Python floats, on the floats that the code computes
    with: every operation of binary64 is rounded. A float is represented by
    the rational it denotes; the rounded operations are part of the
    interpreter and an interface here. *)
Class PyFloat : Type := {
  float_sub : Q -> Q -> Q;
  float_truediv : Q -> Q -> Q;
  float_mul : Q -> Q -> Q
}.

(** What the pipeline loads and calls besides the parser: the outcome of
    [spacy.load] in [NLPParser()], the sentence-transformer model
    ([self.model], [None] when it could not be loaded; called, it encodes two
    texts and returns their cosine similarity, or raises), and the
    ['flesch_kincaid_grade'] entry of [ReadabilityAnalyzer.analyze(text)],
    the one score of textstat that the pipeline reads (the call may raise). *)
Class QualityServices : Type := {
  spacy_load : PyExn + unit;
  sentence_model : option (str -> str -> PyExn + Q);
  flesch_kincaid_grade : str -> PyExn + Q
}.

Module Analyzers.
Section WithServices.
Context {O : QualityServices} {FP : PyFloat}.

(** [SemanticSimilarityChecker.calculate_similarity(self, text1, text2)]. *)
Definition calculate_similarity (text1 text2 : str) : PyExn + Q :=
  match sentence_model with
  | None => inr 0
  | Some model => model text1 text2
  end.

(** The ['flesch_kincaid_grade'] entry of [ReadabilityAnalyzer.compare]:
    the two grades and the [percent_change], which is [diff / orig * 100]
    with [diff = mod - orig], each a float operation, and [0] when the
    original grade is zero. *)
Definition compare_flesch_kincaid (original modified : str)
  : PyExn + (Q * Q * Q) :=
  match flesch_kincaid_grade original with
  | inl e => inl e
  | inr orig_score =>
      match flesch_kincaid_grade modified with
      | inl e => inl e
      | inr mod_score =>
          let diff := float_sub mod_score orig_score in
          let pct_change :=
            if Qeq_bool orig_score 0 then 0
            else float_mul (float_truediv diff orig_score) 100 in
          inr (orig_score, mod_score, pct_change)
      end
  end.

End WithServices.
End Analyzers.

Module HumanizationPipeline.
Section WithCollaborators.
Context {G : PyRandom} {U : PyUnicode} {P : NLPModel} {W : WordNetCorpus}
        {O : QualityServices} {FP : PyFloat}.

(** The object: the configuration, the Space Codec, and the generators of
    the syntax and the lexical engine. *)
Record obj : Type := mk_obj {
  intensity : Q;
  enable_unicode : bool;
  enable_syntax : bool;
  enable_semantics : bool;
  formality : string;
  quality_threshold : Q;
  space_manipulator : SpaceManipulator.obj;
  syntax_random : rng;
  semantic_random : rng
}.

(** [HumanizationPipeline(intensity, enable_unicode, enable_syntax,
    enable_semantics, formality, quality_threshold, seed)]. The three engines
    are seeded with the same [seed]; without one each draws its own entropy. *)
Definition __init__ (intensity : Q)
    (enable_unicode enable_syntax enable_semantics : bool)
    (formality : string) (quality_threshold : Q) (seed : option Z)
    (os_entropy : Z * Z * Z) : PyExn + obj :=
  match spacy_load with
  | inl e => inl e
  | inr _ =>
      match SpaceManipulator.__init__ intensity seed (fst (fst os_entropy)) with
      | inl e => inl e
      | inr space =>
          inr {| intensity := intensity;
                 enable_unicode := enable_unicode;
                 enable_syntax := enable_syntax;
                 enable_semantics := enable_semantics;
                 formality := formality;
                 quality_threshold := quality_threshold;
                 space_manipulator := space;
                 syntax_random := Random seed (snd (fst os_entropy));
                 semantic_random := Random seed (snd os_entropy) |}
      end
  end.

(** Blocks that run on one component of the object. *)
Definition on_syntax {A} (m : M rng A) : M obj A :=
  fun self =>
    let (r, g') := m (syntax_random self) in
    (r, {| intensity := intensity self;
           enable_unicode := enable_unicode self;
           enable_syntax := enable_syntax self;
           enable_semantics := enable_semantics self;
           formality := formality self;
           quality_threshold := quality_threshold self;
           space_manipulator := space_manipulator self;
           syntax_random := g';
           semantic_random := semantic_random self |}).

Definition on_semantics {A} (m : M rng A) : M obj A :=
  fun self =>
    let (r, g') := m (semantic_random self) in
    (r, {| intensity := intensity self;
           enable_unicode := enable_unicode self;
           enable_syntax := enable_syntax self;
           enable_semantics := enable_semantics self;
           formality := formality self;
           quality_threshold := quality_threshold self;
           space_manipulator := space_manipulator self;
           syntax_random := syntax_random self;
           semantic_random := g' |}).

Definition on_space {A} (m : M SpaceManipulator.obj A) : M obj A :=
  fun self =>
    let (r, space') := m (space_manipulator self) in
    (r, {| intensity := intensity self;
           enable_unicode := enable_unicode self;
           enable_syntax := enable_syntax self;
           enable_semantics := enable_semantics self;
           formality := formality self;
           quality_threshold := quality_threshold self;
           space_manipulator := space';
           syntax_random := syntax_random self;
           semantic_random := semantic_random self |}).

(** The entries of the quality metrics that the object computes exactly.
    The AI-risk and lexical-diversity entries are floating-point statistics
    that [humanize] reports and never reads; they are left out. *)
Record QualityMetrics : Type := mk_metrics {
  semantic_similarity : Q;
  readability_change : Q;
  original_readability : Q;
  modified_readability : Q;
  total_spaces : Z;
  spaces_replaced : Z
}.

(** The dictionary that [humanize] returns; [quality_metrics] is [None] for
    the empty dictionary of the short cut. *)
Record Result : Type := mk_result {
  original : str;
  humanized : str;
  transformations_applied : list string;
  quality_metrics : option QualityMetrics;
  passed_quality_check : bool
}.

(** [_calculate_quality_metrics(self, original, modified)]. *)
Definition _calculate_quality_metrics (original modified : str)
  : M obj QualityMetrics :=
  '(orig_score, mod_score, fk_grade_change) <-
     call (Analyzers.compare_flesch_kincaid original modified) ;;
  semantic_similarity <- call (Analyzers.calculate_similarity original modified) ;;
  let space_stats := SpaceManipulator.get_replacement_stats original modified in
  ret {| semantic_similarity := semantic_similarity;
         readability_change := fk_grade_change;
         original_readability := orig_score;
         modified_readability := mod_score;
         total_spaces := fst space_stats;
         spaces_replaced := snd space_stats |}.

(** The state of a run between two steps: [current_text] and
    [transformations_applied]. *)
Definition Progress : Type := (str * list string)%type.

(** Step 1 of [humanize]: syntax restructuring. *)
Definition step_syntax (original_text : str) (p : Progress) : M obj Progress :=
  fun self =>
    let (current_text, transformations_applied) := p in
    if enable_syntax self then
      try_except
        (restructured <- on_syntax
           (SyntaxRestructurer.restructure current_text true true true) ;;
         similarity <- call (Analyzers.calculate_similarity original_text
                               restructured) ;;
         if Qle_bool (quality_threshold self) similarity then
           ret (restructured,
                transformations_applied ++ ["syntax_restructuring"%string])
         else ret (current_text, transformations_applied))
        (fun _ => ret (current_text, transformations_applied))
        self
    else (inr (current_text, transformations_applied), self).

(** Step 2: semantic replacement. *)
Definition step_semantics (original_text : str) (p : Progress) : M obj Progress :=
  fun self =>
    let (current_text, transformations_applied) := p in
    if enable_semantics self then
      try_except
        (semantic_text <- on_semantics
           (SemanticReplacer.replace_semantics (formality self) current_text
              (intensity self)) ;;
         similarity <- call (Analyzers.calculate_similarity original_text
                               semantic_text) ;;
         if Qle_bool (quality_threshold self) similarity then
           ret (semantic_text,
                transformations_applied ++ ["semantic_replacement"%string])
         else ret (current_text, transformations_applied))
        (fun _ => ret (current_text, transformations_applied))
        self
    else (inr (current_text, transformations_applied), self).

(** Step 3: Unicode space manipulation. *)
Definition step_unicode (p : Progress) : M obj Progress :=
  fun self =>
    let (current_text, transformations_applied) := p in
    if enable_unicode self then
      try_except
        (unicode_text <- on_space
           (SpaceManipulator.replace_spaces current_text true) ;;
         ret (unicode_text,
              transformations_applied ++ ["unicode_manipulation"%string]))
        (fun _ => ret (current_text, transformations_applied))
        self
    else (inr (current_text, transformations_applied), self).

(** Steps 1 to 3, from the original text. *)
Definition run_stages (text : str) : M obj Progress :=
  p <- step_syntax text (text, []) ;;
  p <- step_semantics text p ;;
  step_unicode p.

(** The final quality check on the metrics. *)
Definition final_gate (threshold : Q) (m : QualityMetrics) : bool :=
  Qle_bool threshold (semantic_similarity m)
  && Qle_bool (Qabs (readability_change m)) 5.

(** [not text or not text.strip()]. *)
Definition blank (text : str) : bool :=
  match text with
  | [] => true
  | _ :: _ => match strip text with [] => true | _ :: _ => false end
  end.

(** [humanize(self, text, preserve_formatting)]. *)
Definition humanize (text : str) (preserve_formatting : bool) : M obj Result :=
  if blank text then
    ret {| original := text; humanized := text;
           transformations_applied := []; quality_metrics := None;
           passed_quality_check := true |}
  else
    let original_text := text in
    '(current_text, transformations_applied) <- run_stages text ;;
    quality_metrics <- _calculate_quality_metrics original_text current_text ;;
    fun self =>
      let passed_quality_check :=
        final_gate (quality_threshold self) quality_metrics in
      if negb passed_quality_check then
        (inr {| original := original_text; humanized := original_text;
                transformations_applied := [];
                quality_metrics := Some quality_metrics;
                passed_quality_check := passed_quality_check |}, self)
      else
        (inr {| original := original_text; humanized := current_text;
                transformations_applied := transformations_applied;
                quality_metrics := Some quality_metrics;
                passed_quality_check := passed_quality_check |}, self).

(** [batch_humanize(self, texts)]. *)
Fixpoint batch_humanize (texts : list str) (results : list Result)
  : M obj (list Result) :=
  match texts with
  | [] => ret results
  | text :: rest =>
      result <- humanize text true ;;
      batch_humanize rest (results ++ [result])
  end.

End WithCollaborators.
End HumanizationPipeline.

(* ================================================================== *)
(** * Collaborators for evaluation *)
(* ================================================================== *)

(** Instances of the collaborator interfaces on which the engines can be
    evaluated: a parser that knows the parses of a table of texts and raises
    on any other text, and a thesaurus given by a table. *)
Module Scripted.

Definition scripted_nlp (table : list (str * Spacy.Doc)) : NLPModel :=
  {| nlp := fun text =>
       match str_dict_get text table with
       | Some doc => inr doc
       | None => inl (ExternalError "no parse for this text")
       end |}.

Definition str_eq_dec : forall a b : str, {a = b} + {a <> b} :=
  list_eq_dec N.eq_dec.

Definition scripted_wordnet (table : list (str * list (list str)))
  : WordNetCorpus :=
  {| synsets := fun word _ =>
       match str_dict_get word table with
       | Some syns => inr syns
       | None => inr []
       end;
     list_of_set := nodup str_eq_dec;
     list_of_set_In := fun l x => nodup_In str_eq_dec l x;
     list_of_set_NoDup := fun l => NoDup_nodup str_eq_dec l |}.

(** A token that stands alone in the tree: its own head, no children. *)
Definition word (i : nat) (text : string) (ws : string) (pos tag dep : string)
  : Spacy.Token :=
  {| Spacy.i := i; Spacy.text := u text; Spacy.text_with_ws := u text ++ u ws;
     Spacy.pos_ := pos; Spacy.tag_ := tag; Spacy.dep_ := dep;
     Spacy.lemma_ := u text; Spacy.head := i; Spacy.children := [];
     Spacy.subtree := [i] |}.

(** ["We improve results"], one sentence, [improve] a verb. *)
Definition we_improve_results : Spacy.Doc :=
  {| Spacy.tokens :=
       [ word 0 "We" " " "PRON" "PRP" "nsubj";
         word 1 "improve" " " "VERB" "VBP" "ROOT";
         word 2 "results" "" "NOUN" "NNS" "dobj" ];
     Spacy.sents := [u "We improve results"] |}.

Definition small_parser : NLPModel :=
  scripted_nlp [(u "We improve results", we_improve_results)].

Definition small_wordnet : WordNetCorpus :=
  scripted_wordnet [(u "quickly", [[u "quickly"; u "rapidly"; u "speedily"]])].

End Scripted.

(** Quality services for evaluation. *)
Module ScriptedServices.

(** Arithmetic without rounding: it agrees with binary64 whenever the exact
    result is a float, as it is for the scores of the runs below (equal
    grades, difference 0.0). *)
#[global] Instance unrounded : PyFloat :=
  {| float_sub := Qminus; float_truediv := Qdiv; float_mul := Qmult |}.

(** No sentence-transformer model could be loaded: every similarity is 0.0. *)
Definition no_model : QualityServices :=
  {| spacy_load := inr tt;
     sentence_model := None;
     flesch_kincaid_grade := fun _ => inr 8 |}.

(** A model that scores a rewriting in ASCII at 0.9 and a text with any
    other code point at 0.5; a constant grade. *)
Definition ascii_sensitive : QualityServices :=
  {| spacy_load := inr tt;
     sentence_model :=
       Some (fun _ candidate => inr (if is_ascii candidate then 9 # 10 else 1 # 2));
     flesch_kincaid_grade := fun _ => inr 8 |}.

(** The spaCy model cannot be loaded. *)
Definition no_parser : QualityServices :=
  {| spacy_load := inl (OSError "cannot find model en_core_web_lg");
     sentence_model := None;
     flesch_kincaid_grade := fun _ => inr 8 |}.

End ScriptedServices.

(* ================================================================== *)
(** * The Space Codec: what [replace_spaces] guarantees *)
(* ================================================================== *)

Module SpaceCodec.
Import SpaceManipulator.

(** The eight code points other than U+0020 in [SPACE_VARIANTS]. *)
Definition variant_chars : list char :=
  [160; 8194; 8195; 8201; 8202; 8203; 8199; 8239]%N.

Section WithGenerator.
Context {G : PyRandom}.

(** The invariant of an object: what [__init__] establishes and no method
    changes. *)
Definition built (self : obj) : Prop :=
  variants self = variants_of_table /\ valid_intensity (intensity self) = true.

(** Position [i] holds an ASCII space on which the loop draws: a space that
    the [preserve_boundaries] branch does not skip. *)
Definition draw_site (text : str) (preserve_boundaries : bool)
    (i : nat) (c : char) : bool :=
  char_eqb c SPACE && negb (preserve_boundaries && at_boundary text i).

(** The generator after one trial (and the draw of a variant, if any). *)
Definition trial_state (self : obj) (g : rng) : rng :=
  snd (replace_or_keep self [SPACE] g).

(** The generator after the trials of [items], in order. *)
Definition after_trials (self : obj) (text : str) (preserve_boundaries : bool)
    (items : list (nat * char)) (g : rng) : rng :=
  fold_left
    (fun g ic => if draw_site text preserve_boundaries (fst ic) (snd ic)
                 then trial_state self g else g)
    items g.

(** The number of positions of [text] on which the loop draws. *)
Definition draw_sites (text : str) (preserve_boundaries : bool) : nat :=
  length (filter (fun ic => draw_site text preserve_boundaries (fst ic) (snd ic))
                 (enumerate text)).

(** What the loop may write for the character [c] at index [i]. *)
Definition written (self : obj) (text : str) (preserve_boundaries : bool)
    (ic : nat * char) (c' : char) : Prop :=
  (draw_site text preserve_boundaries (fst ic) (snd ic) = false -> c' = snd ic) /\
  (draw_site text preserve_boundaries (fst ic) (snd ic) = true ->
     (c' = SPACE \/ In c' variant_chars) /\
     (intensity self == 1 -> In c' variant_chars)).

Lemma init_built : forall i seed e self,
  __init__ i seed e = inr self -> built self.
Proof.
  intros i seed e self H. unfold __init__ in H.
  destruct (valid_intensity i) eqn:V; simpl in H; [|discriminate].
  inversion H; subst. split; [reflexivity | exact V].
Qed.

Lemma init_rejects : forall i seed e,
  valid_intensity i = false ->
  __init__ i seed e = inl (ValueError "Intensity must be between 0.0 and 1.0").
Proof. intros i seed e V. unfold __init__. rewrite V. reflexivity. Qed.

Lemma variants_shape : forall o,
  In o variants_of_table ->
  exists c', o = [c'] /\ In c' variant_chars /\ c' <> SPACE.
Proof.
  intros o H. unfold variants_of_table in H. simpl in H.
  repeat (destruct H as [H|H];
          [subst o; eexists; split; [reflexivity|];
           split; [simpl; tauto | discriminate] |]).
  contradiction.
Qed.

Lemma variant_chars_not_space : forall c, In c variant_chars -> c <> SPACE.
Proof.
  intros c H. simpl in H.
  repeat (destruct H as [H|H]; [subst c; discriminate|]). contradiction.
Qed.

Lemma is_standard_space : forall c, str_eqb [c] standard_space = char_eqb c SPACE.
Proof. intro c. simpl. apply andb_true_r. Qed.

Lemma Qlt_bool_true : forall a b, Qlt_bool a b = true <-> a < b.
Proof.
  intros a b. unfold Qlt_bool. rewrite negb_true_iff. split; intro H.
  - apply Qnot_le_lt. intro L. apply Qle_bool_iff in L. congruence.
  - destruct (Qle_bool b a) eqn:E; [|reflexivity].
    apply Qle_bool_iff in E. exfalso. exact (Qlt_not_le _ _ H E).
Qed.

(** One trial never raises; it writes the space or one of the variants, and
    a variant for sure at intensity 1. *)
Lemma replace_or_keep_ok : forall self g,
  built self ->
  exists c', fst (replace_or_keep self [SPACE] g) = inr [c'] /\
             (c' = SPACE \/ In c' variant_chars) /\
             (intensity self == 1 -> In c' variant_chars).
Proof.
  intros self g [Hv _]. unfold replace_or_keep, bind, random.
  pose proof (rng_random_range g) as [_ Hlt].
  destruct (rng_random g) as [r g1]. simpl fst in Hlt.
  destruct (Qlt_bool r (intensity self)) eqn:E.
  - rewrite Hv.
    destruct (@choice_In G _ variants_of_table g1) as [o [Ho [Hin _]]];
      [discriminate|].
    destruct (variants_shape Hin) as [c' [-> [Hc _]]].
    exists c'. split; [exact Ho|]. split; [right; exact Hc | intros _; exact Hc].
  - exists SPACE. split; [reflexivity|]. split; [left; reflexivity|].
    intro H1. exfalso.
    assert (Qlt_bool r (intensity self) = true) as T.
    { apply Qlt_bool_true. rewrite H1. exact Hlt. }
    congruence.
Qed.

Lemma after_trials_cons : forall self text pb i c rest g,
  after_trials self text pb ((i, c) :: rest) g
  = after_trials self text pb rest
      (if draw_site text pb i c then trial_state self g else g).
Proof. reflexivity. Qed.

Lemma replace_spaces_loop_cons : forall self text pb i c rest result,
  replace_spaces_loop self text pb ((i, c) :: rest) result
  = if char_eqb c SPACE then
      if pb && at_boundary text i then
        replace_spaces_loop self text pb rest (result ++ [[c]])
      else
        x <- replace_or_keep self [c] ;;
        replace_spaces_loop self text pb rest (result ++ [x])
    else replace_spaces_loop self text pb rest (result ++ [[c]]).
Proof.
  intros. cbn [replace_spaces_loop]. rewrite is_standard_space. reflexivity.
Qed.

(** The loop: it never raises, it appends one character per item, and the
    generator advances by one trial per draw site and not otherwise. *)
Lemma replace_spaces_loop_spec : forall self text pb,
  built self ->
  forall items result g,
  exists outs,
    replace_spaces_loop self text pb items result g
      = (inr (result ++ map (fun c => [c]) outs),
         after_trials self text pb items g) /\
    Forall2 (written self text pb) items outs.
Proof.
  intros self text pb Hb. induction items as [|[i c] rest IH]; intros result g.
  - exists []. simpl. rewrite app_nil_r. split; [reflexivity | constructor].
  - rewrite after_trials_cons, replace_spaces_loop_cons.
    assert (draw_site text pb i c
            = char_eqb c SPACE && negb (pb && at_boundary text i)) as Hd
      by reflexivity.
    destruct (char_eqb c SPACE) eqn:Ec.
    + destruct (pb && at_boundary text i) eqn:Eb;
        cbn [andb negb] in Hd; rewrite Hd.
      * destruct (IH (result ++ [[c]]) g) as [outs [E F]].
        exists (c :: outs). split.
        -- rewrite E. cbn [map]. rewrite <- app_assoc. reflexivity.
        -- constructor; [|exact F]. unfold written. cbn [fst snd].
           rewrite Hd. split; [reflexivity | discriminate].
      * apply N.eqb_eq in Ec. subst c.
        destruct (replace_or_keep_ok g Hb) as [c' [Hc' [Hor H1]]].
        unfold bind, trial_state.
        destruct (replace_or_keep self [SPACE] g) as [r g1]. cbn [fst snd] in *.
        subst r. cbv beta iota.
        destruct (IH (result ++ [[c']]) g1) as [outs [E F]].
        exists (c' :: outs). split.
        -- rewrite E. cbn [map]. rewrite <- app_assoc. reflexivity.
        -- constructor; [|exact F]. unfold written. cbn [fst snd].
           rewrite Hd. split; [discriminate | intros _; split; assumption].
    + cbn [andb] in Hd. rewrite Hd.
      destruct (IH (result ++ [[c]]) g) as [outs [E F]].
      exists (c :: outs). split.
      * rewrite E. cbn [map]. rewrite <- app_assoc. reflexivity.
      * constructor; [|exact F]. unfold written. cbn [fst snd].
        rewrite Hd. split; [reflexivity | discriminate].
Qed.

Lemma count_none : forall c (t : str),
  (forall c', In c' t -> c' <> c) -> count c t = 0%nat.
Proof.
  intros c t H. unfold count. induction t as [|y t IH]; [reflexivity|].
  cbn [filter]. destruct (char_eqb c y) eqn:Ey.
  - apply N.eqb_eq in Ey. exfalso. apply (H y); [left; reflexivity | congruence].
  - apply IH. intros c' Hc'. apply H. right. exact Hc'.
Qed.

Lemma count_some : forall c (t : str), In c t -> (0 < count c t)%nat.
Proof.
  intros c t H. unfold count. induction t as [|y t IH]; [contradiction|].
  cbn [filter]. destruct (char_eqb c y) eqn:Ey; [cbn [length]; lia|].
  destruct H as [->|H]; [|apply IH; exact H].
  unfold char_eqb in Ey. rewrite N.eqb_refl in Ey. discriminate.
Qed.

Lemma concat_singletons : forall (l : str), concat (map (fun c => [c]) l) = l.
Proof. induction l as [|c l IH]; simpl; [reflexivity | now rewrite IH]. Qed.

Lemma after_trials_count : forall self text pb items g,
  after_trials self text pb items g
  = Nat.iter
      (length (filter (fun ic => draw_site text pb (fst ic) (snd ic)) items))
      (trial_state self) g.
Proof.
  intros self text pb. unfold after_trials.
  induction items as [|ic rest IH]; intro g; cbn [fold_left filter].
  - reflexivity.
  - destruct (draw_site text pb (fst ic) (snd ic)).
    + rewrite IH. cbn [length]. rewrite Nat.iter_succ_r. reflexivity.
    + apply IH.
Qed.


Lemma Forall2_enumerate_nth :
  forall (R : nat * N -> N -> Prop) (text : str) k (out : str),
  Forall2 R (enumerate_from k text) out ->
  length out = length text /\
  forall i c, nth_error text i = Some c ->
              exists c', nth_error out i = Some c' /\ R ((k + i)%nat, c) c'.
Proof.
  intros R. induction text as [|x text IH]; intros k out H; simpl in H.
  - inversion H; subst. split; [reflexivity|].
    intros [|i] c E; discriminate.
  - inversion H as [|? y ? out' Hxy Hrest]; subst.
    destruct (IH _ _ Hrest) as [L P]. split; [simpl; congruence|].
    intros [|i] c E; simpl in E.
    + inversion E; subst. exists y. rewrite Nat.add_0_r. split; [reflexivity | exact Hxy].
    + destruct (P i c E) as [c' [E' Hr]]. exists c'. split; [exact E'|].
      replace (k + S i)%nat with (S k + i)%nat by lia. exact Hr.
Qed.

Lemma written_unchanged : forall self text pb k (t : str),
  ~ intensity self == 1 ->
  Forall2 (written self text pb) (enumerate_from k t) t.
Proof.
  intros self text pb k t Hn. revert k.
  induction t as [|c t IH]; intro k; simpl; constructor; [|apply IH].
  unfold written, draw_site. cbn [fst snd]. split; [reflexivity|].
  intro H. apply andb_true_iff in H. destruct H as [H _].
  apply N.eqb_eq in H. split; [left; exact H | intro; contradiction].
Qed.

Lemma set_random_same : forall self : obj, set_random self (random_state self) = self.
Proof. intros [i g v]. reflexivity. Qed.

(** The whole method: it returns; every character is [written] from the one
    at its index; the generator has advanced by one trial per draw site (by
    none on the early return). *)
Lemma replace_spaces_spec : forall self text pb,
  built self ->
  exists out,
    replace_spaces text pb self
      = (inr out,
         set_random self
           (Nat.iter (if Qeq_bool (intensity self) 0 then 0%nat
                      else draw_sites text pb)
                     (trial_state self) (random_state self))) /\
    Forall2 (written self text pb) (enumerate text) out.
Proof.
  intros self text pb Hb. unfold replace_spaces.
  destruct (Qeq_bool (intensity self) 0) eqn:E0.
  - rewrite orb_true_r. exists text. cbn [Nat.iter nat_rect].
    rewrite set_random_same. split; [reflexivity|].
    apply written_unchanged. apply Qeq_bool_iff in E0. rewrite E0.
    intro H. discriminate H.
  - rewrite orb_false_r. destruct text as [|c0 text0] eqn:Et.
    + exists []. cbn [draw_sites enumerate enumerate_from filter length Nat.iter nat_rect].
      rewrite set_random_same. split; [reflexivity | constructor].
    + rewrite <- Et. unfold on_random, bind.
      destruct (replace_spaces_loop_spec text pb Hb (enumerate text) []
                  (random_state self)) as [outs [E F]].
      rewrite E. cbn [ret app]. rewrite concat_singletons.
      exists outs. split; [|exact F].
      rewrite after_trials_count. reflexivity.
Qed.

(** Objects stay well formed. *)
Lemma replace_spaces_built : forall self text pb,
  built self -> built (snd (replace_spaces text pb self)).
Proof.
  intros self text pb Hb.
  destruct (replace_spaces_spec text pb Hb) as [out [E _]]. rewrite E.
  exact Hb.
Qed.

(** The claim's words for a boundary position: the first or the last
    character of the text, or a neighbour of a newline. *)
Definition boundary_position (text : str) (i : nat) : Prop :=
  i = 0%nat \/ i = (length text - 1)%nat \/
  ((0 < i)%nat /\ nth_error text (i - 1) = Some NEWLINE) \/
  nth_error text (i + 1) = Some NEWLINE.

Lemma at_boundary_iff : forall text i,
  at_boundary text i = true <-> boundary_position text i.
Proof.
  intros text i. unfold at_boundary, boundary_position.
  rewrite !orb_true_iff, !andb_true_iff, Nat.eqb_eq, Nat.eqb_eq, !Nat.ltb_lt.
  assert (forall j, match nth_error text j with
                    | Some c => char_eqb c NEWLINE
                    | None => false
                    end = true <-> nth_error text j = Some NEWLINE) as Hn.
  { intro j. destruct (nth_error text j) as [c|]; split; intro H;
      try discriminate.
    - apply N.eqb_eq in H. congruence.
    - inversion H; subst. apply N.eqb_refl. }
  rewrite !Hn. split.
  - intros [[H|H]|[H|[H1 H2]]]; auto.
  - intros [H|[H|[H|H]]]; auto.
    right. right. split; [|exact H].
    assert (nth_error text (i + 1) <> None) as Hs by congruence.
    apply nth_error_Some in Hs. lia.
Qed.

End WithGenerator.
End SpaceCodec.

Module SpaceCodecClaims.
Import SpaceManipulator SpaceCodec.

Section WithGenerator.
Context {G : PyRandom}.

(** C3. Length invariance: on every well-formed object (any intensity that
    [__init__] accepts, any generator state), for every text and either value
    of [preserve_boundaries], [replace_spaces] returns a string with as many
    characters as the input, and a position that does not hold an ASCII space
    keeps its character. *)
Theorem replace_spaces_length_invariant :
  forall (self : obj) (text : str) (preserve_boundaries : bool),
  built self ->
  exists out,
    fst (replace_spaces text preserve_boundaries self) = inr out /\
    length out = length text /\
    forall i c, nth_error text i = Some c -> c <> SPACE ->
                nth_error out i = Some c.
Proof.
  intros self text pb Hb.
  destruct (replace_spaces_spec text pb Hb) as [out [E F]].
  exists out. rewrite E. split; [reflexivity|].
  destruct (@Forall2_enumerate_nth _ _ _ _ F) as [L P]. cbn [Nat.add] in P.
  split; [exact L|].
  intros i c Hi Hc. destruct (P i c Hi) as [c' [E' [W _]]].
  rewrite E'. f_equal. apply W. unfold draw_site. cbn [fst snd].
  destruct (char_eqb c SPACE) eqn:Ec; [|reflexivity].
  apply N.eqb_eq in Ec. contradiction.
Qed.

(** C4. Boundary preservation: with [preserve_boundaries=True], an ASCII
    space that is the first or the last character, or next to a newline, is
    at the same position of the output; the generator is advanced by exactly
    one trial for each ASCII space that is not at such a position (by none
    when the intensity is 0), and a position is such a draw site exactly
    when it holds an ASCII space away from every boundary. *)
Theorem replace_spaces_preserves_boundaries :
  forall (self : obj) (text : str),
  built self ->
  exists out,
    fst (replace_spaces text true self) = inr out /\
    (forall i, nth_error text i = Some SPACE -> boundary_position text i ->
               nth_error out i = Some SPACE) /\
    random_state (snd (replace_spaces text true self))
      = Nat.iter (if Qeq_bool (intensity self) 0 then 0%nat
                  else draw_sites text true)
                 (trial_state self) (random_state self) /\
    (forall i c, draw_site text true i c = true <->
                 c = SPACE /\ ~ boundary_position text i).
Proof.
  intros self text Hb.
  destruct (replace_spaces_spec text true Hb) as [out [E F]].
  exists out. rewrite E. split; [reflexivity|].
  destruct (@Forall2_enumerate_nth _ _ _ _ F) as [_ P]. cbn [Nat.add] in P.
  split; [|split].
  - intros i Hi Hbd. destruct (P i SPACE Hi) as [c' [E' [W _]]].
    rewrite E'. f_equal. apply W. unfold draw_site. cbn [fst snd andb].
    apply at_boundary_iff in Hbd. rewrite Hbd. reflexivity.
  - reflexivity.
  - intros i c. unfold draw_site. cbn [andb].
    rewrite andb_true_iff, negb_true_iff, <- at_boundary_iff.
    unfold char_eqb. rewrite N.eqb_eq.
    destruct (at_boundary text i); split.
    + intros [_ H]. discriminate.
    + intros [_ H]. exfalso. apply H. reflexivity.
    + intros [H _]. split; [exact H | discriminate].
    + intros [H _]. split; [exact H | reflexivity].
Qed.

(** C5. Intensity bounds: at intensity 0 the text is returned as it is and
    the object is untouched; at intensity 1 without boundary preservation,
    a text with at least one ASCII space has every ASCII space replaced by
    one of the eight variants, so no ASCII space is left and their count
    strictly decreases. *)
Theorem replace_spaces_intensity_bounds :
  forall (self : obj) (text : str) (preserve_boundaries : bool),
  built self ->
  (intensity self == 0 ->
     replace_spaces text preserve_boundaries self = (inr text, self)) /\
  (intensity self == 1 -> In SPACE text ->
     exists out,
       fst (replace_spaces text false self) = inr out /\
       (forall i, nth_error text i = Some SPACE ->
                  exists v, nth_error out i = Some v /\ In v variant_chars) /\
       count SPACE out = 0%nat /\
       (count SPACE out < count SPACE text)%nat).
Proof.
  intros self text pb Hb. split.
  - intro H0. unfold replace_spaces.
    apply Qeq_bool_iff in H0. rewrite H0, orb_true_r. reflexivity.
  - intros H1 Hin.
    destruct (replace_spaces_spec text false Hb) as [out [E F]].
    exists out. rewrite E. split; [reflexivity|].
    destruct (@Forall2_enumerate_nth _ _ _ _ F) as [L P]. cbn [Nat.add] in P.
    assert (forall i c, nth_error text i = Some c ->
              exists c', nth_error out i = Some c' /\
                         (c = SPACE -> In c' variant_chars) /\
                         (c <> SPACE -> c' = c)) as P'.
    { intros i c Hi. destruct (P i c Hi) as [c' [E' [W0 W1]]].
      exists c'. split; [exact E'|]. unfold draw_site in W0, W1.
      cbn [fst snd andb negb] in W0, W1. rewrite andb_true_r in W0, W1.
      split.
      - intros ->. apply W1; [reflexivity | exact H1].
      - intro Hc. apply W0. apply N.eqb_neq. exact Hc. }
    assert (forall c', In c' out -> c' <> SPACE) as Hout.
    { intros c' Hc'. apply In_nth_error in Hc'. destruct Hc' as [i Hi].
      assert (i < length text)%nat as Hlt.
      { rewrite <- L. apply nth_error_Some. congruence. }
      destruct (nth_error text i) as [c|] eqn:Et;
        [|apply nth_error_None in Et; lia].
      destruct (P' i c Et) as [c'' [E'' [Hs Hn]]].
      rewrite Hi in E''. inversion E''; subst c''.
      destruct (N.eq_dec c SPACE) as [->|Hne].
      - apply variant_chars_not_space. apply Hs. reflexivity.
      - rewrite (Hn Hne). exact Hne. }
    assert (count SPACE out = 0%nat) as Hz.
    { apply count_none. exact Hout. }
    split; [|split; [exact Hz|]].
    + intros i Hi. destruct (P' i SPACE Hi) as [c' [E' [Hs _]]].
      exists c'. split; [exact E' | apply Hs; reflexivity].
    + rewrite Hz. apply count_some. exact Hin.
Qed.

(** C7. Determinism: two runs that each build a fresh object from the same
    intensity and integer seed and call [replace_spaces] once on the same
    text and flag return the same result (the same string, or the same
    error), whatever the ambient entropy of either run. *)
Theorem replace_spaces_deterministic :
  forall (intensity : Q) (seed : Z) (text : str) (preserve_boundaries : bool)
         (os_entropy1 os_entropy2 : Z),
  fresh_run intensity (Some seed) os_entropy1 text preserve_boundaries
  = fresh_run intensity (Some seed) os_entropy2 text preserve_boundaries.
Proof.
  intros i seed text pb e1 e2. unfold fresh_run, __init__.
  destruct (valid_intensity i); reflexivity.
Qed.

End WithGenerator.

(** Concrete objects, on the linear congruential generator. *)
Definition half_intensity_object : obj (G := LCG.lcg) :=
  {| intensity := 1 # 2; random_state := rng_seed 42%Z;
     variants := variants_of_table |}.

Definition full_intensity_object : obj (G := LCG.lcg) :=
  {| intensity := 1; random_state := rng_seed 42%Z;
     variants := variants_of_table |}.

Lemma replace_spaces_length_invariant_witness :
  built half_intensity_object /\
  exists out,
    fst (replace_spaces (u " Hello world test ") true half_intensity_object)
      = inr out /\
    length out = length (u " Hello world test ") /\
    forall i c, nth_error (u " Hello world test ") i = Some c -> c <> SPACE ->
                nth_error out i = Some c.
Proof.
  split.
  - split; reflexivity.
  - apply (@replace_spaces_length_invariant LCG.lcg half_intensity_object
             (u " Hello world test ") true).
    split; reflexivity.
Defined.

Lemma replace_spaces_preserves_boundaries_witness :
  built full_intensity_object /\
  exists out,
    fst (replace_spaces (u " Hello world ") true full_intensity_object)
      = inr out /\
    (forall i, nth_error (u " Hello world ") i = Some SPACE ->
               boundary_position (u " Hello world ") i ->
               nth_error out i = Some SPACE) /\
    random_state (snd (replace_spaces (u " Hello world ") true
                         full_intensity_object))
      = Nat.iter (if Qeq_bool (intensity full_intensity_object) 0 then 0%nat
                  else draw_sites (u " Hello world ") true)
                 (trial_state full_intensity_object)
                 (random_state full_intensity_object) /\
    (forall i c, draw_site (u " Hello world ") true i c = true <->
                 c = SPACE /\ ~ boundary_position (u " Hello world ") i).
Proof.
  split.
  - split; reflexivity.
  - apply (@replace_spaces_preserves_boundaries LCG.lcg full_intensity_object
             (u " Hello world ")).
    split; reflexivity.
Defined.

Lemma replace_spaces_intensity_bounds_witness :
  built full_intensity_object /\
  intensity full_intensity_object == 1 /\
  In SPACE (u "Hello world test") /\
  exists out,
    fst (replace_spaces (u "Hello world test") false full_intensity_object)
      = inr out /\
    (forall i, nth_error (u "Hello world test") i = Some SPACE ->
               exists v, nth_error out i = Some v /\ In v variant_chars) /\
    count SPACE out = 0%nat /\
    (count SPACE out < count SPACE (u "Hello world test"))%nat.
Proof.
  assert (built full_intensity_object) as Hb by (split; reflexivity).
  assert (intensity full_intensity_object == 1) as H1 by reflexivity.
  assert (In SPACE (u "Hello world test")) as Hin
    by (do 5 right; left; reflexivity).
  split; [exact Hb|]. split; [exact H1|]. split; [exact Hin|].
  exact (proj2 (@replace_spaces_intensity_bounds LCG.lcg full_intensity_object
                  (u "Hello world test") false Hb) H1 Hin).
Defined.

(** The scenario of the specification: seed 42, intensity 1.0, boundaries
    disabled, on ["Hello world test"]: two ASCII spaces before, none after. *)
Example hello_world_test_scenario :
  exists out,
    fresh_run (G := LCG.lcg) 1 (Some 42%Z) 0%Z (u "Hello world test") false
      = inr out /\
    count SPACE (u "Hello world test") = 2%nat /\ count SPACE out = 0%nat.
Proof. eexists. split; [vm_compute; reflexivity | split; reflexivity]. Qed.

(** Without a seed ([seed=None]) the generator is seeded from the entropy of
    the run, and two runs may differ. *)
Example seedless_runs_may_differ :
  fresh_run (G := LCG.lcg) 1 None 1%Z (u "a b") false
  <> fresh_run (G := LCG.lcg) 1 None 2%Z (u "a b") false.
Proof. vm_compute. discriminate. Qed.

End SpaceCodecClaims.

(* ================================================================== *)
(** * Facts about [split] and [join] *)
(* ================================================================== *)

Module SplitJoin.

(** A word: not empty, and free of white space. *)
Definition token (w : str) : Prop :=
  w <> [] /\ forallb (fun c => negb (isspace c)) w = true.

(** A phrase: one word or more, separated by single ASCII spaces. *)
Definition phrase (p : str) : Prop :=
  exists ts, ts <> [] /\ Forall token ts /\ p = join (u " ") ts.

Definition phrase_b (p : str) : bool :=
  match split p with
  | [] => false
  | _ :: _ => str_eqb (join (u " ") (split p)) p
  end.






Lemma words_from_tokens : forall s,
  forallb (fun c => negb (isspace c)) (fst (words_from s)) = true /\
  Forall token (snd (words_from s)).
Proof.
  induction s as [|c s [Hw Hws]]; [split; [reflexivity | constructor]|].
  cbn [words_from]. destruct (words_from s) as [w ws]. cbn [fst snd] in *.
  destruct (isspace c) eqn:Ec; cbn [fst snd].
  - split; [reflexivity|]. destruct w as [|d w]; [exact Hws|].
    constructor; [|exact Hws]. split; [discriminate | exact Hw].
  - split; [|exact Hws]. cbn [forallb]. rewrite Ec, Hw. reflexivity.
Qed.

Lemma split_tokens : forall s, Forall token (split s).
Proof.
  intro s. unfold split. destruct (words_from_tokens s) as [Hw Hws].
  destruct (words_from s) as [w ws]. cbn [fst snd] in *.
  destruct w as [|d w]; [exact Hws|].
  constructor; [|exact Hws]. split; [discriminate | exact Hw].
Qed.



Lemma join_app : forall sep (a b : list str),
  a <> [] -> b <> [] -> join sep (a ++ b) = join sep a ++ sep ++ join sep b.
Proof.
  intros sep a b Ha Hb. induction a as [|x [|y a] IH]; [congruence| |].
  - destruct b; [congruence | reflexivity].
  - change (join sep ((x :: y :: a) ++ b))
      with (x ++ sep ++ join sep ((y :: a) ++ b)).
    rewrite IH by discriminate.
    change (join sep (x :: y :: a)) with (x ++ sep ++ join sep (y :: a)).
    rewrite <- !app_assoc. reflexivity.
Qed.

Lemma join_concat : forall sep (xss : list (list str)),
  Forall (fun xs => xs <> []) xss ->
  join sep (concat xss) = join sep (map (join sep) xss).
Proof.
  intros sep xss H. induction H as [|xs [|ys rest] Hxs Hrest IH]; [reflexivity| |].
  - cbn [concat map join]. rewrite app_nil_r. reflexivity.
  - cbn [concat]. rewrite join_app.
    + cbn [concat] in IH. rewrite IH. reflexivity.
    + exact Hxs.
    + inversion Hrest as [|? ? Hys _]; subst. destruct ys; [congruence | discriminate].
Qed.


Lemma phrase_b_sound : forall p, phrase_b p = true -> phrase p.
Proof.
  intros p H. unfold phrase_b in H. exists (split p).
  destruct (split p) as [|t ts] eqn:E; [discriminate|].
  split; [discriminate|]. split.
  - rewrite <- E. apply split_tokens.
  - symmetry. apply str_eqb_eq. exact H.
Qed.



Lemma join_snoc : forall sep (ts : list str) t (c : N),
  join sep (ts ++ [t]) ++ [c] = join sep (ts ++ [t ++ [c]]).
Proof.
  intros sep ts t c. induction ts as [|x [|y ts] IH].
  - reflexivity.
  - cbn [app join]. rewrite <- !app_assoc. reflexivity.
  - change (join sep ((x :: y :: ts) ++ [t]))
      with (x ++ sep ++ join sep ((y :: ts) ++ [t])).
    change (join sep ((x :: y :: ts) ++ [t ++ [c]]))
      with (x ++ sep ++ join sep ((y :: ts) ++ [t ++ [c]])).
    rewrite <- IH. rewrite <- !app_assoc. reflexivity.
Qed.

Lemma phrase_snoc : forall p c,
  phrase p -> isspace c = false -> phrase (p ++ [c]).
Proof.
  intros p c [ts [Hne [Hts ->]]] Hc.
  destruct (exists_last Hne) as [ts' [t ->]].
  rewrite join_snoc. exists (ts' ++ [t ++ [c]]).
  apply Forall_app in Hts. destruct Hts as [Hts' Ht].
  inversion Ht as [|? ? [_ Ht1] _]; subst.
  split; [destruct ts'; discriminate|]. split; [|reflexivity].
  apply Forall_app. split; [exact Hts'|].
  constructor; [|constructor]. split; [destruct t; discriminate|].
  rewrite forallb_app, Ht1. cbn [forallb]. rewrite Hc. reflexivity.
Qed.

End SplitJoin.

(* ================================================================== *)
(** * Discourse markers: the white space of the output *)
(* ================================================================== *)

Module DiscourseMarkers.
Import SemanticReplacer SplitJoin.

Section WithTables.
Context {G : PyRandom} {U : PyUnicode}.



(** What one turn makes of a word. *)
Definition turn_image (marker w o : str) : Prop :=
  o = w \/ (lower (strip_chars PUNCTUATION w) = lower marker /\ phrase o).

Definition good_alternatives (alternatives : list str) : Prop :=
  alternatives <> [] /\
  Forall (fun a => phrase a /\ phrase (capitalize a)) alternatives.

Definition good_alternatives_b (alternatives : list str) : bool :=
  match alternatives with
  | [] => false
  | _ :: _ =>
      forallb (fun a => is_ascii a && phrase_b a && phrase_b (ascii_capitalize a))
              alternatives
  end.

Lemma good_alternatives_sound : forall alternatives,
  good_alternatives_b alternatives = true -> good_alternatives alternatives.
Proof.
  intros alts H. unfold good_alternatives_b in H.
  destruct alts as [|a0 alts0] eqn:E; [discriminate|]. rewrite <- E in *.
  split; [rewrite E; discriminate|].
  apply Forall_forall. intros a Ha.
  rewrite forallb_forall in H. specialize (H a Ha).
  apply andb_true_iff in H. destruct H as [H H3].
  apply andb_true_iff in H. destruct H as [H1 H2].
  split; [apply phrase_b_sound; exact H2|].
  rewrite (capitalize_ascii a H1). apply phrase_b_sound. exact H3.
Qed.

Lemma table_good : forall marker alternatives,
  In (marker, alternatives) DISCOURSE_MARKERS -> good_alternatives alternatives.
Proof.
  intros marker alts H. apply good_alternatives_sound.
  assert (forallb (fun ma => good_alternatives_b (snd ma)) DISCOURSE_MARKERS
          = true) as T by (vm_compute; reflexivity).
  rewrite forallb_forall in T. exact (T _ H).
Qed.

Lemma trailing_punct_phrase : forall p word,
  phrase p -> phrase (p ++ trailing_punct PUNCTUATION word).
Proof.
  intros p word Hp.
  assert (forall puncts, forallb (fun c => negb (isspace c)) puncts = true ->
                         phrase (p ++ trailing_punct puncts word)) as H.
  { induction puncts as [|c puncts IH]; intro Hs.
    - cbn [trailing_punct]. rewrite app_nil_r. exact Hp.
    - cbn [forallb] in Hs. apply andb_true_iff in Hs. destruct Hs as [Hc Hs].
      cbn [trailing_punct]. destruct (endswith [c] word).
      + apply phrase_snoc; [exact Hp | apply negb_true_iff; exact Hc].
      + apply IH. exact Hs. }
  apply H. reflexivity.
Qed.

(** The inner loop returns, and every word is kept or, when it is the
    marker, replaced by a phrase. *)
Lemma replace_marker_words_spec : forall marker alternatives,
  good_alternatives alternatives ->
  forall words, Forall token words ->
  forall new_words n g,
  exists outs n' g',
    replace_marker_words marker alternatives words new_words n g
      = (inr (new_words ++ outs, n'), g') /\
    Forall2 (turn_image marker) words outs.
Proof.
  intros marker alts [Hne Hgood] words Hw.
  induction Hw as [|word rest [Hword _] _ IH]; intros new_words n g.
  - exists [], n, g. cbn [replace_marker_words]. rewrite app_nil_r.
    split; [reflexivity | constructor].
  - cbn [replace_marker_words].
    destruct (str_eqb (lower (strip_chars PUNCTUATION word)) (lower marker))
      eqn:Em.
    + apply str_eqb_eq in Em.
      destruct (@choice_In G _ alts g Hne) as [a [Ha [Hin Hg]]].
      unfold bind at 1. destruct (choice alts g) as [r g1].
      cbn [fst] in Ha. subst r.
      destruct word as [|c word']; [congruence|].
      unfold bind at 1. cbn [first_isupper ret].
      rewrite Forall_forall in Hgood. destruct (Hgood a Hin) as [Pa Pc].
      set (o := (if isupper c then capitalize a else a)
                ++ trailing_punct PUNCTUATION (c :: word')).
      destruct (IH (new_words ++ [o]) (S n) g1) as [outs [n' [g' [E F]]]].
      exists (o :: outs), n', g'. split.
      * rewrite E. rewrite <- app_assoc. reflexivity.
      * constructor; [|exact F]. right. split; [exact Em|].
        unfold o. apply trailing_punct_phrase.
        destruct (isupper c); assumption.
    + destruct (IH (new_words ++ [word]) n g) as [outs [n' [g' [E F]]]].
      exists (word :: outs), n', g'. split.
      * rewrite E. rewrite <- app_assoc. reflexivity.
      * constructor; [left; reflexivity | exact F].
Qed.

Lemma replace_one_marker_hit : forall marker alternatives modified n g,
  good_alternatives alternatives ->
  contains (lower marker) (lower modified) = true ->
  exists outs n' g',
    replace_one_marker marker alternatives modified n g
      = (inr (join (u " ") outs, n'), g') /\
    Forall2 (turn_image marker) (split modified) outs.
Proof.
  intros marker alts modified n g Hgood Hc. unfold replace_one_marker.
  rewrite Hc.
  destruct (replace_marker_words_spec marker Hgood (split_tokens modified) [] n g)
    as [outs [n' [g' [E F]]]].
  exists outs, n', g'. unfold bind. rewrite E. split; [reflexivity | exact F].
Qed.

Lemma replace_one_marker_miss : forall marker alternatives modified n g,
  contains (lower marker) (lower modified) = false ->
  replace_one_marker marker alternatives modified n g = (inr (modified, n), g).
Proof.
  intros marker alts modified n g Hc. unfold replace_one_marker.
  rewrite Hc. reflexivity.
Qed.









End WithTables.
End DiscourseMarkers.

Module DiscourseMarkerClaims.
Import SemanticReplacer SplitJoin DiscourseMarkers.

Section WithTables.
Context {G : PyRandom} {U : PyUnicode}.


(** Without any key in the text nothing is split: the text comes back as it
    is, and no draw is made. *)
Lemma discourse_markers_untouched :
  forall (text : str) (g : rng),
  (forall marker alternatives,
     In (marker, alternatives) DISCOURSE_MARKERS ->
     contains (lower marker) (lower text) = false) ->
  replace_discourse_markers text g = (inr (text, 0%nat), g).
Proof.
  intros text g. unfold replace_discourse_markers.
  generalize 0%nat. generalize DISCOURSE_MARKERS.
  induction l as [|[marker alts] table IH]; intros n H; [reflexivity|].
  cbn [replace_markers_in]. unfold bind.
  rewrite replace_one_marker_miss by (eapply H; left; reflexivity).
  apply IH. intros m a Hin. eapply H. right. exact Hin.
Qed.

End WithTables.

Definition sample_text : str :=
  u "However,  the   first" ++ [NEWLINE] ++ u " thing matters. ".


(** The sample, evaluated: two words replaced, the run of spaces, the newline
    and the trailing space gone. *)
Example sample_text_evaluated :
  fst (replace_discourse_markers (G := LCG.lcg) (U := ascii_tables)
         sample_text (rng_seed 1%Z))
  = inr (u "That said, the initially thing matters.", 2%nat).
Proof. vm_compute. reflexivity. Qed.

End DiscourseMarkerClaims.

(* ================================================================== *)
(** * Content words: trial, confidence, capitalisation *)
(* ================================================================== *)

Module ContentWords.
Import SemanticReplacer.

Section WithCollaborators.
Context {G : PyRandom} {U : PyUnicode} {P : NLPModel} {W : WordNetCorpus}.

(** The replacement with the capital of the word it replaces:
    [if word[0].isupper(): replacement = replacement.capitalize()]. *)
Definition keep_capital (word replacement : str) : str :=
  match word with
  | c :: _ => if isupper c then capitalize replacement else replacement
  | [] => replacement
  end.

(** The list that the curated table holds for a word at a formality. *)
Definition curated (formality : string) (word : str) : option (list str) :=
  match str_dict_get (lower word) SYNONYM_GROUPS with
  | Some group => dict_get formality group
  | None => None
  end.

Lemma curated_not_empty : forall formality word alternatives,
  curated formality word = Some alternatives -> alternatives <> [].
Proof.
  intros formality word alts H. unfold curated in H.
  destruct (str_dict_get (lower word) SYNONYM_GROUPS) as [group|] eqn:Eg;
    [|discriminate].
  assert (forallb (fun wg : list N * list (string * list (list N)) =>
                     forallb (fun fa : string * list (list N) =>
                                negb (Nat.eqb (length (snd fa)) 0))
                             (snd wg))
                  SYNONYM_GROUPS = true) as T by (vm_compute; reflexivity).
  assert (In group (map snd SYNONYM_GROUPS)) as Hg.
  { clear - Eg. induction SYNONYM_GROUPS as [|[k v] d IH]; [discriminate|].
    cbn [str_dict_get] in Eg. destruct (str_eqb k (lower word)).
    - inversion Eg; subst. left. reflexivity.
    - right. apply IH. exact Eg. }
  apply in_map_iff in Hg. destruct Hg as [[k v] [Hk Hin]]. cbn [snd] in Hk. subst v.
  rewrite forallb_forall in T. specialize (T _ Hin). cbn [snd] in T.
  assert (In alts (map snd group)) as Ha.
  { clear - H. induction group as [|[k' v'] d IH]; [discriminate|].
    cbn [dict_get] in H. destruct (String.eqb k' formality).
    - inversion H; subst. left. reflexivity.
    - right. apply IH. exact H. }
  apply in_map_iff in Ha. destruct Ha as [[k' v'] [Hk' Hin']]. cbn [snd] in Hk'. subst v'.
  rewrite forallb_forall in T. specialize (T _ Hin'). cbn [snd] in T.
  intros ->. discriminate T.
Qed.

(** The general lookup (WordNet), as the fallback uses it. *)
Definition wordnet_fallback (word : str) (pos : option string) : M rng (str * Q) :=
  synonyms <- call (get_wordnet_synonyms (lower word) pos) ;;
  match synonyms with
  | _ :: _ =>
      replacement <- choice synonyms ;;
      up <- first_isupper word ;;
      ret (if up then capitalize replacement else replacement, 6 # 10)
  | [] => ret (word, 0)
  end.

Lemma replace_with_synonym_cases : forall formality word pos,
  replace_with_synonym formality word pos
  = match curated formality word with
    | Some alternatives =>
        replacement <- choice alternatives ;;
        up <- first_isupper word ;;
        ret (if up then capitalize replacement else replacement, 9 # 10)
    | None => wordnet_fallback word pos
    end.
Proof.
  intros formality word pos. unfold replace_with_synonym, curated, wordnet_fallback.
  destruct (str_dict_get (lower word) SYNONYM_GROUPS) as [group|]; [|reflexivity].
  destruct (dict_get formality group); reflexivity.
Qed.

(** A choice, then the capital: it returns for a word that is not empty. *)
Lemma choose_and_capitalise : forall (seq : list str) (word : str) (conf : Q) g,
  seq <> [] -> word <> [] ->
  exists a,
    In a seq /\
    (replacement <- choice seq ;;
     up <- first_isupper word ;;
     ret (if up then capitalize replacement else replacement, conf)) g
    = (inr (keep_capital word a, conf),
       snd (rng_randbelow (length seq) g)).
Proof.
  intros seq word conf g Hs Hw.
  destruct (@choice_In G _ seq g Hs) as [a [Ha [Hin Hg]]].
  exists a. split; [exact Hin|]. unfold bind at 1.
  destruct (choice seq g) as [r g1]. cbn [fst snd] in *. subst r g1.
  destruct word as [|c word']; [congruence|]. reflexivity.
Qed.

(** What [replace_with_synonym] returns for a word that is not empty: a
    curated alternative at confidence 0.9; or, when the curated table has
    nothing for the word at this formality, a WordNet synonym at 0.6; or the
    word itself at 0.0 when WordNet has none. It raises only when WordNet
    does. *)
Lemma replace_with_synonym_result : forall formality word pos g,
  word <> [] ->
  (exists alternatives a,
     curated formality word = Some alternatives /\ In a alternatives /\
     replace_with_synonym formality word pos g
     = (inr (keep_capital word a, 9 # 10),
        snd (rng_randbelow (length alternatives) g)))
  \/ (exists synonyms a,
     curated formality word = None /\
     get_wordnet_synonyms (lower word) pos = inr synonyms /\ In a synonyms /\
     replace_with_synonym formality word pos g
     = (inr (keep_capital word a, 6 # 10),
        snd (rng_randbelow (length synonyms) g)))
  \/ (curated formality word = None /\
      get_wordnet_synonyms (lower word) pos = inr [] /\
      replace_with_synonym formality word pos g = (inr (word, 0), g))
  \/ (exists e,
      curated formality word = None /\
      get_wordnet_synonyms (lower word) pos = inl e /\
      replace_with_synonym formality word pos g = (inl e, g)).
Proof.
  intros formality word pos g Hw. rewrite replace_with_synonym_cases.
  destruct (curated formality word) as [alts|] eqn:Ec.
  - left. destruct (choose_and_capitalise (9 # 10) g (curated_not_empty _ _ Ec) Hw)
      as [a [Hin E]].
    exists alts, a. repeat split; assumption.
  - right. unfold wordnet_fallback, bind at 1, call.
    destruct (get_wordnet_synonyms (lower word) pos) as [e|syns] eqn:Es.
    + right. right. exists e. repeat split.
    + destruct syns as [|s0 syns0] eqn:El.
      * right. left. repeat split.
      * left. rewrite <- El.
        destruct (@choose_and_capitalise syns word (6 # 10) g) as [a [Hin E]];
          [rewrite El; discriminate | exact Hw |].
        exists syns, a. repeat split; assumption.
Qed.

End WithCollaborators.
End ContentWords.


Module ContentWordClaims.
Import SemanticReplacer ContentWords.

Section WithCollaborators.
Context {G : PyRandom} {U : PyUnicode} {P : NLPModel} {W : WordNetCorpus}.

Lemma content_word_not_empty : forall token,
  content_word token = true -> Spacy.text token <> [].
Proof.
  intros token H. unfold content_word in H. apply andb_true_iff in H.
  destruct H as [_ H]. apply Nat.ltb_lt in H.
  intros E. rewrite E in H. cbn in H. lia.
Qed.

(** The word emitted for a content word, by the draw. *)
Lemma replace_token_content : forall formality intensity token g r g1,
  content_word token = true ->
  rng_random g = (r, g1) ->
  replace_token formality intensity token g
  = if Qlt_bool r intensity then
      match replace_with_synonym formality (Spacy.text token)
              (dict_get (Spacy.pos_ token) pos_map) g1 with
      | (inr (replacement, conf), g2) =>
          (inr (if Qlt_bool (5 # 10) conf then replacement
                else Spacy.text token), g2)
      | (inl e, g2) => (inl e, g2)
      end
    else (inr (Spacy.text token), g1).
Proof.
  intros formality intensity token g r g1 Hc Er.
  unfold replace_token. rewrite Hc. unfold bind at 1, random. rewrite Er.
  destruct (Qlt_bool r intensity); [|reflexivity].
  unfold bind.
  destruct (replace_with_synonym formality (Spacy.text token)
              (dict_get (Spacy.pos_ token) pos_map) g1) as [[e|[rep conf]] g2];
    [reflexivity|].
  destruct (Qlt_bool (5 # 10) conf); reflexivity.
Qed.

(** The claim's words for the capital of a word: it starts with an
    upper-case letter. *)
Definition initial_capital (s : str) : bool :=
  match s with
  | c :: _ => isupper c
  | [] => false
  end.

End WithCollaborators.

(** A WordNet whose lemma names for an adjective are capitalised, as the
    names of WordNet are for words derived from proper nouns. *)
Definition gallic_wordnet : WordNetCorpus :=
  Scripted.scripted_wordnet [(u "french", [[u "French"; u "Gallic"]])].

(** The claim as the specification words it fails twice.

    At every intensity in (0, 1] the eligible tokens would go through the
    trial. At intensity 0.2 the code does not look at any token: with a
    generator whose first draw is below 0.2, ["We improve results"] comes
    back as it is and the generator is untouched, where the trial would have
    written ["We enhance results"].

    And the replacement would keep the initial capitalization of the token.
    The code has the upper-case branch only ([if word[0].isupper():
    replacement = replacement.capitalize()]): for the lower-case token
    ["french"], where WordNet lists ["French"] and ["Gallic"], it writes
    ["Gallic"], with a capital that the token does not have. *)
Lemma low_intensity_skips_and_capital_is_not_kept :
  ~ (forall (intensity : Q) (formality : string) (text : str)
            (g : rng (PyRandom := LCG.lcg)),
       0 < intensity /\ intensity <= 1 ->
       replace_semantics (G := LCG.lcg) (U := ascii_tables)
         (P := Scripted.small_parser) (W := Scripted.small_wordnet)
         formality text intensity g
       = ('(modified, _) <- replace_discourse_markers text ;;
          '(modified, _) <- replace_phrases modified ;;
          replace_content_words (G := LCG.lcg) (U := ascii_tables)
            (P := Scripted.small_parser) (W := Scripted.small_wordnet)
            formality intensity modified) g)
  /\
  ~ (forall (token : Spacy.Token) (g : rng (PyRandom := LCG.lcg)) (w : str)
            (g' : rng (PyRandom := LCG.lcg)),
       content_word token = true ->
       replace_token (G := LCG.lcg) (U := ascii_tables) (W := gallic_wordnet)
         "formal" 1 token g = (inr w, g') ->
       initial_capital (U := ascii_tables) w
       = initial_capital (U := ascii_tables) (Spacy.text token)).
Proof.
  split.
  - intro H.
    specialize (H (1 # 5) "formal"%string (u "We improve results") (rng_seed 6%Z)).
    assert (0 < 1 # 5 /\ 1 # 5 <= 1) as Hr
      by (split; [reflexivity | discriminate]).
    specialize (H Hr). vm_compute in H. discriminate H.
  - intro H.
    assert (replace_token (G := LCG.lcg) (U := ascii_tables)
              (W := gallic_wordnet) "formal" 1
              (Scripted.word 0 "french" "" "ADJ" "JJ" "amod") (rng_seed 1%Z)
            = (inr (u "Gallic"),
               snd (replace_token (G := LCG.lcg) (U := ascii_tables)
                      (W := gallic_wordnet) "formal" 1
                      (Scripted.word 0 "french" "" "ADJ" "JJ" "amod")
                      (rng_seed 1%Z)))) as E by (vm_compute; reflexivity).
    specialize (H (Scripted.word 0 "french" "" "ADJ" "JJ" "amod") _ _ _
                  eq_refl E).
    vm_compute in H. discriminate H.
Qed.

(** The two sides of that counterexample, evaluated. *)
Example low_intensity_evaluated :
  replace_semantics (G := LCG.lcg) (U := ascii_tables)
    (P := Scripted.small_parser) (W := Scripted.small_wordnet)
    "formal" (u "We improve results") (1 # 5) (rng_seed 6%Z)
  = (inr (u "We improve results"), rng_seed 6%Z)
  /\ fst (replace_content_words (G := LCG.lcg) (U := ascii_tables)
            (P := Scripted.small_parser) (W := Scripted.small_wordnet)
            "formal" (1 # 5) (u "We improve results") (rng_seed 6%Z))
     = inr (u "We enhance results").
Proof. split; vm_compute; reflexivity. Qed.

(** The lower-case token, evaluated: the fallback accepts ["Gallic"] at
    confidence 0.6. *)
Example lower_case_token_evaluated :
  fst (replace_with_synonym (G := LCG.lcg) (U := ascii_tables)
         (W := gallic_wordnet) "formal" (u "french") (Some "a"%string)
         (rng_seed 1%Z))
  = inr (u "Gallic", 6 # 10)
  /\ fst (replace_token (G := LCG.lcg) (U := ascii_tables)
            (W := gallic_wordnet) "formal" 1
            (Scripted.word 0 "french" "" "ADJ" "JJ" "amod") (rng_seed 1%Z))
     = inr (u "Gallic").
Proof. split; vm_compute; reflexivity. Qed.

End ContentWordClaims.

(* ================================================================== *)
(** * Sentence-length balancing *)
(* ================================================================== *)

Module Balancing.
Import SyntaxRestructurer.

Definition COMMA : char := 44%N.

Section WithTables.
Context {G : PyRandom} {U : PyUnicode}.

(** The greedy pass, in the words of the specification. [second] is what the
    merge makes of the second sentence. From left to right: a sentence of
    more than 30 words with a comma becomes the part before its first comma,
    with a period, and the part after it; two consecutive sentences of fewer
    than 8 words become one, the first without its trailing periods, a
    connector, the second; any other sentence is kept. The scan goes on
    after the sentences consumed, so a short sentence is kept only when no
    short sentence follows it. *)
Inductive Balanced (second : str -> str) : list str -> list str -> Prop :=
| balanced_nil : Balanced second [] []
| balanced_split : forall sent rest out before after,
    long_with_comma sent = true ->
    sent = before ++ COMMA :: after -> ~ In COMMA before ->
    Balanced second rest out ->
    Balanced second (sent :: rest)
      ((strip before ++ u ".") :: strip after :: out)
| balanced_merge : forall sent next_sent rest out connector,
    short sent = true -> short next_sent = true ->
    In connector connectors ->
    Balanced second rest out ->
    Balanced second (sent :: next_sent :: rest)
      ((rstrip_chars (u ".") sent ++ u " " ++ connector ++ u " "
        ++ second next_sent) :: out)
| balanced_keep : forall sent rest out,
    long_with_comma sent = false ->
    (short sent = true ->
     match rest with
     | [] => True
     | next_sent :: _ => short next_sent = false
     end) ->
    Balanced second rest out ->
    Balanced second (sent :: rest) (sent :: out).


Lemma split_once_comma : forall sent,
  contains (u ",") sent = true ->
  exists before after,
    split_once COMMA sent = [before; after] /\
    sent = before ++ COMMA :: after /\ ~ In COMMA before.
Proof.
  induction sent as [|c sent IH]; intro H; [discriminate|].
  cbn [split_once]. destruct (char_eqb c COMMA) eqn:Ec.
  - apply N.eqb_eq in Ec. subst c. exists [], sent.
    split; [reflexivity|]. split; [reflexivity | intros []].
  - assert (contains (u ",") sent = true) as H'.
    { cbn [contains] in H. apply orb_true_iff in H. destruct H as [H|H]; [|exact H].
      cbn [u list_ascii_of_string map startswith] in H.
      apply andb_true_iff in H. destruct H as [H _].
      unfold char_eqb in *. rewrite N.eqb_sym in H.
      change (N_of_ascii ",") with COMMA in H. congruence. }
    destruct (IH H') as [before [after [E [Es Hn]]]].
    rewrite E. exists (c :: before), after.
    split; [reflexivity|]. split; [cbn [app]; congruence|].
    intros [Hc|Hc]; [|exact (Hn Hc)].
    subst c. unfold char_eqb in Ec. rewrite N.eqb_refl in Ec. discriminate.
Qed.

Lemma short_not_long : forall sent,
  short sent = true -> long_with_comma sent = false.
Proof.
  intros sent H. unfold short in H. unfold long_with_comma.
  apply Nat.ltb_lt in H.
  destruct (Nat.ltb 30 (length (split sent))) eqn:E; [|reflexivity].
  apply Nat.ltb_lt in E. lia.
Qed.

(** The loop returns, and what it appends is the balanced image of the
    sentences it was given. *)
Lemma vary_loop_balanced : forall n sentences,
  (length sentences <= n)%nat ->
  forall result g,
  exists out g',
    vary_loop sentences result g = (inr (result ++ out), g') /\
    Balanced lower sentences out.
Proof.
  induction n as [|n IH]; intros sentences Hlen result g.
  - destruct sentences; [|cbn in Hlen; lia].
    exists [], g. rewrite app_nil_r. split; [reflexivity | constructor].
  - destruct sentences as [|sent rest].
    { exists [], g. rewrite app_nil_r. split; [reflexivity | constructor]. }
    cbn [length] in Hlen.
    assert (exists out g',
              match rest with
              | next_sent :: rest' =>
                  if short sent && short next_sent then
                    connector <- choice connectors ;;
                    vary_loop rest' (result ++ [combine sent connector next_sent])
                  else vary_loop rest (result ++ [sent])
              | [] => vary_loop rest (result ++ [sent])
              end g = (inr (result ++ out), g') /\
              (long_with_comma sent = false -> Balanced lower (sent :: rest) out))
      as Hck.
    { destruct rest as [|next_sent rest'].
      - exists [sent], g. split; [reflexivity|].
        intro Hl. apply balanced_keep; [exact Hl | intros _; exact I | constructor].
      - destruct (short sent && short next_sent) eqn:Es.
        + apply andb_true_iff in Es. destruct Es as [Es1 Es2].
          destruct (@choice_In G _ connectors g) as [c [Hc [Hin _]]];
            [discriminate|].
          unfold bind. destruct (choice connectors g) as [r g1].
          cbn [fst] in Hc. subst r.
          destruct (IH rest' ltac:(cbn [length] in Hlen; lia)
                       (result ++ [combine sent c next_sent]) g1)
            as [out [g' [E B]]].
          exists (combine sent c next_sent :: out), g'. split.
          * rewrite E. rewrite <- app_assoc. reflexivity.
          * intros _. apply balanced_merge; assumption.
        + destruct (IH (next_sent :: rest') ltac:(lia) (result ++ [sent]) g)
            as [out [g' [E B]]].
          exists (sent :: out), g'. split.
          * rewrite E. rewrite <- app_assoc. reflexivity.
          * intro Hl. apply balanced_keep; [exact Hl | | exact B].
            intro Hs. rewrite Hs in Es. cbn [andb] in Es. exact Es. }
    cbn [vary_loop].
    destruct (long_with_comma sent) eqn:El.
    + assert (contains (u ",") sent = true) as Hc.
      { unfold long_with_comma in El. apply andb_true_iff in El. apply El. }
      destruct (split_once_comma sent Hc) as [before [after [E [Es Hn]]]].
      change 44%N with COMMA. rewrite E.
      destruct (IH rest ltac:(lia) (result ++ [strip before ++ u "."; strip after]) g)
        as [out [g' [E' B]]].
      exists ((strip before ++ u ".") :: strip after :: out), g'. split.
      * rewrite E'. rewrite <- app_assoc. reflexivity.
      * apply balanced_split; assumption.
    + destruct Hck as [out [g' [E B]]]. exists out, g'.
      split; [exact E | apply B; reflexivity].
Qed.

End WithTables.
End Balancing.

Module BalancingClaims.
Import SyntaxRestructurer Balancing.

Section WithTables.
Context {G : PyRandom} {U : PyUnicode}.


End WithTables.


(** That input, evaluated. *)
Example merge_evaluated :
  fst (vary_sentence_complexity (G := LCG.lcg) (U := ascii_tables)
         [u "We met."; u "I like Paris."] (rng_seed 4%Z))
  = inr ([u "We met as i like paris."], 5 # 10).
Proof. vm_compute. reflexivity. Qed.

End BalancingClaims.

(* ================================================================== *)
(** * The orchestrator: stages, gates, rollback *)
(* ================================================================== *)

Module Orchestrator.
Import HumanizationPipeline.

Section WithCollaborators.
Context {G : PyRandom} {U : PyUnicode} {P : NLPModel} {W : WordNetCorpus}
        {O : QualityServices} {FP : PyFloat}.

(** The configuration of two states of the object is the same. *)
Definition same_config (a b : obj) : Prop :=
  intensity a = intensity b /\ enable_unicode a = enable_unicode b /\
  enable_syntax a = enable_syntax b /\ enable_semantics a = enable_semantics b /\
  formality a = formality b /\ quality_threshold a = quality_threshold b.

(** A method keeps the configuration. *)
Definition keeps_config {A} (m : M obj A) : Prop :=
  forall self, same_config self (snd (m self)).

Lemma same_config_refl : forall a, same_config a a.
Proof. intro a. repeat split. Qed.

Lemma same_config_trans : forall a b c,
  same_config a b -> same_config b c -> same_config a c.
Proof.
  unfold same_config. intros a b c H1 H2.
  destruct H1 as [? [? [? [? [? ?]]]]]. destruct H2 as [? [? [? [? [? ?]]]]].
  repeat split; congruence.
Qed.

Lemma keeps_ret : forall A (a : A), keeps_config (ret a).
Proof. intros A a self. apply same_config_refl. Qed.

Lemma keeps_call : forall A (r : PyExn + A), keeps_config (call r).
Proof. intros A r self. apply same_config_refl. Qed.

Lemma keeps_bind : forall A B (m : M obj A) (k : A -> M obj B),
  keeps_config m -> (forall a, keeps_config (k a)) -> keeps_config (bind m k).
Proof.
  intros A B m k Hm Hk self. unfold bind. specialize (Hm self).
  destruct (m self) as [[e|a] s1]; cbn [snd] in *; [exact Hm|].
  eapply same_config_trans; [exact Hm | apply Hk].
Qed.

Lemma keeps_try : forall A (m : M obj A) (h : PyExn -> M obj A),
  keeps_config m -> (forall e, keeps_config (h e)) -> keeps_config (try_except m h).
Proof.
  intros A m h Hm Hh self. unfold try_except. specialize (Hm self).
  destruct (m self) as [[e|a] s1]; cbn [snd] in *; [|exact Hm].
  eapply same_config_trans; [exact Hm | apply Hh].
Qed.

Lemma keeps_on_syntax : forall A (m : M rng A), keeps_config (on_syntax m).
Proof.
  intros A m self. unfold on_syntax. destruct (m (syntax_random self)).
  repeat split.
Qed.

Lemma keeps_on_semantics : forall A (m : M rng A), keeps_config (on_semantics m).
Proof.
  intros A m self. unfold on_semantics. destruct (m (semantic_random self)).
  repeat split.
Qed.

Lemma keeps_on_space : forall A (m : M SpaceManipulator.obj A),
  keeps_config (on_space m).
Proof.
  intros A m self. unfold on_space. destruct (m (space_manipulator self)).
  repeat split.
Qed.

(** A stage with a gate, in the words of the specification: if enabled, run
    the transform on the current text and score the candidate against the
    original; accept it (advance the current text, record the name) when the
    similarity is at least the threshold; otherwise, and when the transform
    or the scoring fails, keep the current text and the list. *)
Definition gated_stage (enabled : obj -> bool) (transform : obj -> str -> M obj str)
    (name : string) (original_text : str) (p : Progress) : M obj Progress :=
  fun self =>
    if enabled self then
      try_except
        (candidate <- transform self (fst p) ;;
         similarity <- call (Analyzers.calculate_similarity original_text
                               candidate) ;;
         if Qle_bool (quality_threshold self) similarity
         then ret (candidate, snd p ++ [name])
         else ret p)
        (fun _ => ret p) self
    else (inr p, self).

(** A stage without a gate: if enabled, the candidate is accepted as soon as
    the transform returns. *)
Definition ungated_stage (enabled : obj -> bool)
    (transform : obj -> str -> M obj str) (name : string) (p : Progress)
  : M obj Progress :=
  fun self =>
    if enabled self then
      try_except
        (candidate <- transform self (fst p) ;;
         ret (candidate, snd p ++ [name]))
        (fun _ => ret p) self
    else (inr p, self).

Definition syntax_transform (self : obj) (current_text : str) : M obj str :=
  on_syntax (SyntaxRestructurer.restructure current_text true true true).

Definition semantics_transform (self : obj) (current_text : str) : M obj str :=
  on_semantics (SemanticReplacer.replace_semantics (formality self)
                  current_text (intensity self)).

Definition unicode_transform (self : obj) (current_text : str) : M obj str :=
  on_space (SpaceManipulator.replace_spaces current_text true).

(** The stages as the specification describes them: three gated stages. *)
Definition stages_as_specified (text : str) : M obj Progress :=
  p <- gated_stage enable_syntax syntax_transform "syntax_restructuring"
         text (text, []) ;;
  p <- gated_stage enable_semantics semantics_transform "semantic_replacement"
         text p ;;
  gated_stage enable_unicode unicode_transform "unicode_manipulation" text p.

(** A gated stage returns; it either leaves the progress as it was, or it
    has a candidate whose similarity to the original reaches the threshold,
    and then the candidate is the current text and the name is recorded. *)
Lemma gated_stage_spec :
  forall enabled transform name original_text (p : Progress) self,
  exists p' self',
    gated_stage enabled transform name original_text p self = (inr p', self') /\
    (p' = p \/
     exists candidate similarity,
       enabled self = true /\
       fst (transform self (fst p) self) = inr candidate /\
       Analyzers.calculate_similarity original_text candidate = inr similarity /\
       quality_threshold self <= similarity /\
       p' = (candidate, snd p ++ [name])).
Proof.
  intros enabled transform name original p self. unfold gated_stage.
  destruct (enabled self) eqn:En; [|exists p, self; split; [reflexivity | left; reflexivity]].
  unfold try_except, bind, call, ret.
  destruct (transform self (fst p) self) as [[e|candidate] s1] eqn:Et.
  - exists p, s1. split; [reflexivity | left; reflexivity].
  - destruct (Analyzers.calculate_similarity original candidate) as [e|sim] eqn:Es.
    + exists p, s1. split; [reflexivity | left; reflexivity].
    + destruct (Qle_bool (quality_threshold self) sim) eqn:Eq.
      * exists (candidate, snd p ++ [name]), s1. split; [reflexivity|].
        right. exists candidate, sim.
        split; [reflexivity|]. split; [reflexivity|]. split; [exact Es|].
        split; [apply Qle_bool_iff; exact Eq | reflexivity].
      * exists p, s1. split; [reflexivity | left; reflexivity].
Qed.

(** A gated stage accepts exactly when the candidate passes: with a
    candidate below the threshold the progress is unchanged. *)
Lemma gated_stage_rejects :
  forall enabled transform name original_text (p : Progress) self candidate
         similarity s1,
  transform self (fst p) self = (inr candidate, s1) ->
  Analyzers.calculate_similarity original_text candidate = inr similarity ->
  ~ quality_threshold self <= similarity ->
  gated_stage enabled transform name original_text p self
  = (inr p, if enabled self then s1 else self).
Proof.
  intros enabled transform name original p self candidate sim s1 Et Es Hn.
  unfold gated_stage. destruct (enabled self); [|reflexivity].
  unfold try_except, bind, call, ret. rewrite Et, Es.
  destruct (Qle_bool (quality_threshold self) sim) eqn:Eq; [|reflexivity].
  apply Qle_bool_iff in Eq. contradiction.
Qed.

(** And with a candidate that reaches the threshold it is advanced. *)
Lemma gated_stage_accepts :
  forall enabled transform name original_text (p : Progress) self candidate
         similarity s1,
  enabled self = true ->
  transform self (fst p) self = (inr candidate, s1) ->
  Analyzers.calculate_similarity original_text candidate = inr similarity ->
  quality_threshold self <= similarity ->
  gated_stage enabled transform name original_text p self
  = (inr (candidate, snd p ++ [name]), s1).
Proof.
  intros enabled transform name original p self candidate sim s1 En Et Es Hle.
  unfold gated_stage. rewrite En.
  unfold try_except, bind, call, ret. rewrite Et, Es.
  apply Qle_bool_iff in Hle. rewrite Hle. reflexivity.
Qed.

(** An ungated stage accepts whatever the transform returns. *)
Lemma ungated_stage_accepts :
  forall enabled transform name (p : Progress) self candidate s1,
  enabled self = true ->
  transform self (fst p) self = (inr candidate, s1) ->
  ungated_stage enabled transform name p self
  = (inr (candidate, snd p ++ [name]), s1).
Proof.
  intros enabled transform name p self candidate s1 En Et.
  unfold ungated_stage. rewrite En. unfold try_except, bind, ret.
  rewrite Et. reflexivity.
Qed.

Lemma step_syntax_gated : forall text p self,
  step_syntax text p self
  = gated_stage enable_syntax syntax_transform "syntax_restructuring" text p self.
Proof.
  intros text [current applied] self.
  unfold step_syntax, gated_stage, syntax_transform. cbn [fst snd].
  destruct (enable_syntax self); reflexivity.
Qed.

Lemma step_semantics_gated : forall text p self,
  step_semantics text p self
  = gated_stage enable_semantics semantics_transform "semantic_replacement"
      text p self.
Proof.
  intros text [current applied] self.
  unfold step_semantics, gated_stage, semantics_transform. cbn [fst snd].
  destruct (enable_semantics self); reflexivity.
Qed.

Lemma step_unicode_ungated : forall p self,
  step_unicode p self
  = ungated_stage enable_unicode unicode_transform "unicode_manipulation" p self.
Proof.
  intros [current applied] self.
  unfold step_unicode, ungated_stage, unicode_transform. cbn [fst snd].
  destruct (enable_unicode self); reflexivity.
Qed.

Lemma run_stages_keeps_config : forall text, keeps_config (run_stages text).
Proof.
  intro text. unfold run_stages.
  apply keeps_bind; [|intro p1; apply keeps_bind; [|intro p2]].
  - intro self. rewrite step_syntax_gated. unfold gated_stage.
    destruct (enable_syntax self); [|apply same_config_refl].
    apply keeps_try; [|intro; apply keeps_ret].
    apply keeps_bind; [apply keeps_on_syntax|]. intro c.
    apply keeps_bind; [apply keeps_call|]. intro s.
    destruct (Qle_bool (quality_threshold self) s); apply keeps_ret.
  - intro self. rewrite step_semantics_gated. unfold gated_stage.
    destruct (enable_semantics self); [|apply same_config_refl].
    apply keeps_try; [|intro; apply keeps_ret].
    apply keeps_bind; [apply keeps_on_semantics|]. intro c.
    apply keeps_bind; [apply keeps_call|]. intro s.
    destruct (Qle_bool (quality_threshold self) s); apply keeps_ret.
  - intro self. rewrite step_unicode_ungated. unfold ungated_stage.
    destruct (enable_unicode self); [|apply same_config_refl].
    apply keeps_try; [|intro; apply keeps_ret].
    apply keeps_bind; [apply keeps_on_space|]. intro c. apply keeps_ret.
Qed.

End WithCollaborators.
End Orchestrator.


Module PipelineClaims.
Import HumanizationPipeline Orchestrator.

Section WithCollaborators.
Context {G : PyRandom} {U : PyUnicode} {P : NLPModel} {W : WordNetCorpus}
        {O : QualityServices} {FP : PyFloat}.

(** What a gated stage may make of the progress [p], given the answer [ran]
    of its transform on the current text: it is unchanged; or the stage is
    enabled, the transform returned a candidate whose similarity to the
    original reaches the threshold, the candidate is the current text and
    the name is appended. A candidate below the threshold is discarded, and
    a candidate of an enabled stage that reaches it is accepted. *)
Definition gate_outcome (enabled : bool) (threshold : Q) (original_text : str)
    (ran : PyExn + str) (name : string) (p p' : Progress) : Prop :=
  (p' = p \/
   (enabled = true /\
    exists candidate similarity,
      ran = inr candidate /\
      Analyzers.calculate_similarity original_text candidate = inr similarity /\
      threshold <= similarity /\
      p' = (candidate, snd p ++ [name]))) /\
  (forall candidate similarity,
     ran = inr candidate ->
     Analyzers.calculate_similarity original_text candidate = inr similarity ->
     ~ threshold <= similarity -> p' = p) /\
  (enabled = true ->
   forall candidate similarity,
     ran = inr candidate ->
     Analyzers.calculate_similarity original_text candidate = inr similarity ->
     threshold <= similarity -> p' = (candidate, snd p ++ [name])).

(** What a stage without a gate makes of the progress: when it is enabled
    and its transform returns, the candidate is the current text and the
    name is appended, whatever its similarity; it is unchanged when the
    stage is disabled or its transform raises. *)
Definition free_outcome (enabled : bool) (ran : PyExn + str) (name : string)
    (p p' : Progress) : Prop :=
  (enabled = false -> p' = p) /\
  (forall e, ran = inl e -> p' = p) /\
  (enabled = true -> forall candidate,
     ran = inr candidate -> p' = (candidate, snd p ++ [name])).

Lemma gated_stage_outcome :
  forall enabled transform name original_text (p : Progress) self,
  exists p' self',
    gated_stage enabled transform name original_text p self = (inr p', self') /\
    gate_outcome (enabled self) (quality_threshold self) original_text
      (fst (transform self (fst p) self)) name p p'.
Proof.
  intros enabled transform name original p self.
  destruct (gated_stage_spec enabled transform name original p self)
    as [p' [self' [E H]]].
  exists p', self'. split; [exact E|]. split.
  - destruct H as [H|[c [sim [H1 [H2 [H3 [H4 H5]]]]]]]; [left; exact H|].
    right. split; [exact H1|]. exists c, sim. repeat split; assumption.
  - split.
    + intros c sim Hc Hs Hn.
      destruct (transform self (fst p) self) as [r s1] eqn:Et. cbn [fst] in Hc.
      subst r.
      rewrite (gated_stage_rejects enabled transform name original p self Et Hs Hn)
        in E.
      inversion E. reflexivity.
    + intros En c sim Hc Hs Hle.
      destruct (transform self (fst p) self) as [r s1] eqn:Et. cbn [fst] in Hc.
      subst r.
      rewrite (gated_stage_accepts enabled transform name original p self En Et
                 Hs Hle) in E.
      inversion E. reflexivity.
Qed.

Lemma ungated_stage_outcome :
  forall enabled transform name (p : Progress) self,
  exists p' self',
    ungated_stage enabled transform name p self = (inr p', self') /\
    free_outcome (enabled self) (fst (transform self (fst p) self)) name p p'.
Proof.
  intros enabled transform name p self. unfold ungated_stage, free_outcome.
  destruct (enabled self).
  - unfold try_except, bind, ret.
    destruct (transform self (fst p) self) as [[e|c] s1]; cbn [fst].
    + exists p, s1. split; [reflexivity|]. split; [discriminate|].
      split; [reflexivity | discriminate].
    + exists (c, snd p ++ [name]), s1. split; [reflexivity|].
      split; [discriminate|]. split; [discriminate|].
      intros _ c' E. inversion E. reflexivity.
  - exists p, self. split; [reflexivity|]. split; [reflexivity|].
    split; [reflexivity | discriminate].
Qed.

(** C1, as the code has it. The stages run in the order Syntax, Lexical,
    Space, each from the progress that the one before has left, and none
    aborts the run. Syntax and Lexical are gated: the candidate becomes the
    current text and the stage's name is recorded only if the similarity
    between the original text and the candidate is at least the threshold;
    otherwise (also when the stage is disabled or fails) the current text
    and the list are unchanged. The Space stage has no gate: when it is
    enabled and returns, its output becomes the current text and its name is
    recorded, whatever its similarity to the original. *)
Theorem stages_in_order_with_gates :
  forall (text : str) (self : obj),
  exists p1 s1 p2 s2 p3 s3,
    step_syntax text (text, []) self = (inr p1, s1) /\
    step_semantics text p1 s1 = (inr p2, s2) /\
    step_unicode p2 s2 = (inr p3, s3) /\
    run_stages text self = (inr p3, s3) /\
    gate_outcome (enable_syntax self) (quality_threshold self) text
      (fst (syntax_transform self text self))
      "syntax_restructuring" (text, []) p1 /\
    gate_outcome (enable_semantics s1) (quality_threshold s1) text
      (fst (semantics_transform s1 (fst p1) s1))
      "semantic_replacement" p1 p2 /\
    free_outcome (enable_unicode s2)
      (fst (unicode_transform s2 (fst p2) s2))
      "unicode_manipulation" p2 p3.
Proof.
  intros text self.
  destruct (gated_stage_outcome enable_syntax syntax_transform
              "syntax_restructuring" text (text, []) self)
    as [p1 [s1 [E1 H1]]].
  destruct (gated_stage_outcome enable_semantics semantics_transform
              "semantic_replacement" text p1 s1) as [p2 [s2 [E2 H2]]].
  destruct (ungated_stage_outcome enable_unicode unicode_transform
              "unicode_manipulation" p2 s2) as [p3 [s3 [E3 H3]]].
  rewrite <- step_syntax_gated in E1. rewrite <- step_semantics_gated in E2.
  rewrite <- step_unicode_ungated in E3.
  exists p1, s1, p2, s2, p3, s3.
  split; [exact E1|]. split; [exact E2|]. split; [exact E3|].
  split; [unfold run_stages, bind; rewrite E1, E2; exact E3|].
  split; [exact H1|]. split; [exact H2 | exact H3].
Qed.

(** C2. Rollback: for a text that is not blank, whatever the stages have
    accepted, if the final gate (similarity between the original and the
    final text at least the threshold, and absolute readability change at
    most 5.0) fails on the metrics of the run, [humanize] returns the
    original text as the humanized text, an empty list of transformations,
    and a failed check. *)
Theorem final_gate_failure_rolls_back :
  forall (text : str) (preserve_formatting : bool) (self : obj)
         (current_text : str) (applied : list string) (self1 : obj)
         (metrics : QualityMetrics) (self2 : obj),
  blank text = false ->
  run_stages text self = (inr (current_text, applied), self1) ->
  _calculate_quality_metrics text current_text self1 = (inr metrics, self2) ->
  final_gate (quality_threshold self) metrics = false ->
  humanize text preserve_formatting self
  = (inr {| original := text; humanized := text;
            transformations_applied := [];
            quality_metrics := Some metrics;
            passed_quality_check := false |}, self2).
Proof.
  intros text pf self current applied self1 m self2 Hb Hs Hm Hg.
  unfold humanize. rewrite Hb. unfold bind. rewrite Hs, Hm.
  assert (quality_threshold self2 = quality_threshold self) as Ht.
  { pose proof (run_stages_keeps_config text self) as K. rewrite Hs in K.
    cbn [snd] in K. destruct K as [_ [_ [_ [_ [_ K]]]]].
    unfold _calculate_quality_metrics, bind, call, ret in Hm.
    destruct (Analyzers.compare_flesch_kincaid text current)
      as [e|[[a b] c]]; [discriminate|].
    destruct (Analyzers.calculate_similarity text current); [discriminate|].
    inversion Hm; subst. symmetry. exact K. }
  rewrite Ht, Hg. reflexivity.
Qed.

(** C6, as the code has it. An intensity outside [0, 1] makes the
    constructor fail (with the error of the Space Codec, or with the error
    of the parser when the model cannot be loaded), and no object is built.
    The quality threshold is not checked: with a valid intensity and a
    loaded parser the object is built and holds the threshold it was given,
    whatever its value. *)
Theorem constructor_checks_intensity_only :
  forall (intensity : Q) (enable_unicode enable_syntax enable_semantics : bool)
         (formality : string) (quality_threshold : Q) (seed : option Z)
         (os_entropy : Z * Z * Z),
  (SpaceManipulator.valid_intensity intensity = false ->
     exists e,
       __init__ intensity enable_unicode enable_syntax enable_semantics
         formality quality_threshold seed os_entropy = inl e) /\
  (SpaceManipulator.valid_intensity intensity = true ->
   spacy_load = inr tt ->
     exists self,
       __init__ intensity enable_unicode enable_syntax enable_semantics
         formality quality_threshold seed os_entropy = inr self /\
       HumanizationPipeline.quality_threshold self = quality_threshold /\
       HumanizationPipeline.intensity self = intensity).
Proof.
  intros i eu es em f t seed e. unfold __init__, SpaceManipulator.__init__.
  split.
  - intro V. rewrite V. destruct spacy_load as [err|[]]; eexists; reflexivity.
  - intros V L. rewrite V, L. eexists. repeat split.
Qed.

End WithCollaborators.
End PipelineClaims.

(** The claims about the orchestrator, evaluated: the lexical and the Space
    stage enabled, intensity 0.3, threshold 0.85, seed 3, with the similarity
    model that scores an ASCII rewriting at 0.9 and anything else at 0.5. *)
Module PipelineRuns.
Import HumanizationPipeline Orchestrator.

Definition however_text : str := u "However, we agree on this point".

Definition lexical_and_space : obj (G := LCG.lcg) :=
  {| intensity := 3 # 10;
     enable_unicode := true;
     enable_syntax := false;
     enable_semantics := true;
     formality := "formal";
     quality_threshold := 85 # 100;
     space_manipulator :=
       {| SpaceManipulator.intensity := 3 # 10;
          SpaceManipulator.random_state := rng_seed 3%Z;
          SpaceManipulator.variants := SpaceManipulator.variants_of_table |};
     syntax_random := rng_seed 3%Z;
     semantic_random := rng_seed 3%Z |}.

Example lexical_and_space_constructed :
  __init__ (G := LCG.lcg) (O := ScriptedServices.ascii_sensitive)
    (3 # 10) true false true "formal" (85 # 100) (Some 3%Z) (0, 0, 0)%Z
  = inr lexical_and_space.
Proof. reflexivity. Qed.

Definition stages_of_run : (PyExn + Progress) * obj (G := LCG.lcg) :=
  Eval vm_compute in
    run_stages (G := LCG.lcg) (U := ascii_tables) (P := Scripted.small_parser)
      (W := Scripted.small_wordnet) (O := ScriptedServices.ascii_sensitive)
      however_text lexical_and_space.

Definition current_of_run : str :=
  Eval vm_compute in
    match fst stages_of_run with
    | inr (current_text, _) => current_text
    | inl _ => []
    end.

Definition metrics_of_run : (PyExn + QualityMetrics) * obj (G := LCG.lcg) :=
  Eval vm_compute in
    _calculate_quality_metrics (O := ScriptedServices.ascii_sensitive)
      however_text current_of_run (snd stages_of_run).

Definition the_metrics : QualityMetrics :=
  Eval vm_compute in
    match fst metrics_of_run with
    | inr m => m
    | inl _ => mk_metrics 0 0 0 0 0 0
    end.

(** Evaluation of the two sides of an equation, leaving its type alone. *)
Ltac evaluate_sides :=
  match goal with
  | |- ?l = ?r =>
      let l' := eval vm_compute in l in
      let r' := eval vm_compute in r in
      change (l' = r')
  end.

(** The run: the lexical stage is accepted ("Yet, we agree on this point",
    similarity 0.9), the Space stage is accepted without a check (three
    spaces replaced), the final similarity is 0.5, and everything is rolled
    back. *)
Lemma final_gate_failure_rolls_back_witness :
  blank however_text = false /\
  run_stages (G := LCG.lcg) (U := ascii_tables) (P := Scripted.small_parser)
    (W := Scripted.small_wordnet) (O := ScriptedServices.ascii_sensitive)
    however_text lexical_and_space
  = (inr (current_of_run,
          ["semantic_replacement"; "unicode_manipulation"]%string),
     snd stages_of_run) /\
  _calculate_quality_metrics (O := ScriptedServices.ascii_sensitive)
    however_text current_of_run (snd stages_of_run)
  = (inr the_metrics, snd metrics_of_run) /\
  final_gate (quality_threshold lexical_and_space) the_metrics = false /\
  humanize (G := LCG.lcg) (U := ascii_tables) (P := Scripted.small_parser)
    (W := Scripted.small_wordnet) (O := ScriptedServices.ascii_sensitive)
    however_text true lexical_and_space
  = (inr {| original := however_text; humanized := however_text;
            transformations_applied := [];
            quality_metrics := Some the_metrics;
            passed_quality_check := false |}, snd metrics_of_run).
Proof.
  assert (blank however_text = false) as Hb by reflexivity.
  assert (run_stages (G := LCG.lcg) (U := ascii_tables)
            (P := Scripted.small_parser) (W := Scripted.small_wordnet)
            (O := ScriptedServices.ascii_sensitive)
            however_text lexical_and_space
          = (inr (current_of_run,
                  ["semantic_replacement"; "unicode_manipulation"]%string),
             snd stages_of_run)) as Hs by (evaluate_sides; reflexivity).
  assert (_calculate_quality_metrics (O := ScriptedServices.ascii_sensitive)
            however_text current_of_run (snd stages_of_run)
          = (inr the_metrics, snd metrics_of_run)) as Hm
    by (evaluate_sides; reflexivity).
  assert (final_gate (quality_threshold lexical_and_space) the_metrics = false)
    as Hg by (vm_compute; reflexivity).
  split; [exact Hb|]. split; [exact Hs|]. split; [exact Hm|].
  split; [exact Hg|].
  exact (@PipelineClaims.final_gate_failure_rolls_back LCG.lcg ascii_tables
           Scripted.small_parser Scripted.small_wordnet
           ScriptedServices.ascii_sensitive ScriptedServices.unrounded
           however_text true lexical_and_space
           current_of_run _ (snd stages_of_run) the_metrics
           (snd metrics_of_run) Hb Hs Hm Hg).
Defined.

(** The claim as the specification words it gates every stage. On this run
    the Space stage's candidate scores 0.5 against the original, below the
    threshold 0.85, and the code still makes it the current text and
    records ["unicode_manipulation"]; three gated stages would have kept
    ["Yet, we agree on this point"] and the list ["semantic_replacement"]. *)
Lemma space_stage_is_not_gated :
  ~ (forall (text : str) (self : obj (G := LCG.lcg)),
       run_stages (G := LCG.lcg) (U := ascii_tables)
         (P := Scripted.small_parser) (W := Scripted.small_wordnet)
         (O := ScriptedServices.ascii_sensitive) text self
       = stages_as_specified (G := LCG.lcg) (U := ascii_tables)
           (P := Scripted.small_parser) (W := Scripted.small_wordnet)
           (O := ScriptedServices.ascii_sensitive) text self).
Proof.
  intro H. specialize (H however_text lexical_and_space).
  apply (f_equal fst) in H. vm_compute in H. discriminate H.
Qed.

(** Both sides of that counterexample. *)
Example space_stage_evaluated :
  fst stages_of_run
  = inr (u "Yet, we" ++ [8203%N] ++ u "agree" ++ [8199%N] ++ u "on this"
         ++ [8239%N] ++ u "point",
         ["semantic_replacement"; "unicode_manipulation"]%string)
  /\ fst (stages_as_specified (G := LCG.lcg) (U := ascii_tables)
            (P := Scripted.small_parser) (W := Scripted.small_wordnet)
            (O := ScriptedServices.ascii_sensitive)
            however_text lexical_and_space)
     = inr (u "Yet, we agree on this point", ["semantic_replacement"%string]).
Proof. split; vm_compute; reflexivity. Qed.

(** The claim as the specification words it rejects a threshold outside
    [0, 1] at construction. With intensity 0.5 and threshold 1.5 the
    constructor returns an object. *)
Lemma threshold_is_not_validated :
  ~ (forall (intensity quality_threshold : Q),
       ~ (0 <= intensity /\ intensity <= 1) \/
       ~ (0 <= quality_threshold /\ quality_threshold <= 1) ->
       exists e,
         __init__ (G := LCG.lcg) (O := ScriptedServices.ascii_sensitive)
           intensity true true true "formal" quality_threshold (Some 42%Z)
           (0, 0, 0)%Z = inl e).
Proof.
  intro H. destruct (H (1 # 2) (3 # 2)) as [e He].
  - right. intros [_ Hle]. apply Hle. reflexivity.
  - unfold __init__, SpaceManipulator.__init__ in He. cbn in He.
    discriminate He.
Qed.

(** Construction, evaluated: intensity 1.5 raises the [ValueError] of the
    Space Codec; threshold 1.5 is stored. *)
Example construction_evaluated :
  __init__ (G := LCG.lcg) (O := ScriptedServices.ascii_sensitive)
    (3 # 2) true true true "formal" (85 # 100) (Some 42%Z) (0, 0, 0)%Z
  = inl (ValueError "Intensity must be between 0.0 and 1.0")
  /\ exists self,
       __init__ (G := LCG.lcg) (O := ScriptedServices.ascii_sensitive)
         (1 # 2) true true true "formal" (3 # 2) (Some 42%Z) (0, 0, 0)%Z
       = inr self /\ quality_threshold self = 3 # 2.
Proof. split; [reflexivity | eexists; split; reflexivity]. Qed.

End PipelineRuns.

(* ================================================================== *)
(** * The Space Codec: distribution, statistics, second passes *)
(* ================================================================== *)

Module SpaceStatistics.
Import SpaceManipulator SpaceCodec.

(** One of the nine characters of [SPACE_VARIANTS]. *)
Definition table_space (c : char) : bool :=
  existsb (fun kv : string * str => str_eqb [c] (snd kv)) SPACE_VARIANTS.

(** [sum(distribution.values())]. *)
Definition total (distribution : list (string * nat)) : nat :=
  list_sum (map snd distribution).

Lemma one_name_per_character : forall c,
  list_sum (map (fun kv : string * str => if str_eqb [c] (snd kv) then 1 else 0)%nat
                SPACE_VARIANTS)
  = if table_space c then 1%nat else 0%nat.
Proof.
  intro c. unfold table_space, SPACE_VARIANTS.
  cbn [map existsb snd str_eqb list_sum fold_right]. unfold char_eqb.
  repeat match goal with
         | |- context [N.eqb c ?k] =>
             destruct (N.eqb_spec c k) as [->|]; [reflexivity|]
         end.
  reflexivity.
Qed.

Lemma list_sum_pointwise : forall (A : Type) (f g : A -> nat) (l : list A),
  list_sum (map (fun x => f x + g x)%nat l)
  = (list_sum (map f l) + list_sum (map g l))%nat.
Proof.
  intros A f g. induction l as [|x l IH]; [reflexivity|].
  cbn [map list_sum fold_right] in *. unfold list_sum in *. lia.
Qed.

(** The counts of [analyze_distribution] add up to the number of characters
    of the text that are in the table. *)
Lemma distribution_total : forall text : str,
  total (analyze_distribution text) = length (filter table_space text).
Proof.
  unfold total, analyze_distribution. induction text as [|c text IH].
  - cbn [filter length]. rewrite map_map. cbn [snd filter length].
    induction SPACE_VARIANTS as [|kv t IHt]; [reflexivity | exact IHt].
  - rewrite map_map in *. cbn [snd] in *.
    transitivity
      (list_sum (map (fun kv : string * str =>
                        (if str_eqb [c] (snd kv) then 1 else 0)
                        + length (filter (fun c0 => str_eqb [c0] (snd kv)) text))%nat
                     SPACE_VARIANTS)).
    + f_equal. apply map_ext. intro kv. cbn [filter].
      destruct (str_eqb [c] (snd kv)); reflexivity.
    + rewrite list_sum_pointwise, IH, one_name_per_character.
      cbn [filter]. destruct (table_space c); reflexivity.
Qed.

Lemma standard_entry : forall text : str,
  dict_get "standard" (analyze_distribution text) = Some (count SPACE text).
Proof.
  intro text. unfold analyze_distribution, SPACE_VARIANTS, count.
  cbn [map dict_get fst snd String.eqb Ascii.eqb Bool.eqb]. do 2 f_equal.
  apply filter_ext. intro c. cbn [str_eqb]. unfold char_eqb.
  rewrite andb_true_r. apply N.eqb_sym.
Qed.

Lemma count_le_table : forall text : str,
  (count SPACE text <= length (filter table_space text))%nat.
Proof.
  unfold count. induction text as [|c text IH]; [reflexivity|].
  cbn [filter]. destruct (char_eqb SPACE c) eqn:E.
  - apply N.eqb_eq in E. subst c.
    change (table_space SPACE) with true. cbn [length]. lia.
  - destruct (table_space c); cbn [length]; lia.
Qed.

Section WithGenerator.
Context {G : PyRandom}.

Lemma written_keeps_kind : forall self text pb ic c',
  built self -> written self text pb ic c' ->
  table_space c' = table_space (snd ic).
Proof.
  intros self text pb [i c] c' Hb [W0 W1]. cbn [fst snd] in *.
  destruct (draw_site text pb i c) eqn:Ed.
  - assert (c = SPACE) as ->.
    { unfold draw_site in Ed. apply andb_true_iff in Ed. destruct Ed as [Ed _].
      apply N.eqb_eq. exact Ed. }
    destruct (W1 eq_refl) as [[->|Hin] _]; [reflexivity|].
    cbn in Hin.
    repeat (destruct Hin as [<-|Hin]; [reflexivity|]). contradiction.
  - rewrite (W0 eq_refl). reflexivity.
Qed.

Lemma written_keeps_total : forall self text pb,
  built self ->
  forall (items : list (nat * N)) (out : str),
  Forall2 (written self text pb) items out ->
  length (filter table_space out)
  = length (filter table_space (map snd items)).
Proof.
  intros self text pb Hb items out F.
  induction F as [|ic c' items out W _ IH]; [reflexivity|].
  cbn [map filter]. rewrite (written_keeps_kind Hb W).
  destruct (table_space (snd ic)); cbn [length]; congruence.
Qed.

Lemma snd_enumerate_from : forall (t : str) k, map snd (enumerate_from k t) = t.
Proof.
  induction t as [|c t IH]; intro k; [reflexivity|].
  cbn [enumerate_from map snd]. rewrite IH. reflexivity.
Qed.

(** Without an ASCII space the loop copies its items and draws nothing. *)
Lemma replace_spaces_loop_copies : forall self text pb items result g,
  Forall (fun ic : nat * N => snd ic <> SPACE) items ->
  replace_spaces_loop self text pb items result g
  = (inr (result ++ map (fun ic : nat * N => [snd ic]) items), g).
Proof.
  intros self text pb. induction items as [|[i c] rest IH]; intros result g H.
  - cbn [replace_spaces_loop map]. rewrite app_nil_r. reflexivity.
  - inversion H as [|? ? Hc Hrest]; subst. cbn [snd] in Hc.
    rewrite replace_spaces_loop_cons.
    destruct (char_eqb c SPACE) eqn:E; [apply N.eqb_eq in E; contradiction|].
    rewrite (IH _ g Hrest). cbn [map snd]. rewrite <- app_assoc. reflexivity.
Qed.

End WithGenerator.
End SpaceStatistics.

Module SpaceCodecProperties.
Import SpaceManipulator SpaceCodec SpaceStatistics.

Section WithGenerator.
Context {G : PyRandom}.

(** X1. A text without any ASCII space comes back as it is, whatever the
    intensity and the flag, and the object (its generator included) is
    untouched: no draw is made. *)
Theorem replace_spaces_without_ascii_space :
  forall (self : obj) (text : str) (preserve_boundaries : bool),
  ~ In SPACE text ->
  replace_spaces text preserve_boundaries self = (inr text, self).
Proof.
  intros self text pb Hn. unfold replace_spaces.
  destruct ((match text with [] => true | _ :: _ => false end)
            || Qeq_bool (intensity self) 0); [reflexivity|].
  unfold on_random, bind.
  rewrite replace_spaces_loop_copies.
  - cbn [app ret]. rewrite set_random_same. do 2 f_equal.
    unfold enumerate. generalize 0%nat.
    induction text as [|c t IH]; intro k; [reflexivity|].
    cbn [enumerate_from map concat snd app]. f_equal. apply IH.
    intro H. apply Hn. right. exact H.
  - apply Forall_forall. intros [i c] Hin Hc. cbn [snd] in Hc. subst c.
    apply Hn. rewrite <- (snd_enumerate_from text 0).
    apply in_map_iff. exists (i, SPACE). split; [reflexivity | exact Hin].
Qed.

(** X2. [replace_spaces] keeps the total that [analyze_distribution] counts:
    the number of characters that are one of the nine spaces of the table is
    the same in the output as in the input (the test's
    [sum(distribution.values()) == text.count(' ')] when the input holds
    ASCII spaces only). *)
Theorem replace_spaces_keeps_distribution_total :
  forall (self : obj) (text : str) (preserve_boundaries : bool),
  built self ->
  exists out,
    fst (replace_spaces text preserve_boundaries self) = inr out /\
    total (analyze_distribution out) = total (analyze_distribution text).
Proof.
  intros self text pb Hb.
  destruct (replace_spaces_spec text pb Hb) as [out [E F]].
  exists out. rewrite E. split; [reflexivity|].
  rewrite !distribution_total. rewrite (written_keeps_total Hb F).
  unfold enumerate. rewrite snd_enumerate_from. reflexivity.
Qed.

(** X3. The statistics of a run: for the output of [replace_spaces] on
    [text], [get_replacement_stats(text, output)] reports as [total_spaces]
    the number of table spaces of [text], and a number of [spaces_replaced]
    between 0 and that total. *)
Theorem replacement_stats_in_range :
  forall (self : obj) (text : str) (preserve_boundaries : bool),
  built self ->
  exists out,
    fst (replace_spaces text preserve_boundaries self) = inr out /\
    fst (get_replacement_stats text out)
      = Z.of_nat (length (filter table_space text)) /\
    (0 <= snd (get_replacement_stats text out)
       <= fst (get_replacement_stats text out))%Z.
Proof.
  intros self text pb Hb.
  destruct (replace_spaces_spec text pb Hb) as [out [E F]].
  exists out. rewrite E. split; [reflexivity|].
  unfold get_replacement_stats. cbn [fst snd].
  rewrite standard_entry.
  change (list_sum (map snd (analyze_distribution text)))
    with (total (analyze_distribution text)).
  rewrite distribution_total. split; [reflexivity|].
  pose proof (count_le_table out) as Hle.
  rewrite (written_keeps_total Hb F) in Hle.
  unfold enumerate in Hle. rewrite snd_enumerate_from in Hle. lia.
Qed.

(** X4. The statistics compare totals, not positions: a text that already
    holds variant spaces is reported with that many [spaces_replaced] against
    itself, although nothing was replaced. *)
Theorem replacement_stats_of_unchanged_text :
  forall text : str,
  snd (get_replacement_stats text text)
  = Z.of_nat (length (filter (fun c => table_space c && negb (char_eqb SPACE c))
                             text)).
Proof.
  intro text. unfold get_replacement_stats. cbn [fst snd].
  rewrite standard_entry.
  change (list_sum (map snd (analyze_distribution text)))
    with (total (analyze_distribution text)).
  rewrite distribution_total. unfold count.
  induction text as [|c text IH]; [reflexivity|].
  cbn [filter]. destruct (char_eqb SPACE c) eqn:E.
  - apply N.eqb_eq in E. subst c. change (table_space SPACE) with true.
    cbn [andb negb length]. lia.
  - destruct (table_space c); cbn [andb negb length]; lia.
Qed.

(** X5. At intensity 1.0 without boundary preservation a second pass is the
    identity: the output of the first call holds no ASCII space, so any
    further [replace_spaces] on it returns it unchanged and draws nothing. *)
Theorem replace_spaces_second_pass :
  forall (self : obj) (text : str) (preserve_boundaries : bool),
  built self -> intensity self == 1 ->
  exists out self1,
    replace_spaces text false self = (inr out, self1) /\
    replace_spaces out preserve_boundaries self1 = (inr out, self1).
Proof.
  intros self text pb Hb H1.
  destruct (replace_spaces_spec text false Hb) as [out [E F]].
  rewrite E. eexists. eexists. split; [reflexivity|].
  apply replace_spaces_without_ascii_space.
  intro Hin. apply In_nth_error in Hin. destruct Hin as [i Hi].
  destruct (@Forall2_enumerate_nth _ _ _ _ F) as [L P]. cbn [Nat.add] in P.
  assert (i < length text)%nat as Hlt.
  { rewrite <- L. apply nth_error_Some. congruence. }
  destruct (nth_error text i) as [c|] eqn:Et;
    [|apply nth_error_None in Et; lia].
  destruct (P i c Et) as [c' [E' [W0 W1]]]. rewrite Hi in E'.
  inversion E'; subst c'. cbn [fst snd] in W0, W1.
  destruct (draw_site text false i c) eqn:Ed.
  - destruct (W1 eq_refl) as [_ Hv].
    exact (variant_chars_not_space (Hv H1) eq_refl).
  - specialize (W0 eq_refl). subst c. unfold draw_site in Ed.
    change (char_eqb SPACE SPACE) with true in Ed. discriminate Ed.
Qed.

End WithGenerator.
End SpaceCodecProperties.

(* ================================================================== *)
(** * The lexical engine: when it returns, and what it leaves alone *)
(* ================================================================== *)

Module LexicalLayers.
Import SemanticReplacer SplitJoin DiscourseMarkers ContentWords.

Lemma lstrip_by_skips : forall (p : N -> bool) pre s,
  forallb p pre = true -> lstrip_by p (pre ++ s) = lstrip_by p s.
Proof.
  intros p. induction pre as [|c pre IH]; intros s H; [reflexivity|].
  cbn [forallb] in H. apply andb_true_iff in H. destruct H as [Hc H].
  cbn [app lstrip_by]. rewrite Hc. apply IH. exact H.
Qed.

(** [(s + ws).rstrip() == s.rstrip()] for white space [ws]. *)
Lemma rstrip_by_app : forall (p : N -> bool) s ws,
  forallb p ws = true -> rstrip_by p (s ++ ws) = rstrip_by p s.
Proof.
  intros p s ws H. unfold rstrip_by. rewrite rev_app_distr.
  rewrite lstrip_by_skips; [reflexivity|].
  rewrite forallb_forall in *. intros x Hx. apply H. apply in_rev. exact Hx.
Qed.

Section WithCollaborators.
Context {G : PyRandom} {U : PyUnicode}.

Lemma replace_markers_in_returns : forall table,
  (forall ma, In ma table -> In ma DISCOURSE_MARKERS) ->
  forall modified n g,
  exists out n' g',
    replace_markers_in table modified n g = (inr (out, n'), g').
Proof.
  induction table as [|[marker alts] table IH]; intros Hsub modified n g.
  - exists modified, n, g. reflexivity.
  - cbn [replace_markers_in]. unfold bind.
    assert (In (marker, alts) DISCOURSE_MARKERS) as Hin
      by (apply Hsub; left; reflexivity).
    assert (forall ma, In ma table -> In ma DISCOURSE_MARKERS) as Hsub'
      by (intros ma Hma; apply Hsub; right; exact Hma).
    destruct (contains (lower marker) (lower modified)) eqn:Ec.
    + destruct (replace_one_marker_hit marker modified n g (table_good Hin) Ec)
        as [outs [n1 [g1 [E _]]]].
      rewrite E. apply (IH Hsub').
    + rewrite (replace_one_marker_miss marker alts modified n g Ec).
      apply (IH Hsub').
Qed.

Lemma replace_markers_in_untouched : forall text table n g,
  (forall marker alternatives,
     In (marker, alternatives) table ->
     contains (lower marker) (lower text) = false) ->
  replace_markers_in table text n g = (inr (text, n), g).
Proof.
  intros text. induction table as [|[marker alts] table IH]; intros n g H;
    [reflexivity|].
  cbn [replace_markers_in]. unfold bind.
  rewrite replace_one_marker_miss by (eapply H; left; reflexivity).
  apply IH. intros m a Hin. eapply H. right. exact Hin.
Qed.

Lemma replace_one_phrase_returns : forall phrase alternatives modified n g,
  alternatives <> [] ->
  exists out n' g',
    replace_one_phrase phrase alternatives modified n g = (inr (out, n'), g') /\
    (n <= n' <= S n)%nat.
Proof.
  intros phrase alts modified n g Hne. unfold replace_one_phrase.
  destruct (contains phrase (lower modified)).
  - destruct (@choice_In G _ alts g Hne) as [a [Ha _]].
    unfold bind. destruct (choice alts g) as [r g1]. cbn [fst] in Ha. subst r.
    destruct (contains phrase modified);
      [|destruct (contains (capitalize phrase) modified)];
      do 3 eexists; (split; [reflexivity | lia]).
  - do 3 eexists. split; [reflexivity | lia].
Qed.

Lemma replace_phrases_in_returns : forall table,
  Forall (fun pa : str * list str => snd pa <> []) table ->
  forall modified n g,
  exists out n' g',
    replace_phrases_in table modified n g = (inr (out, n'), g') /\
    (n <= n' <= n + length table)%nat.
Proof.
  induction table as [|[phrase alts] table IH]; intros Hne modified n g.
  - exists modified, n, g. split; [reflexivity | cbn [length]; lia].
  - inversion Hne as [|? ? Ha Ht]; subst. cbn [snd] in Ha.
    cbn [replace_phrases_in]. unfold bind.
    destruct (replace_one_phrase_returns phrase modified n g Ha)
      as [out1 [n1 [g1 [E1 B1]]]].
    rewrite E1.
    destruct (IH Ht out1 n1 g1) as [out [n' [g' [E B]]]].
    exists out, n', g'. split; [exact E | cbn [length]; lia].
Qed.

Lemma phrase_table_not_empty :
  Forall (fun pa : str * list str => snd pa <> []) PHRASE_SUBSTITUTIONS.
Proof.
  unfold PHRASE_SUBSTITUTIONS.
  repeat (constructor; [cbn [snd]; discriminate|]). constructor.
Qed.

Lemma replace_phrases_in_untouched : forall text table n g,
  (forall phrase alternatives,
     In (phrase, alternatives) table ->
     contains phrase (lower text) = false) ->
  replace_phrases_in table text n g = (inr (text, n), g).
Proof.
  intros text. induction table as [|[phrase alts] table IH]; intros n g H;
    [reflexivity|].
  cbn [replace_phrases_in]. unfold bind, replace_one_phrase.
  rewrite (H phrase alts) by (left; reflexivity). cbn [ret].
  apply IH. intros p a Hin. eapply H. right. exact Hin.
Qed.

End WithCollaborators.

Section WithCorpus.
Context {G : PyRandom} {U : PyUnicode} {P : NLPModel} {W : WordNetCorpus}.

(** WordNet answers every lookup. *)
Definition wordnet_answers : Prop :=
  forall word pos, exists syns, synsets word pos = inr syns.

(** The parser answers on every text. *)
Definition parser_answers : Prop :=
  forall text, exists doc, nlp text = inr doc.

Lemma synonyms_answered : forall word pos,
  wordnet_answers -> exists l, get_wordnet_synonyms word pos = inr l.
Proof.
  intros word pos Hw. unfold get_wordnet_synonyms.
  destruct (Hw word pos) as [syns ->]. eexists. reflexivity.
Qed.

(** The word that the loop appends for a token: the loop raises only when
    WordNet does, and a token that is not a content word is written back as
    [token.text_with_ws.rstrip()] without any draw. *)
Lemma replace_token_returns : forall formality intensity token g,
  wordnet_answers ->
  exists w g',
    replace_token formality intensity token g = (inr w, g') /\
    (content_word token = false ->
     w = rstrip_by isspace (Spacy.text_with_ws token) /\ g' = g).
Proof.
  intros formality intensity token g Hw.
  destruct (content_word token) eqn:Hc.
  - destruct (rng_random g) as [r g1] eqn:Er.
    rewrite (ContentWordClaims.replace_token_content formality intensity token
               g Hc Er).
    destruct (Qlt_bool r intensity);
      [|do 2 eexists; split; [reflexivity | discriminate]].
    destruct (replace_with_synonym_result formality
                (dict_get (Spacy.pos_ token) pos_map) g1
                (ContentWordClaims.content_word_not_empty token Hc))
      as [[alts [a [_ [_ E]]]]
         |[[syns [a [_ [_ [_ E]]]]]
          |[[_ [_ E]]|[e [_ [E' _]]]]]].
    + rewrite E. do 2 eexists. split; [reflexivity | discriminate].
    + rewrite E. do 2 eexists. split; [reflexivity | discriminate].
    + rewrite E. do 2 eexists. split; [reflexivity | discriminate].
    + destruct (synonyms_answered (lower (Spacy.text token))
                  (dict_get (Spacy.pos_ token) pos_map) Hw) as [l El].
      congruence.
  - unfold replace_token. rewrite Hc. do 2 eexists.
    split; [reflexivity | intros _; split; reflexivity].
Qed.

(** What the content-word loop writes for a token. *)
Definition token_image (token : Spacy.Token) (w : str) : Prop :=
  content_word token = false ->
  w = rstrip_by isspace (Spacy.text_with_ws token).

Lemma replace_tokens_returns : forall formality intensity,
  wordnet_answers ->
  forall tokens words g,
  exists out g',
    replace_tokens formality intensity tokens words g = (inr (words ++ out), g') /\
    Forall2 token_image tokens out.
Proof.
  intros formality intensity Hw.
  induction tokens as [|token rest IH]; intros words g.
  - exists [], g. cbn [replace_tokens]. rewrite app_nil_r.
    split; [reflexivity | constructor].
  - cbn [replace_tokens]. unfold bind.
    destruct (replace_token_returns formality intensity token g Hw)
      as [w [g1 [E H]]].
    rewrite E. destruct (IH (words ++ [w]) g1) as [out [g' [E' F]]].
    exists (w :: out), g'. rewrite E', <- app_assoc.
    split; [reflexivity|]. constructor; [|exact F].
    intro Hc. apply H. exact Hc.
Qed.

End WithCorpus.
End LexicalLayers.

(* ================================================================== *)
(** * The content-word pass over the parse *)
(* ================================================================== *)

Module ContentWordPass.
Import SemanticReplacer ContentWords LexicalLayers.

Section WithCollaborators.
Context {G : PyRandom} {U : PyUnicode} {P : NLPModel} {W : WordNetCorpus}.

(** What an attempted substitution of [word] returns, from the generator
    state [g1]: an alternative of the curated table at the formality of the
    object, at confidence 0.9; or, when the curated table has nothing, a
    synonym of the general lookup at 0.6; or the word itself at 0.0 when
    the lookup has nothing either. An alternative [a] comes with the
    capital of the word: [a.capitalize()] when the word starts in upper
    case, [a] as it is spelled otherwise ([keep_capital]). *)
Definition attempted (formality : string) (word : str) (pos : option string)
    (g1 : rng) (replacement : str) (conf : Q) (g2 : rng) : Prop :=
  (conf = 9 # 10 /\
   exists alternatives a,
     curated formality word = Some alternatives /\ In a alternatives /\
     replacement = keep_capital word a /\
     g2 = snd (rng_randbelow (length alternatives) g1))
  \/ (conf = 6 # 10 /\
      exists synonyms a,
        curated formality word = None /\
        get_wordnet_synonyms (lower word) pos = inr synonyms /\
        In a synonyms /\ replacement = keep_capital word a /\
        g2 = snd (rng_randbelow (length synonyms) g1))
  \/ (conf = 0 /\ curated formality word = None /\
      get_wordnet_synonyms (lower word) pos = inr [] /\
      replacement = word /\ g2 = g1).

(** What the pass writes for one token, from the generator state [g], and
    the state [g'] it leaves. A token that is not a content word is written
    as [token.text_with_ws.rstrip()] and draws nothing. For a content word
    (verb, adjective or adverb of more than four characters) one draw [r] of
    [random()] is the trial: with [r >= intensity] the text of the token is
    written; with [r < intensity] a substitution is attempted, and its
    answer is written exactly when its confidence exceeds 0.5. *)
Definition trial (formality : string) (intensity : Q) (token : Spacy.Token)
    (g : rng) (w : str) (g' : rng) : Prop :=
  let word := Spacy.text token in
  let pos := dict_get (Spacy.pos_ token) pos_map in
  let r := fst (rng_random g) in
  let g1 := snd (rng_random g) in
  (content_word token = false ->
   w = rstrip_by isspace (Spacy.text_with_ws token) /\ g' = g) /\
  (content_word token = true ->
   (~ r < intensity -> w = word /\ g' = g1) /\
   (r < intensity ->
    exists replacement conf,
      replace_with_synonym formality word pos g1 = (inr (replacement, conf), g') /\
      attempted formality word pos g1 replacement conf g' /\
      w = if Qlt_bool (5 # 10) conf then replacement else word)).

(** The pass over the tokens of a parse, in order: every token goes through
    its trial from the generator state that the token before has left. *)
Inductive pass (formality : string) (intensity : Q)
  : list Spacy.Token -> rng -> list str -> rng -> Prop :=
| pass_done : forall g, pass formality intensity [] g [] g
| pass_token : forall token rest g w g1 words g',
    trial formality intensity token g w g1 ->
    pass formality intensity rest g1 words g' ->
    pass formality intensity (token :: rest) g (w :: words) g'.

(** The general lookup fails on a content word of the tokens. *)
Definition lookup_fails (tokens : list Spacy.Token) (e : PyExn) : Prop :=
  exists token,
    In token tokens /\ content_word token = true /\
    get_wordnet_synonyms (lower (Spacy.text token))
      (dict_get (Spacy.pos_ token) pos_map) = inl e.

Lemma replace_token_trial : forall formality intensity token g,
  (exists w g',
     replace_token formality intensity token g = (inr w, g') /\
     trial formality intensity token g w g')
  \/ (exists e g',
        replace_token formality intensity token g = (inl e, g') /\
        content_word token = true /\
        get_wordnet_synonyms (lower (Spacy.text token))
          (dict_get (Spacy.pos_ token) pos_map) = inl e).
Proof.
  intros formality intensity token g.
  destruct (content_word token) eqn:Hc.
  - destruct (rng_random g) as [r g1] eqn:Er.
    rewrite (ContentWordClaims.replace_token_content formality intensity token
               g Hc Er).
    destruct (Qlt_bool r intensity) eqn:Eq.
    + destruct (replace_with_synonym_result formality
                  (dict_get (Spacy.pos_ token) pos_map) g1
                  (ContentWordClaims.content_word_not_empty token Hc))
        as [[alts [a [H1 [H2 E]]]]
           |[[syns [a [H1 [H2 [H3 E]]]]]
            |[[H1 [H2 E]]|[e [H1 [H2 E]]]]]].
      * left. rewrite E. do 2 eexists. split; [reflexivity|].
        unfold trial. rewrite Er. cbn [fst snd].
        split; [intro Hf; congruence|]. intros _. split.
        -- intro Hn. apply SpaceCodec.Qlt_bool_true in Eq. contradiction.
        -- intros _. do 2 eexists. split; [exact E|]. split; [|reflexivity].
           left. split; [reflexivity|]. exists alts, a. repeat split; assumption.
      * left. rewrite E. do 2 eexists. split; [reflexivity|].
        unfold trial. rewrite Er. cbn [fst snd].
        split; [intro Hf; congruence|]. intros _. split.
        -- intro Hn. apply SpaceCodec.Qlt_bool_true in Eq. contradiction.
        -- intros _. do 2 eexists. split; [exact E|]. split; [|reflexivity].
           right. left. split; [reflexivity|]. exists syns, a.
           repeat split; assumption.
      * left. rewrite E. do 2 eexists. split; [reflexivity|].
        unfold trial. rewrite Er. cbn [fst snd].
        split; [intro Hf; congruence|]. intros _. split.
        -- intro Hn. apply SpaceCodec.Qlt_bool_true in Eq. contradiction.
        -- intros _. do 2 eexists. split; [exact E|]. split; [|reflexivity].
           right. right. repeat split; assumption.
      * right. rewrite E. do 2 eexists. split; [reflexivity|].
        split; [reflexivity | exact H2].
    + left. do 2 eexists. split; [reflexivity|].
      unfold trial. rewrite Er. cbn [fst snd].
      split; [intro Hf; congruence|]. intros _. split.
      * intros _. split; reflexivity.
      * intro Hlt. apply SpaceCodec.Qlt_bool_true in Hlt. congruence.
  - left. unfold replace_token. rewrite Hc. do 2 eexists.
    split; [reflexivity|]. unfold trial. split.
    + intros _. split; reflexivity.
    + intro Ht. congruence.
Qed.

Lemma replace_tokens_pass : forall formality intensity tokens words g,
  (exists out g',
     replace_tokens formality intensity tokens words g = (inr (words ++ out), g') /\
     pass formality intensity tokens g out g')
  \/ (exists e g',
        replace_tokens formality intensity tokens words g = (inl e, g') /\
        lookup_fails tokens e).
Proof.
  intros formality intensity.
  induction tokens as [|token rest IH]; intros words g.
  - left. exists [], g. cbn [replace_tokens]. rewrite app_nil_r.
    split; [reflexivity | constructor].
  - cbn [replace_tokens]. unfold bind.
    destruct (replace_token_trial formality intensity token g)
      as [[w [g1 [E T]]]|[e [g1 [E [Hc He]]]]].
    + rewrite E.
      destruct (IH (words ++ [w]) g1) as [[out [g' [E' Q]]]|[e [g' [E' Q]]]].
      * left. exists (w :: out), g'. rewrite E', <- app_assoc.
        split; [reflexivity|]. econstructor; eassumption.
      * right. exists e, g'. split; [exact E'|].
        destruct Q as [t [Hin Ht]]. exists t. split; [right; exact Hin | exact Ht].
    + right. rewrite E. exists e, g1. split; [reflexivity|].
      exists token. split; [left; reflexivity|]. split; assumption.
Qed.

(** C8, as the code has it. Above intensity 0.3 [replace_semantics] runs the
    content-word pass on the parse of the text that the marker and the
    phrase layer have left (both always return). If the parser raises, so
    does [replace_semantics]. Otherwise every token of the parse goes
    through its trial, in order, each from the generator state that the one
    before has left: a token tagged VERB, ADJ or ADV with more than 4
    characters is kept when the draw is not below the intensity, and
    otherwise replaced exactly when the confidence of the attempted
    substitution exceeds 0.5: 0.9 with an alternative of the curated table
    at the formality of the object, 0.6 with a synonym of the general
    lookup when the curated table has none, 0.0 with the word itself when
    the lookup has none either. The alternative is capitalized
    ([capitalize()]) when the token starts in upper case, and used as it is
    spelled otherwise. The words written are joined with single spaces and
    the space before a punctuation mark is removed. The pass fails only
    when the general lookup raises on a content word. *)
Theorem content_word_substitution :
  forall (formality : string) (intensity : Q) (text : str) (g : rng),
  3 # 10 < intensity ->
  exists marked n1 g1 modified n2 g2,
    replace_discourse_markers text g = (inr (marked, n1), g1) /\
    replace_phrases marked g1 = (inr (modified, n2), g2) /\
    (forall e, nlp modified = inl e ->
       replace_semantics formality text intensity g = (inl e, g2)) /\
    (forall doc, nlp modified = inr doc ->
       (exists words g3,
          replace_semantics formality text intensity g
          = (inr (fix_punctuation_spacing (join (u " ") words)), g3) /\
          pass formality intensity (Spacy.tokens doc) g2 words g3)
       \/ (exists e g3,
             replace_semantics formality text intensity g = (inl e, g3) /\
             lookup_fails (Spacy.tokens doc) e)).
Proof.
  intros formality intensity text g Hi.
  destruct (@replace_markers_in_returns G U DISCOURSE_MARKERS
              (fun _ H => H) text 0%nat g) as [marked [n1 [g1 E1]]].
  destruct (@replace_phrases_in_returns G U PHRASE_SUBSTITUTIONS
              phrase_table_not_empty marked 0%nat g1)
    as [modified [n2 [g2 [E2 _]]]].
  exists marked, n1, g1, modified, n2, g2.
  split; [exact E1|]. split; [exact E2|].
  assert (replace_semantics formality text intensity g
          = replace_content_words formality intensity modified g2) as Es.
  { unfold replace_semantics, bind.
    unfold replace_discourse_markers, replace_phrases in *.
    rewrite E1, E2.
    apply SpaceCodec.Qlt_bool_true in Hi. rewrite Hi. reflexivity. }
  rewrite Es. unfold replace_content_words, bind, call. split.
  - intros e He. rewrite He. reflexivity.
  - intros doc Hd. rewrite Hd.
    destruct (replace_tokens_pass formality intensity (Spacy.tokens doc) [] g2)
      as [[words [g3 [E Q]]]|[e [g3 [E Q]]]]; rewrite E.
    + left. exists words, g3. split; [reflexivity | exact Q].
    + right. exists e, g3. split; [reflexivity | exact Q].
Qed.

End WithCollaborators.

(** On ["We improve results"] at intensity 0.5, formality "formal", with a
    generator whose first draw is below 0.5: [improve] goes through the
    trial and is written as [enhance], from the curated table. *)
Lemma content_word_substitution_witness :
  3 # 10 < 1 # 2 /\
  exists words g3,
    replace_semantics (G := LCG.lcg) (U := ascii_tables)
      (P := Scripted.small_parser) (W := Scripted.small_wordnet)
      "formal" (u "We improve results") (1 # 2) (rng_seed 6%Z)
    = (inr (fix_punctuation_spacing (join (u " ") words)), g3) /\
    pass (G := LCG.lcg) (U := ascii_tables) (W := Scripted.small_wordnet)
      "formal" (1 # 2) (Spacy.tokens Scripted.we_improve_results)
      (rng_seed 6%Z) words g3 /\
    fix_punctuation_spacing (join (u " ") words) = u "We enhance results".
Proof.
  assert (3 # 10 < 1 # 2) as Hi by reflexivity.
  split; [exact Hi|].
  destruct (@content_word_substitution LCG.lcg ascii_tables
              Scripted.small_parser Scripted.small_wordnet
              "formal"%string (1 # 2) (u "We improve results")
              (rng_seed 6%Z) Hi)
    as [marked [n1 [g1 [modified [n2 [g2 [E1 [E2 [_ Hd]]]]]]]]].
  vm_compute in E1. inversion E1; subst marked n1 g1. clear E1.
  vm_compute in E2. inversion E2; subst modified n2 g2. clear E2.
  assert (fst (replace_semantics (G := LCG.lcg) (U := ascii_tables)
                 (P := Scripted.small_parser) (W := Scripted.small_wordnet)
                 "formal" (u "We improve results") (1 # 2) (rng_seed 6%Z))
          = inr (u "We enhance results")) as Ev by (vm_compute; reflexivity).
  destruct (Hd Scripted.we_improve_results eq_refl)
    as [[words [g3 [E Q]]]|[e [g3 [E _]]]].
  - exists words, g3. split; [exact E|]. split; [exact Q|].
    rewrite E in Ev. cbn [fst] in Ev. inversion Ev. reflexivity.
  - rewrite E in Ev. discriminate Ev.
Defined.

End ContentWordPass.

Module LexicalProperties.
Import SemanticReplacer LexicalLayers.

Section WithTables.
Context {G : PyRandom} {U : PyUnicode}.

(** X6. [replace_discourse_markers] never raises: for every text and every
    state of the generator it returns a text and a count. Neither the
    [word[0]] of the loop nor the [choice] can fail, because [split()] yields
    no empty word and every marker has alternatives. *)
Theorem replace_discourse_markers_returns :
  forall (text : str) (g : rng),
  exists out n g',
    replace_discourse_markers text g = (inr (out, n), g').
Proof.
  intros text g. unfold replace_discourse_markers.
  apply replace_markers_in_returns. intros ma H. exact H.
Qed.

(** X7. [replace_phrases] never raises, and its count is at most 10: it
    counts the phrases of the table that were substituted, one per phrase,
    however many occurrences [str.replace] rewrote. *)
Theorem replace_phrases_returns :
  forall (text : str) (g : rng),
  exists out n g',
    replace_phrases text g = (inr (out, n), g') /\ (n <= 10)%nat.
Proof.
  intros text g. unfold replace_phrases.
  destruct (replace_phrases_in_returns phrase_table_not_empty text 0 g)
    as [out [n [g' [E B]]]].
  exists out, n, g'. split; [exact E|].
  change (length PHRASE_SUBSTITUTIONS) with 10%nat in B. lia.
Qed.

End WithTables.

(** X8. At an intensity of at most 0.3 [replace_semantics] never raises and
    never consults the parser, WordNet or the formality: the answer and the
    generator state are the same whatever these are (a parser that always
    fails included). *)
Theorem replace_semantics_low_intensity :
  forall (G : PyRandom) (U : PyUnicode) (text : str) (intensity : Q) (g : rng),
  intensity <= 3 # 10 ->
  exists out g',
    forall (P : NLPModel) (W : WordNetCorpus) (formality : string),
    replace_semantics formality text intensity g = (inr out, g').
Proof.
  intros G U text intensity g Hi.
  destruct (@replace_markers_in_returns G U DISCOURSE_MARKERS
              (fun _ H => H) text 0%nat g) as [out1 [n1 [g1 E1]]].
  destruct (@replace_phrases_in_returns G U PHRASE_SUBSTITUTIONS
              phrase_table_not_empty out1 0%nat g1) as [out [n [g' [E _]]]].
  exists out, g'. intros P W formality.
  unfold replace_semantics, bind, replace_discourse_markers, replace_phrases.
  rewrite E1, E.
  assert (Qlt_bool (3 # 10) intensity = false) as F.
  { unfold Qlt_bool. apply negb_false_iff. apply Qle_bool_iff. exact Hi. }
  rewrite F. reflexivity.
Qed.

Section WithCollaborators.
Context {G : PyRandom} {U : PyUnicode} {P : NLPModel} {W : WordNetCorpus}.

(** X9. A text that holds no discourse marker and no phrase of the tables
    (in its lower-cased form) passes [replace_semantics] at an intensity of
    at most 0.3 unchanged, white space included, and no draw is made. *)
Theorem replace_semantics_identity :
  forall (formality : string) (text : str) (intensity : Q) (g : rng),
  intensity <= 3 # 10 ->
  (forall marker alternatives,
     In (marker, alternatives) DISCOURSE_MARKERS ->
     contains (lower marker) (lower text) = false) ->
  (forall phrase alternatives,
     In (phrase, alternatives) PHRASE_SUBSTITUTIONS ->
     contains phrase (lower text) = false) ->
  replace_semantics formality text intensity g = (inr text, g).
Proof.
  intros formality text intensity g Hi Hm Hp.
  unfold replace_semantics, bind, replace_discourse_markers, replace_phrases.
  rewrite (replace_markers_in_untouched text DISCOURSE_MARKERS 0 g Hm).
  rewrite (replace_phrases_in_untouched text PHRASE_SUBSTITUTIONS 0 g Hp).
  assert (Qlt_bool (3 # 10) intensity = false) as F.
  { unfold Qlt_bool. apply negb_false_iff. apply Qle_bool_iff. exact Hi. }
  rewrite F. reflexivity.
Qed.

(** X10. [replace_semantics] fails only when a collaborator does: with a
    parser and a WordNet that answer, it returns at every intensity, for
    every text and generator state. The engine's own [word[0]] and [choice]
    cannot raise: only tokens of more than four characters are looked up, and
    [choice] is called on lists that are not empty. *)
Theorem replace_semantics_returns :
  forall (formality : string) (text : str) (intensity : Q) (g : rng),
  parser_answers -> wordnet_answers ->
  exists out g',
    replace_semantics formality text intensity g = (inr out, g').
Proof.
  intros formality text intensity g Hp Hw.
  destruct (@replace_markers_in_returns G U DISCOURSE_MARKERS
              (fun _ H => H) text 0%nat g) as [out1 [n1 [g1 E1]]].
  destruct (@replace_phrases_in_returns G U PHRASE_SUBSTITUTIONS
              phrase_table_not_empty out1 0%nat g1) as [out2 [n2 [g2 [E2 _]]]].
  unfold replace_semantics, bind, replace_discourse_markers, replace_phrases.
  rewrite E1, E2.
  destruct (Qlt_bool (3 # 10) intensity); [|do 2 eexists; reflexivity].
  unfold replace_content_words, bind, call.
  destruct (Hp out2) as [doc ->].
  destruct (replace_tokens_returns formality intensity Hw (Spacy.tokens doc) [] g2)
    as [words [g3 [E3 _]]].
  rewrite E3. do 2 eexists. reflexivity.
Qed.

(** X11. The content-word loop writes one word per token, in order. For a
    token that is not a content word (not a verb, adjective or adverb, or of
    at most four characters) it writes [token.text_with_ws.rstrip()]; when
    [text_with_ws] is the text of the token followed by white space, as
    spaCy has it, that is [token.text.rstrip()]: the token's own text, and
    the empty string for a token that is white space itself (a newline
    between two words is written as an empty word, and joined with a space
    on either side). *)
Theorem replace_tokens_one_word_per_token :
  forall (formality : string) (intensity : Q) (tokens : list Spacy.Token)
         (g : rng),
  wordnet_answers ->
  exists words g',
    replace_tokens formality intensity tokens [] g = (inr words, g') /\
    length words = length tokens /\
    forall k token,
      nth_error tokens k = Some token -> content_word token = false ->
      nth_error words k = Some (rstrip_by isspace (Spacy.text_with_ws token)) /\
      (forall ws,
         Spacy.text_with_ws token = Spacy.text token ++ ws ->
         forallb isspace ws = true ->
         nth_error words k = Some (rstrip_by isspace (Spacy.text token))).
Proof.
  intros formality intensity tokens g Hw.
  destruct (replace_tokens_returns formality intensity Hw tokens [] g)
    as [words [g' [E F]]].
  exists words, g'. split; [exact E|].
  split; [symmetry; exact (Forall2_length F)|].
  assert (forall k token,
            nth_error tokens k = Some token -> content_word token = false ->
            nth_error words k
            = Some (rstrip_by isspace (Spacy.text_with_ws token))) as H.
  { clear E. induction F as [|t w ts ws Htw _ IH]; intros k token Hk Hc.
    - destruct k; discriminate Hk.
    - destruct k as [|k].
      + cbn in Hk. inversion Hk; subst. cbn. f_equal. apply Htw. exact Hc.
      + cbn in Hk |- *. eapply IH; eassumption. }
  intros k token Hk Hc. split; [exact (H k token Hk Hc)|].
  intros ws Hws Hs. rewrite (H k token Hk Hc), Hws.
  rewrite rstrip_by_app by exact Hs. reflexivity.
Qed.

(** X12. The list of [get_wordnet_synonyms]: it holds no entry twice, never
    the word itself in any casing, and no underscore (the lemma names are
    listed with spaces). *)
Theorem wordnet_synonyms_clean :
  forall (word : str) (pos : option string) (synonyms : list str),
  get_wordnet_synonyms word pos = inr synonyms ->
  NoDup synonyms /\
  forall synonym, In synonym synonyms ->
    lower synonym <> lower word /\ ~ In 95%N synonym.
Proof.
  intros word pos synonyms H. unfold get_wordnet_synonyms in H.
  destruct (synsets word pos) as [e|syns]; [discriminate|].
  inversion H; subst synonyms. clear H. split; [apply list_of_set_NoDup|].
  intros s Hs. apply (proj1 (list_of_set_In _ _)) in Hs.
  apply filter_In in Hs.
  destruct Hs as [Hin Hne]. split.
  - intro E. rewrite E, str_eqb_refl in Hne. discriminate Hne.
  - apply in_map_iff in Hin. destruct Hin as [name [<- _]].
    clear. unfold replace. cbn [u list_ascii_of_string map].
    change (N_of_ascii "_") with 95%N. change (N_of_ascii " ") with 32%N.
    cbn [length Nat.sub].
    induction name as [|c name IH]; [intros []|].
    cbn [replace_from startswith]. unfold char_eqb.
    destruct (N.eqb_spec 95 c) as [<-|Hc]; cbn [andb app length Nat.sub].
    + intros [Hx|Hx]; [discriminate | exact (IH Hx)].
    + intros [Hx|Hx]; [congruence | exact (IH Hx)].
Qed.

End WithCollaborators.
End LexicalProperties.

(* ================================================================== *)
(** * The syntax engine: clauses, balancing, failures *)
(* ================================================================== *)

Module SyntaxLayers.
Import SyntaxRestructurer Balancing LexicalLayers.

(** No rule of the balancing pass applies: no sentence is long with a comma,
    and no two consecutive sentences are both short. *)
Fixpoint settled (sentences : list str) : bool :=
  match sentences with
  | [] => true
  | sent :: rest =>
      negb (long_with_comma sent)
      && negb (short sent
               && match rest with
                  | next_sent :: _ => short next_sent
                  | [] => false
                  end)
      && settled rest
  end.

Section WithTables.
Context {G : PyRandom} {U : PyUnicode}.

Lemma vary_loop_settled : forall sentences result g,
  settled sentences = true ->
  vary_loop sentences result g = (inr (result ++ sentences), g).
Proof.
  induction sentences as [|sent rest IH]; intros result g H.
  - cbn [vary_loop]. rewrite app_nil_r. reflexivity.
  - cbn [settled] in H. apply andb_true_iff in H. destruct H as [H Hr].
    apply andb_true_iff in H. destruct H as [Hl Hs].
    apply negb_true_iff in Hl. apply negb_true_iff in Hs.
    cbn [vary_loop]. rewrite Hl.
    destruct rest as [|next_sent rest'].
    + cbn [vary_loop ret]. reflexivity.
    + rewrite Hs. rewrite (IH (result ++ [sent]) g Hr).
      rewrite <- app_assoc. reflexivity.
Qed.

Lemma balanced_size : forall (second : str -> str) sentences out,
  Balanced second sentences out ->
  (length sentences <= 2 * length out /\ length out <= 2 * length sentences)%nat.
Proof.
  intros second sentences out B.
  induction B; cbn [length] in *; lia.
Qed.

End WithTables.

Section WithParser.
Context {G : PyRandom} {U : PyUnicode} {P : NLPModel}.

(** The fold of [find_clauses], from any dictionary. *)
Definition clause_step (doc : Spacy.Doc) (clauses : NLPParser.Clauses)
    (token : Spacy.Token) : NLPParser.Clauses :=
  if label_in (Spacy.dep_ token) ["advcl"; "ccomp"; "xcomp"]%string
  then {| NLPParser.main := NLPParser.main clauses;
          NLPParser.dependent :=
            NLPParser.dependent clauses ++ [NLPParser.subtree_text doc token];
          NLPParser.relative := NLPParser.relative clauses |}
  else if String.eqb (Spacy.dep_ token) "relcl"
  then {| NLPParser.main := NLPParser.main clauses;
          NLPParser.dependent := NLPParser.dependent clauses;
          NLPParser.relative :=
            NLPParser.relative clauses ++ [NLPParser.subtree_text doc token] |}
  else clauses.

Definition is_dependent (token : Spacy.Token) : bool :=
  label_in (Spacy.dep_ token) ["advcl"; "ccomp"; "xcomp"]%string.

Definition is_relative (token : Spacy.Token) : bool :=
  String.eqb (Spacy.dep_ token) "relcl".

Lemma clause_fold : forall doc tokens clauses,
  let final := fold_left (clause_step doc) tokens clauses in
  NLPParser.main final = NLPParser.main clauses /\
  NLPParser.dependent final
  = NLPParser.dependent clauses
    ++ map (NLPParser.subtree_text doc) (filter is_dependent tokens) /\
  NLPParser.relative final
  = NLPParser.relative clauses
    ++ map (NLPParser.subtree_text doc) (filter is_relative tokens).
Proof.
  intros doc. induction tokens as [|token rest IH]; intro clauses.
  - cbn [fold_left filter map]. rewrite !app_nil_r. repeat split.
  - cbn [fold_left filter]. cbv zeta in IH |- *.
    destruct (IH (clause_step doc clauses token)) as [Hm [Hd Hr]].
    rewrite Hm, Hd, Hr. unfold clause_step, is_dependent, is_relative.
    destruct (label_in (Spacy.dep_ token) ["advcl"; "ccomp"; "xcomp"]%string)
      eqn:Ed.
    + assert (String.eqb (Spacy.dep_ token) "relcl" = false) as Er.
      { unfold label_in in Ed. cbn [existsb] in Ed.
        destruct (String.eqb_spec (Spacy.dep_ token) "relcl") as [E|]; [|reflexivity].
        rewrite E in Ed. discriminate Ed. }
      rewrite Er. cbn [NLPParser.main NLPParser.dependent NLPParser.relative map].
      rewrite <- app_assoc. repeat split.
    + destruct (String.eqb (Spacy.dep_ token) "relcl");
        cbn [NLPParser.main NLPParser.dependent NLPParser.relative map];
        rewrite <- ?app_assoc; repeat split.
Qed.

Lemma passive_to_active_returns : forall sentence,
  parser_answers -> exists r, passive_to_active sentence = inr r.
Proof.
  intros sentence Hp.
  unfold passive_to_active, NLPParser.is_passive_voice, NLPParser.parse.
  destruct (Hp sentence) as [doc ->].
  repeat match goal with
         | |- context [match ?x with _ => _ end] => destruct x
         end; eexists; reflexivity.
Qed.

Lemma reorder_clauses_returns : forall sentence,
  parser_answers -> exists r, reorder_clauses sentence = inr r.
Proof.
  intros sentence Hp.
  unfold reorder_clauses, NLPParser.find_clauses, NLPParser.parse.
  destruct (Hp sentence) as [doc ->].
  repeat match goal with
         | |- context [match ?x with _ => _ end] => destruct x
         end; eexists; reflexivity.
Qed.

Lemma restructure_sentence_returns : forall v c n sent,
  parser_answers -> exists current, restructure_sentence v c n sent = inr current.
Proof.
  intros v c n sent Hp. unfold restructure_sentence.
  assert (exists cur1,
            (if v then
               match NLPParser.is_passive_voice sent with
               | inl e => inl e
               | inr true =>
                   match passive_to_active sent with
                   | inl e => inl e
                   | inr (result, conf) =>
                       inr (if Qlt_bool (5 # 10) conf then result else sent)
                   end
               | inr false => inr sent
               end
             else inr sent) = inr cur1) as [cur1 ->].
  { destruct v; [|eexists; reflexivity].
    destruct (passive_to_active_returns sent Hp) as [[r q] ->].
    unfold NLPParser.is_passive_voice, NLPParser.parse.
    destruct (Hp sent) as [doc ->].
    match goal with |- context [existsb ?f ?l] => destruct (existsb f l) end;
      eexists; reflexivity. }
  destruct c.
  - destruct (reorder_clauses_returns cur1 Hp) as [[r q] ->].
    destruct n; [destruct (reverse_nominalization _)|]; eexists; reflexivity.
  - destruct n; [destruct (reverse_nominalization _)|]; eexists; reflexivity.
Qed.

Lemma restructure_sentences_returns : forall v c n sentences transformed,
  parser_answers ->
  exists out, restructure_sentences v c n sentences transformed = inr out.
Proof.
  intros v c n sentences transformed Hp. revert transformed.
  induction sentences as [|sent rest IH]; intro transformed.
  - eexists. reflexivity.
  - cbn [restructure_sentences].
    destruct (restructure_sentence_returns v c n sent Hp) as [cur ->].
    apply IH.
Qed.

Lemma reverse_nominalization_in_untouched : forall table sentence,
  (forall nominal verbal, In (nominal, verbal) table ->
     contains nominal (lower sentence) = false) ->
  reverse_nominalization_in table sentence = (sentence, 0).
Proof.
  induction table as [|[nominal verbal] table IH]; intros sentence H;
    [reflexivity|].
  cbn [reverse_nominalization_in].
  rewrite (H nominal verbal) by (left; reflexivity).
  apply IH. intros n v Hin. apply (H n v). right. exact Hin.
Qed.

End WithParser.
End SyntaxLayers.

Module SyntaxProperties.
Import SyntaxRestructurer Balancing LexicalLayers SyntaxLayers.

Section WithTables.
Context {G : PyRandom} {U : PyUnicode}.

(** X13. When no rule of the balancing pass applies (no sentence of more
    than 30 words with a comma, no two consecutive sentences of fewer than 8
    words), [vary_sentence_complexity] returns the list it was given with
    confidence 0.0 and draws nothing. *)
Theorem vary_sentence_complexity_settled :
  forall (sentences : list str) (g : rng),
  settled sentences = true ->
  vary_sentence_complexity sentences g = (inr (sentences, 0), g).
Proof.
  intros sentences g H. unfold vary_sentence_complexity.
  destruct sentences as [|s0 rest] eqn:E; [reflexivity|]. rewrite <- E in *.
  unfold bind. rewrite (vary_loop_settled sentences [] g H).
  cbn [app ret]. rewrite Nat.eqb_refl. reflexivity.
Qed.

(** X14. The balancing pass at most doubles and at most halves the number
    of sentences, and its confidence is 0.5 exactly when that number has
    changed (0.0 otherwise, also when a split and a merge cancel out). *)
Theorem vary_sentence_complexity_size :
  forall (sentences : list str) (g : rng),
  exists out conf g',
    vary_sentence_complexity sentences g = (inr (out, conf), g') /\
    (length sentences <= 2 * length out)%nat /\
    (length out <= 2 * length sentences)%nat /\
    (length out = length sentences -> conf = 0) /\
    (length out <> length sentences -> conf = 5 # 10).
Proof.
  intros sentences g. unfold vary_sentence_complexity.
  destruct sentences as [|s0 rest] eqn:Es.
  - exists [], 0, g. split; [reflexivity|]. cbn [length].
    split; [lia|]. split; [lia|]. split; [reflexivity | congruence].
  - rewrite <- Es.
    destruct (@vary_loop_balanced G U (length sentences) sentences (le_n _) [] g)
      as [out [g' [E B]]].
    unfold bind. rewrite E. cbn [app ret].
    destruct (balanced_size B) as [B1 B2].
    eexists out, _, g'. split; [reflexivity|].
    split; [exact B1|]. split; [exact B2|]. split.
    + intro L. rewrite L, Nat.eqb_refl. reflexivity.
    + intro L. apply Nat.eqb_neq in L. rewrite L. reflexivity.
Qed.

End WithTables.

Section WithParser.
Context {G : PyRandom} {U : PyUnicode} {P : NLPModel}.

(** X15. [find_clauses] never reports a main clause: the ['main'] list of
    the dictionary stays empty. The ['dependent'] list holds the subtree
    text of every token whose dependency is advcl, ccomp or xcomp, and the
    ['relative'] list that of every relcl token, in the order of the
    tokens. *)
Theorem find_clauses_lists :
  forall (sentence : str) (doc : Spacy.Doc),
  NLPParser.parse sentence = inr doc ->
  exists clauses,
    NLPParser.find_clauses sentence = inr clauses /\
    NLPParser.main clauses = [] /\
    NLPParser.dependent clauses
    = map (NLPParser.subtree_text doc)
          (filter is_dependent (Spacy.tokens doc)) /\
    NLPParser.relative clauses
    = map (NLPParser.subtree_text doc)
          (filter is_relative (Spacy.tokens doc)).
Proof.
  intros sentence doc Hd. unfold NLPParser.find_clauses. rewrite Hd.
  eexists. split; [reflexivity|].
  exact (clause_fold doc (Spacy.tokens doc)
           {| NLPParser.main := []; NLPParser.dependent := [];
              NLPParser.relative := [] |}).
Qed.

(** X16. [restructure] fails only when the parser does: with a parser that
    answers on every text it returns, whatever the flags, the text and the
    generator state. *)
Theorem restructure_returns :
  forall (text : str) (enable_voice enable_clauses enable_nominalization : bool)
         (g : rng),
  parser_answers ->
  exists out g',
    restructure text enable_voice enable_clauses enable_nominalization g
    = (inr out, g').
Proof.
  intros text v c n g Hp. unfold restructure, bind, call.
  unfold NLPParser.get_sentences, NLPParser.parse.
  destruct (Hp text) as [doc ->].
  destruct (restructure_sentences_returns v c n
              (map strip (Spacy.sents doc)) [] Hp) as [transformed ->].
  assert (exists out conf g',
            vary_sentence_complexity transformed g = (inr (out, conf), g'))
    as [out [conf [g' E]]].
  { unfold vary_sentence_complexity.
    destruct transformed as [|s0 rest] eqn:Es; [do 3 eexists; reflexivity|].
    rewrite <- Es.
    destruct (@vary_loop_balanced G U (length transformed) transformed
                (le_n _) [] g) as [out [g' [E _]]].
    unfold bind. rewrite E. do 3 eexists. reflexivity. }
  rewrite E. do 2 eexists. reflexivity.
Qed.

(** X17. A sentence that the parser does not see as passive, in which it
    finds no dependent clause, and that holds none of the seven
    nominalizations (in its lower-cased form) passes the three sentence
    rules unchanged. *)
Theorem restructure_sentence_identity :
  forall (sent : str) (clauses : NLPParser.Clauses),
  NLPParser.is_passive_voice sent = inr false ->
  NLPParser.find_clauses sent = inr clauses ->
  NLPParser.dependent clauses = [] ->
  (forall nominal verbal, In (nominal, verbal) nominalizations ->
     contains nominal (lower sent) = false) ->
  restructure_sentence true true true sent = inr sent.
Proof.
  intros sent clauses Hv Hc Hd Hn. unfold restructure_sentence.
  rewrite Hv. unfold reorder_clauses. rewrite Hc, Hd.
  change (Qlt_bool (5 # 10) 0) with false. cbv iota.
  unfold reverse_nominalization.
  rewrite (reverse_nominalization_in_untouched nominalizations sent Hn).
  reflexivity.
Qed.

End WithParser.
End SyntaxProperties.

(* ================================================================== *)
(** * The orchestrator: what every run returns *)
(* ================================================================== *)

Module PipelineLayers.
Import HumanizationPipeline Orchestrator.

(** The names that a run can record, in the order of the stages. *)
Definition stage_names (syntax semantics unicode : bool) : list string :=
  (if syntax then ["syntax_restructuring"%string] else [])
  ++ (if semantics then ["semantic_replacement"%string] else [])
  ++ (if unicode then ["unicode_manipulation"%string] else []).

Lemma lstrip_by_nil : forall p s, lstrip_by p s = [] <-> forallb p s = true.
Proof.
  intros p. induction s as [|c s IH]; [split; reflexivity|].
  cbn [lstrip_by forallb]. destruct (p c); [exact IH|].
  split; discriminate.
Qed.

Lemma lstrip_by_head : forall p s c r, lstrip_by p s = c :: r -> p c = false.
Proof.
  intros p. induction s as [|x s IH]; intros c r H; [discriminate|].
  cbn [lstrip_by] in H. destruct (p x) eqn:E; [exact (IH _ _ H)|].
  inversion H; subst. exact E.
Qed.

Lemma forallb_rev : forall (p : N -> bool) s, forallb p (rev s) = forallb p s.
Proof.
  intros p s. destruct (forallb p s) eqn:E.
  - apply forallb_forall. intros x Hx. apply in_rev in Hx.
    rewrite forallb_forall in E. exact (E x Hx).
  - destruct (forallb p (rev s)) eqn:E'; [|reflexivity].
    rewrite <- E. symmetry. apply forallb_forall. intros x Hx.
    rewrite forallb_forall in E'. apply E'. apply in_rev in Hx. exact Hx.
Qed.

Lemma strip_by_nil : forall p s, strip_by p s = [] <-> forallb p s = true.
Proof.
  intros p s. unfold strip_by, rstrip_by. split.
  - intro H. apply (f_equal (@rev N)) in H. rewrite rev_involutive in H.
    cbn [rev] in H. apply lstrip_by_nil in H. rewrite forallb_rev in H.
    destruct (lstrip_by p s) as [|c r] eqn:E; [apply lstrip_by_nil; exact E|].
    pose proof (lstrip_by_head p s E) as Hc. cbn [forallb] in H.
    rewrite Hc in H. discriminate H.
  - intro H. apply lstrip_by_nil in H. rewrite H. reflexivity.
Qed.

(** [not text or not text.strip()]: the text holds white space only. *)
Lemma blank_spec : forall text, blank text = forallb isspace text.
Proof.
  intro text. unfold blank. destruct text as [|c t]; [reflexivity|].
  destruct (strip (c :: t)) as [|x r] eqn:E.
  - symmetry. apply strip_by_nil. exact E.
  - destruct (forallb isspace (c :: t)) eqn:F; [|reflexivity].
    apply strip_by_nil in F. unfold strip in E. congruence.
Qed.

Section WithCollaborators.
Context {G : PyRandom} {U : PyUnicode} {P : NLPModel} {W : WordNetCorpus}
        {O : QualityServices} {FP : PyFloat}.

(** textstat and the similarity model answer. *)
Definition readability_answers : Prop :=
  forall text, exists grade, flesch_kincaid_grade text = inr grade.

Definition similarity_answers : Prop :=
  forall text1 text2, exists score,
    Analyzers.calculate_similarity text1 text2 = inr score.

Lemma metrics_state : forall original modified self r self',
  _calculate_quality_metrics original modified self = (r, self') -> self' = self.
Proof.
  intros original modified self r self' H.
  unfold _calculate_quality_metrics, bind, call, ret in H.
  destruct (Analyzers.compare_flesch_kincaid original modified)
    as [e|[[a b] c]]; [inversion H; reflexivity|].
  destruct (Analyzers.calculate_similarity original modified);
    inversion H; reflexivity.
Qed.

Lemma metrics_return : forall original modified self,
  readability_answers -> similarity_answers ->
  exists m, _calculate_quality_metrics original modified self = (inr m, self).
Proof.
  intros original modified self Hr Hs.
  unfold _calculate_quality_metrics, bind, call, ret,
    Analyzers.compare_flesch_kincaid.
  destruct (Hr original) as [a ->]. destruct (Hr modified) as [b ->].
  destruct (Hs original modified) as [q ->]. eexists. reflexivity.
Qed.

(** The result of a run that was accepted, and of one that was rolled back. *)
Definition accepted (text current : str) (applied : list string)
    (m : QualityMetrics) : Result :=
  {| original := text; humanized := current;
     transformations_applied := applied;
     quality_metrics := Some m; passed_quality_check := true |}.

Definition rolled_back (text : str) (m : QualityMetrics) : Result :=
  {| original := text; humanized := text; transformations_applied := [];
     quality_metrics := Some m; passed_quality_check := false |}.

Definition short_cut (text : str) : Result :=
  {| original := text; humanized := text; transformations_applied := [];
     quality_metrics := None; passed_quality_check := true |}.

Lemma humanize_run : forall text pf self current applied s1 m,
  blank text = false ->
  run_stages text self = (inr (current, applied), s1) ->
  _calculate_quality_metrics text current s1 = (inr m, s1) ->
  humanize text pf self
  = (inr (if final_gate (quality_threshold s1) m
          then accepted text current applied m
          else rolled_back text m), s1).
Proof.
  intros text pf self current applied s1 m Hb Hs Hm.
  unfold humanize. rewrite Hb. unfold bind. rewrite Hs, Hm.
  destruct (final_gate (quality_threshold s1) m); reflexivity.
Qed.

Lemma humanize_cases : forall text pf self r self',
  humanize text pf self = (inr r, self') ->
  (blank text = true /\ r = short_cut text /\ self' = self)
  \/ (blank text = false /\
      exists current applied m,
        run_stages text self = (inr (current, applied), self') /\
        _calculate_quality_metrics text current self' = (inr m, self') /\
        r = if final_gate (quality_threshold self') m
            then accepted text current applied m
            else rolled_back text m).
Proof.
  intros text pf self r self' H.
  destruct (blank text) eqn:Hb.
  - left. unfold humanize in H. rewrite Hb in H. inversion H.
    repeat split.
  - right. split; [reflexivity|].
    destruct (run_stages text self) as [[e|[current applied]] s1] eqn:Hs.
    + unfold humanize in H. rewrite Hb in H. unfold bind in H.
      rewrite Hs in H. discriminate H.
    + destruct (_calculate_quality_metrics text current s1) as [[e|m] s2] eqn:Hm.
      * unfold humanize in H. rewrite Hb in H. unfold bind in H.
        rewrite Hs, Hm in H. discriminate H.
      * pose proof (metrics_state _ _ _ Hm) as ->.
        rewrite (@humanize_run text pf self current applied s1 m Hb Hs Hm) in H.
        inversion H; subst.
        exists current, applied, m. repeat split. exact Hm.
Qed.

Lemma step_syntax_keeps : forall text p, keeps_config (step_syntax text p).
Proof.
  intros text p self. rewrite step_syntax_gated. unfold gated_stage.
  destruct (enable_syntax self); [|apply same_config_refl].
  apply keeps_try; [|intro; apply keeps_ret].
  apply keeps_bind; [apply keeps_on_syntax|]. intro c.
  apply keeps_bind; [apply keeps_call|]. intro s.
  destruct (Qle_bool (quality_threshold self) s); apply keeps_ret.
Qed.

Lemma step_semantics_keeps : forall text p, keeps_config (step_semantics text p).
Proof.
  intros text p self. rewrite step_semantics_gated. unfold gated_stage.
  destruct (enable_semantics self); [|apply same_config_refl].
  apply keeps_try; [|intro; apply keeps_ret].
  apply keeps_bind; [apply keeps_on_semantics|]. intro c.
  apply keeps_bind; [apply keeps_call|]. intro s.
  destruct (Qle_bool (quality_threshold self) s); apply keeps_ret.
Qed.

Lemma step_unicode_keeps : forall p, keeps_config (step_unicode p).
Proof.
  intros p self. rewrite step_unicode_ungated. unfold ungated_stage.
  destruct (enable_unicode self); [|apply same_config_refl].
  apply keeps_try; [|intro; apply keeps_ret].
  apply keeps_bind; [apply keeps_on_space|]. intro c. apply keeps_ret.
Qed.

Lemma ungated_stage_spec :
  forall enabled transform name (p : Progress) self,
  exists p' self',
    ungated_stage enabled transform name p self = (inr p', self') /\
    (p' = p \/
     exists candidate, enabled self = true /\ p' = (candidate, snd p ++ [name])).
Proof.
  intros enabled transform name p self. unfold ungated_stage.
  destruct (enabled self);
    [|exists p, self; split; [reflexivity | left; reflexivity]].
  unfold try_except, bind, ret.
  destruct (transform self (fst p) self) as [[e|c] s1].
  - exists p, s1. split; [reflexivity | left; reflexivity].
  - exists (c, snd p ++ [name]), s1. split; [reflexivity|].
    right. exists c. split; reflexivity.
Qed.

(** The three stages always return; what they record is a selection of the
    three names in the order of the stages, each of an enabled stage; and a
    run that records nothing has left the text as it was. *)
Lemma run_stages_shape : forall text self,
  exists syntax semantics unicode current self',
    run_stages text self
    = (inr (current, stage_names syntax semantics unicode), self') /\
    same_config self self' /\
    (syntax = true -> enable_syntax self = true) /\
    (semantics = true -> enable_semantics self = true) /\
    (unicode = true -> enable_unicode self = true) /\
    (syntax = false -> semantics = false -> unicode = false -> current = text).
Proof.
  intros text self.
  destruct (gated_stage_spec enable_syntax syntax_transform
              "syntax_restructuring" text (text, []) self)
    as [p1 [s1 [E1 H1]]].
  destruct (gated_stage_spec enable_semantics semantics_transform
              "semantic_replacement" text p1 s1) as [p2 [s2 [E2 H2]]].
  destruct (ungated_stage_spec enable_unicode unicode_transform
              "unicode_manipulation" p2 s2) as [p3 [s3 [E3 H3]]].
  rewrite <- step_syntax_gated in E1. rewrite <- step_semantics_gated in E2.
  rewrite <- step_unicode_ungated in E3.
  pose proof (step_syntax_keeps text (text, []) self) as K1.
  pose proof (step_semantics_keeps text p1 s1) as K2.
  pose proof (step_unicode_keeps p2 s2) as K3.
  rewrite E1 in K1. rewrite E2 in K2. rewrite E3 in K3. cbn [snd] in K1, K2, K3.
  pose proof (same_config_trans K1 K2) as K12.
  pose proof (same_config_trans K12 K3) as K123.
  assert (run_stages text self = (inr p3, s3)) as E
    by (unfold run_stages, bind; rewrite E1, E2; exact E3).
  assert (exists b1 : bool,
            snd p1 = stage_names b1 false false /\
            (b1 = true -> enable_syntax self = true) /\
            (b1 = false -> fst p1 = text)) as [b1 [N1 [F1 T1]]].
  { destruct H1 as [->|[c [q [En [_ [_ [_ ->]]]]]]].
    - exists false. split; [reflexivity|]. split; [discriminate | reflexivity].
    - exists true. split; [reflexivity|]. split; [|discriminate].
      intros _. exact En. }
  assert (exists b2 : bool, snd p2 = stage_names b1 b2 false /\
                     (b2 = true -> enable_semantics self = true) /\
                     (b2 = false -> fst p2 = fst p1)) as [b2 [N2 [F2 T2]]].
  { destruct H2 as [->|[c [q [En [_ [_ [_ ->]]]]]]].
    - exists false. split; [exact N1|]. split; [discriminate | reflexivity].
    - exists true. cbn [snd]. rewrite N1. split; [destruct b1; reflexivity|].
      split; [|discriminate]. intros _.
      destruct K1 as [_ [_ [_ [K _]]]]. congruence. }
  assert (exists b3 : bool, snd p3 = stage_names b1 b2 b3 /\
                     (b3 = true -> enable_unicode self = true) /\
                     (b3 = false -> fst p3 = fst p2)) as [b3 [N3 [F3 T3]]].
  { destruct H3 as [->|[c [En ->]]].
    - exists false. split; [exact N2|]. split; [discriminate | reflexivity].
    - exists true. cbn [snd]. rewrite N2.
      split; [destruct b1, b2; reflexivity|].
      split; [|discriminate]. intros _.
      destruct K12 as [_ [K _]]. congruence. }
  exists b1, b2, b3, (fst p3), s3. rewrite <- N3.
  split; [rewrite E; destruct p3; reflexivity|].
  split; [exact K123|]. split; [exact F1|]. split; [exact F2|].
  split; [exact F3|].
  intros B1 B2 B3. rewrite (T3 B3), (T2 B2). exact (T1 B1).
Qed.

(** A method leaves the Space Codec of the object built. *)
Definition keeps_space {A} (m : M obj A) : Prop :=
  forall self,
    SpaceCodec.built (space_manipulator self) ->
    SpaceCodec.built (space_manipulator (snd (m self))).

Lemma space_ret : forall A (a : A), keeps_space (ret a).
Proof. intros A a self H. exact H. Qed.

Lemma space_call : forall A (r : PyExn + A), keeps_space (call r).
Proof. intros A r self H. exact H. Qed.

Lemma space_bind : forall A B (m : M obj A) (k : A -> M obj B),
  keeps_space m -> (forall a, keeps_space (k a)) -> keeps_space (bind m k).
Proof.
  intros A B m k Hm Hk self H. unfold bind. specialize (Hm self H).
  destruct (m self) as [[e|a] s1]; cbn [snd] in *; [exact Hm|].
  apply Hk. exact Hm.
Qed.

Lemma space_try : forall A (m : M obj A) (h : PyExn -> M obj A),
  keeps_space m -> (forall e, keeps_space (h e)) -> keeps_space (try_except m h).
Proof.
  intros A m h Hm Hh self H. unfold try_except. specialize (Hm self H).
  destruct (m self) as [[e|a] s1]; cbn [snd] in *; [|exact Hm].
  apply Hh. exact Hm.
Qed.

Lemma space_on_syntax : forall A (m : M rng A), keeps_space (on_syntax m).
Proof.
  intros A m self H. unfold on_syntax. destruct (m (syntax_random self)).
  exact H.
Qed.

Lemma space_on_semantics : forall A (m : M rng A), keeps_space (on_semantics m).
Proof.
  intros A m self H. unfold on_semantics. destruct (m (semantic_random self)).
  exact H.
Qed.

Lemma space_on_replace_spaces : forall text pb,
  keeps_space (on_space (SpaceManipulator.replace_spaces text pb)).
Proof.
  intros text pb self H. unfold on_space.
  pose proof (SpaceCodec.replace_spaces_built text pb H) as B.
  destruct (SpaceManipulator.replace_spaces text pb (space_manipulator self)).
  exact B.
Qed.

Lemma run_stages_keeps_space : forall text, keeps_space (run_stages text).
Proof.
  intro text. unfold run_stages.
  apply space_bind; [|intro p1; apply space_bind; [|intro p2]].
  - intro self. rewrite step_syntax_gated. unfold gated_stage.
    destruct (enable_syntax self); [|intro H; exact H].
    apply space_try; [|intro; apply space_ret].
    apply space_bind; [apply space_on_syntax|]. intro c.
    apply space_bind; [apply space_call|]. intro s.
    destruct (Qle_bool (quality_threshold self) s); apply space_ret.
  - intro self. rewrite step_semantics_gated. unfold gated_stage.
    destruct (enable_semantics self); [|intro H; exact H].
    apply space_try; [|intro; apply space_ret].
    apply space_bind; [apply space_on_semantics|]. intro c.
    apply space_bind; [apply space_call|]. intro s.
    destruct (Qle_bool (quality_threshold self) s); apply space_ret.
  - intro self. rewrite step_unicode_ungated. unfold ungated_stage.
    destruct (enable_unicode self); [|intro H; exact H].
    apply space_try; [|intro; apply space_ret].
    apply space_bind; [apply space_on_replace_spaces|]. intro c.
    apply space_ret.
Qed.

(** With the two rewriting stages disabled the current text is the text, or
    what [replace_spaces] made of it with the boundaries preserved. *)
Lemma space_only_stages : forall text self,
  enable_syntax self = false -> enable_semantics self = false ->
  SpaceCodec.built (space_manipulator self) ->
  exists current applied self',
    run_stages text self = (inr (current, applied), self') /\
    length current = length text /\
    forall i c, nth_error text i = Some c ->
      c <> SPACE \/ SpaceManipulator.at_boundary text i = true ->
      nth_error current i = Some c.
Proof.
  intros text self Hs Hl Hb. unfold run_stages, bind.
  unfold step_syntax. rewrite Hs. unfold step_semantics. rewrite Hl.
  unfold step_unicode. destruct (enable_unicode self).
  - unfold try_except, bind, on_space.
    destruct (SpaceCodec.replace_spaces_spec text true Hb) as [out [E F]].
    rewrite E. cbn [ret]. do 3 eexists. split; [reflexivity|].
    destruct (@SpaceCodec.Forall2_enumerate_nth _ _ _ _ F) as [L Q].
    split; [exact L|]. intros i c Hi Hc.
    destruct (Q i c Hi) as [c' [E' [W0 _]]]. cbn [Nat.add fst snd] in W0.
    rewrite E'. f_equal. apply W0. unfold SpaceCodec.draw_site.
    destruct Hc as [Hc|Hc].
    + destruct (char_eqb c SPACE) eqn:Ec; [|reflexivity].
      apply N.eqb_eq in Ec. contradiction.
    + rewrite Hc. cbn [andb negb]. apply andb_false_r.
  - do 3 eexists. split; [reflexivity|]. split; [reflexivity|].
    intros i c Hi _. exact Hi.
Qed.

Lemma step_syntax_keeps_space : forall text p, keeps_space (step_syntax text p).
Proof.
  intros text p self. rewrite step_syntax_gated. unfold gated_stage.
  destruct (enable_syntax self); [|intro H; exact H].
  apply space_try; [|intro; apply space_ret].
  apply space_bind; [apply space_on_syntax|]. intro c.
  apply space_bind; [apply space_call|]. intro s.
  destruct (Qle_bool (quality_threshold self) s); apply space_ret.
Qed.

Lemma step_semantics_keeps_space : forall text p,
  keeps_space (step_semantics text p).
Proof.
  intros text p self. rewrite step_semantics_gated. unfold gated_stage.
  destruct (enable_semantics self); [|intro H; exact H].
  apply space_try; [|intro; apply space_ret].
  apply space_bind; [apply space_on_semantics|]. intro c.
  apply space_bind; [apply space_call|]. intro s.
  destruct (Qle_bool (quality_threshold self) s); apply space_ret.
Qed.

(** The Space stage of a built object cannot fail: when it is enabled, its
    name closes the list of the run. *)
Lemma space_stage_applied : forall text self,
  enable_unicode self = true ->
  SpaceCodec.built (space_manipulator self) ->
  exists current earlier self',
    run_stages text self
    = (inr (current, earlier ++ ["unicode_manipulation"%string]), self').
Proof.
  intros text self En Hb.
  destruct (gated_stage_spec enable_syntax syntax_transform
              "syntax_restructuring" text (text, []) self)
    as [p1 [s1 [E1 _]]].
  rewrite <- step_syntax_gated in E1.
  pose proof (step_syntax_keeps text (text, []) self) as K1.
  pose proof (step_syntax_keeps_space text (text, []) self Hb) as B1.
  rewrite E1 in K1, B1. cbn [snd] in K1, B1.
  destruct (gated_stage_spec enable_semantics semantics_transform
              "semantic_replacement" text p1 s1) as [p2 [s2 [E2 _]]].
  rewrite <- step_semantics_gated in E2.
  pose proof (step_semantics_keeps text p1 s1) as K2.
  pose proof (step_semantics_keeps_space text p1 s1 B1) as B2.
  rewrite E2 in K2, B2. cbn [snd] in K2, B2.
  assert (enable_unicode s2 = true) as En2.
  { destruct K1 as [_ [K1 _]]. destruct K2 as [_ [K2 _]]. congruence. }
  destruct p2 as [current applied].
  destruct (SpaceCodec.replace_spaces_spec current true B2) as [out [E _]].
  unfold run_stages, bind. rewrite E1, E2.
  unfold step_unicode. rewrite En2. unfold try_except, bind, on_space.
  rewrite E. cbn [ret]. do 3 eexists. reflexivity.
Qed.

End WithCollaborators.
End PipelineLayers.

Module PipelineProperties.
Import HumanizationPipeline Orchestrator PipelineLayers.

Section WithCollaborators.
Context {G : PyRandom} {U : PyUnicode} {P : NLPModel} {W : WordNetCorpus}
        {O : QualityServices} {FP : PyFloat}.

(** X18. The short cut: a text that holds white space only (the empty text
    included) is returned as it is, with no transformation, the empty
    metrics and a passed check; no stage runs, no service is called, and the
    object is left as it was. *)
Theorem humanize_blank_text :
  forall (text : str) (preserve_formatting : bool) (self : obj),
  (forall c, In c text -> isspace c = true) ->
  humanize text preserve_formatting self
  = (inr {| original := text; humanized := text;
            transformations_applied := []; quality_metrics := None;
            passed_quality_check := true |}, self).
Proof.
  intros text pf self H. unfold humanize.
  rewrite blank_spec. apply forallb_forall in H. rewrite H. reflexivity.
Qed.

(** X19. What every result of [humanize] satisfies: ['original'] is the
    input; ['transformations_applied'] is a selection of the three stage
    names in the order syntax, semantic, unicode, and names enabled stages
    only; and when it is empty, ['humanized'] is the input itself. *)
Theorem humanize_result_shape :
  forall (text : str) (preserve_formatting : bool) (self : obj)
         (r : Result) (self' : obj),
  humanize text preserve_formatting self = (inr r, self') ->
  original r = text /\
  (exists syntax semantics unicode,
     transformations_applied r = stage_names syntax semantics unicode /\
     (syntax = true -> enable_syntax self = true) /\
     (semantics = true -> enable_semantics self = true) /\
     (unicode = true -> enable_unicode self = true)) /\
  (transformations_applied r = [] -> humanized r = text).
Proof.
  intros text pf self r self' H.
  destruct (humanize_cases _ _ _ H)
    as [[_ [-> _]]|[_ [current [applied [m [Hs [_ ->]]]]]]].
  - split; [reflexivity|]. split; [|reflexivity].
    exists false, false, false. repeat split; discriminate.
  - destruct (run_stages_shape text self)
      as [b1 [b2 [b3 [cur [s [E [_ [F1 [F2 [F3 T]]]]]]]]]].
    rewrite Hs in E. inversion E; subst cur s applied. clear E.
    destruct (final_gate (quality_threshold self') m).
    + split; [reflexivity|]. split.
      * exists b1, b2, b3. repeat split; assumption.
      * cbn [transformations_applied humanized accepted]. intro N.
        apply T; destruct b1, b2, b3; try reflexivity; discriminate N.
    + split; [reflexivity|]. split; [|reflexivity].
      exists false, false, false. repeat split; discriminate.
Qed.

(** X20. [humanize] fails only when the final metrics do: if textstat and
    the similarity model answer, it returns a result for every text and
    every state of the object, whatever the parser and WordNet do (the
    failure of a stage is caught and the stage skipped). *)
Theorem humanize_returns :
  forall (text : str) (preserve_formatting : bool) (self : obj),
  readability_answers -> similarity_answers ->
  exists r self', humanize text preserve_formatting self = (inr r, self').
Proof.
  intros text pf self Hr Hs.
  destruct (blank text) eqn:Hb.
  - unfold humanize. rewrite Hb. do 2 eexists. reflexivity.
  - destruct (run_stages_shape text self)
      as [b1 [b2 [b3 [cur [s [E _]]]]]].
    destruct (metrics_return text cur s Hr Hs) as [m Hm].
    rewrite (@humanize_run _ _ _ _ _ _ text pf self cur _ s m Hb E Hm).
    do 2 eexists. reflexivity.
Qed.

(** X21. Without a sentence-transformer model ([self.model] is [None],
    every similarity is 0.0) a pipeline with a positive threshold rolls back
    every run: the result of a text that is not blank is the original text,
    no transformation, and a failed check. *)
Theorem humanize_without_model :
  forall (text : str) (preserve_formatting : bool) (self : obj),
  sentence_model = None ->
  readability_answers ->
  0 < quality_threshold self ->
  blank text = false ->
  exists m self',
    humanize text preserve_formatting self
    = (inr {| original := text; humanized := text;
              transformations_applied := [];
              quality_metrics := Some m;
              passed_quality_check := false |}, self') /\
    semantic_similarity m = 0.
Proof.
  intros text pf self Hn Hr Ht Hb.
  destruct (run_stages_shape text self)
    as [b1 [b2 [b3 [cur [s [E [K _]]]]]]].
  assert (similarity_answers) as Hs.
  { intros a b. unfold Analyzers.calculate_similarity. rewrite Hn.
    eexists. reflexivity. }
  destruct (metrics_return text cur s Hr Hs) as [m Hm].
  assert (semantic_similarity m = 0) as Hz.
  { unfold _calculate_quality_metrics, bind, call, ret,
      Analyzers.calculate_similarity in Hm. rewrite Hn in Hm.
    destruct (Analyzers.compare_flesch_kincaid text cur) as [e|[[a b] c]];
      [discriminate|].
    inversion Hm. reflexivity. }
  exists m, s. split; [|exact Hz].
  rewrite (@humanize_run _ _ _ _ _ _ text pf self cur _ s m Hb E Hm).
  assert (final_gate (quality_threshold s) m = false) as Hg.
  { unfold final_gate. rewrite Hz.
    destruct K as [_ [_ [_ [_ [_ K]]]]]. rewrite <- K.
    destruct (Qle_bool (quality_threshold self) 0) eqn:Q; [|reflexivity].
    apply Qle_bool_iff in Q. exfalso. exact (Qlt_not_le _ _ Ht Q). }
  rewrite Hg. reflexivity.
Qed.

(** X22. With syntax and semantics disabled, the humanized text has the
    length of the input and agrees with it at every position that does not
    hold an ASCII space, and at every boundary position (first, last, next
    to a newline): the pipeline calls [replace_spaces] with
    [preserve_boundaries=True]. *)
Theorem humanize_space_only :
  forall (text : str) (preserve_formatting : bool) (self : obj)
         (r : Result) (self' : obj),
  enable_syntax self = false -> enable_semantics self = false ->
  SpaceCodec.built (space_manipulator self) ->
  humanize text preserve_formatting self = (inr r, self') ->
  length (humanized r) = length text /\
  forall i c, nth_error text i = Some c ->
    c <> SPACE \/ SpaceManipulator.at_boundary text i = true ->
    nth_error (humanized r) i = Some c.
Proof.
  intros text pf self r self' Hs Hl Hb H.
  destruct (humanize_cases _ _ _ H)
    as [[_ [-> _]]|[_ [current [applied [m [Hr [_ ->]]]]]]].
  - split; [reflexivity|]. intros i c Hi _. exact Hi.
  - destruct (@space_only_stages _ _ _ _ _ text self Hs Hl Hb) as [cur [app [s [E [L Q]]]]].
    rewrite Hr in E. inversion E; subst cur app s. clear E.
    destruct (final_gate (quality_threshold self') m).
    + split; [exact L | exact Q].
    + split; [reflexivity|]. intros i c Hi _. exact Hi.
Qed.

(** X23. [humanize] never changes the configuration of the object
    (intensity, the three switches, formality, threshold), whether it
    returns or raises, and it leaves the Space Codec as the constructor
    built it; only the three generators advance. *)
Theorem humanize_keeps_configuration :
  forall (text : str) (preserve_formatting : bool) (self : obj),
  same_config self (snd (humanize text preserve_formatting self)) /\
  (SpaceCodec.built (space_manipulator self) ->
   SpaceCodec.built
     (space_manipulator (snd (humanize text preserve_formatting self)))).
Proof.
  intros text pf self. unfold humanize.
  destruct (blank text); [split; [apply same_config_refl | intro H; exact H]|].
  pose proof (run_stages_keeps_config text self) as K.
  pose proof (run_stages_keeps_space text self) as B.
  unfold bind.
  destruct (run_stages text self) as [[e|[current applied]] s1];
    cbn [snd] in *; [split; assumption|].
  destruct (_calculate_quality_metrics text current s1) as [[e|m] s2] eqn:Hm;
    pose proof (metrics_state _ _ _ Hm) as ->; cbn [snd].
  - split; assumption.
  - destruct (negb (final_gate (quality_threshold s1) m)); cbn [snd];
      split; assumption.
Qed.

(** X24. [batch_humanize] returns one result per text, in the order of the
    texts: the ['original'] of the k-th result is the k-th text. *)
Theorem batch_humanize_in_order :
  forall (texts : list str) (self : obj) (results : list Result) (self' : obj),
  batch_humanize texts [] self = (inr results, self') ->
  Forall2 (fun text r => original r = text) texts results.
Proof.
  intros texts self results self' H.
  assert (forall texts acc self results self',
            batch_humanize texts acc self = (inr results, self') ->
            exists new, results = acc ++ new /\
                        Forall2 (fun text r => original r = text) texts new)
    as Gen.
  { clear. induction texts as [|text rest IH]; intros acc self results self' H.
    - cbn [batch_humanize ret] in H. inversion H; subst.
      exists []. rewrite app_nil_r. split; [reflexivity | constructor].
    - cbn [batch_humanize] in H. unfold bind in H.
      destruct (humanize text true self) as [[e|r] s1] eqn:Eh; [discriminate|].
      destruct (IH _ _ _ _ H) as [new [-> F]].
      exists (r :: new). rewrite <- app_assoc. split; [reflexivity|].
      constructor; [|exact F].
      destruct (humanize_cases _ _ _ Eh)
        as [[_ [-> _]]|[_ [current [applied [m [_ [_ ->]]]]]]];
        [reflexivity|].
      destruct (final_gate (quality_threshold s1) m); reflexivity. }
  destruct (Gen _ _ _ _ _ H) as [new [-> F]]. exact F.
Qed.

(** X30. For an object whose Space Codec is as the constructor built it,
    the Space stage cannot fail: when it is enabled, every accepted run on a
    text that is not blank lists [unicode_manipulation], as the last of its
    transformations. *)
Theorem humanize_records_space_stage :
  forall (text : str) (preserve_formatting : bool) (self : obj)
         (r : Result) (self' : obj),
  enable_unicode self = true ->
  SpaceCodec.built (space_manipulator self) ->
  blank text = false ->
  humanize text preserve_formatting self = (inr r, self') ->
  passed_quality_check r = true ->
  exists earlier,
    transformations_applied r = earlier ++ ["unicode_manipulation"%string].
Proof.
  intros text pf self r self' En Hb Hn H Hp.
  destruct (humanize_cases _ _ _ H)
    as [[Hblank _]|[_ [current [applied [m [Hs [_ ->]]]]]]]; [congruence|].
  destruct (@space_stage_applied _ _ _ _ _ text self En Hb)
    as [cur [earlier [s E]]].
  rewrite Hs in E. inversion E; subst cur applied s. clear E.
  destruct (final_gate (quality_threshold self') m); [|discriminate Hp].
  exists earlier. reflexivity.
Qed.

End WithCollaborators.
End PipelineProperties.

(* ================================================================== *)
(** * [src/utils/text_processing.py] *)
(* ================================================================== *)

Module TextProcessing.

(** [s.split(sep)] for a separator that is not empty (the two uses of the
    module have the constants ['\n'] and ['\n\n']): the parts between the
    occurrences of [sep], found from left to right without overlap. [cur] is
    the part being read and [skip] the number of characters of an occurrence
    still to pass. *)
Fixpoint split_from (sep : str) (skip : nat) (cur : str) (s : str) : list str :=
  match s with
  | [] => [cur]
  | c :: s' =>
      match skip with
      | S k => split_from sep k cur s'
      | O =>
          if startswith sep s
          then cur :: split_from sep (length sep - 1) [] s'
          else split_from sep 0 (cur ++ [c]) s'
      end
  end.

Definition split_on (sep s : str) : list str := split_from sep 0 [] s.

Definition LINE : str := [NEWLINE].
Definition PARAGRAPH : str := [NEWLINE; NEWLINE].

(** [re.sub] of a run pattern: [re.sub(r' +', ' ', text)] is [squeeze SPACE 1]
    and [re.sub(r'\n\n+', '\n\n', text)] is [squeeze NEWLINE 2]. Every
    maximal run of [c] keeps its first [k] characters; [run] is the number
    of [c] just read. *)
Fixpoint squeeze_from (c : char) (k run : nat) (s : str) : str :=
  match s with
  | [] => []
  | x :: s' =>
      if char_eqb x c then
        if Nat.ltb run k then x :: squeeze_from c k (S run) s'
        else squeeze_from c k (S run) s'
      else x :: squeeze_from c k 0 s'
  end.

Definition squeeze (c : char) (k : nat) (s : str) : str := squeeze_from c k 0 s.

(** [normalize_whitespace(text)]. *)
Definition normalize_whitespace (text : str) : str :=
  let text := squeeze SPACE 1 text in
  let text := squeeze NEWLINE 2 text in
  let lines := split_on LINE text in
  let lines := map strip lines in
  join LINE lines.

(** [len(orig_line) - len(orig_line.lstrip())]. *)
Definition leading (line : str) : nat :=
  length line - length (lstrip_by isspace line).

(** [preserve_formatting(original, modified)]. *)
Definition preserve_formatting (original modified : str) : str :=
  let orig_lines := split_on LINE original in
  let mod_lines := split_on LINE modified in
  if Nat.eqb (length orig_lines) (length mod_lines) then
    join LINE
      (map (fun lines : str * str =>
              List.repeat SPACE (leading (fst lines)) ++ strip (snd lines))
           (List.combine orig_lines mod_lines))
  else modified.

(** The loop of [split_into_chunks] over the paragraphs, with [chunks],
    [current_chunk] and [current_size], and the flush after it. *)
Fixpoint chunk_loop (max_chunk_size : Z) (paragraphs : list str)
    (chunks : list str) (current_chunk : list str) (current_size : Z)
  : list str :=
  match paragraphs with
  | [] =>
      match current_chunk with
      | [] => chunks
      | _ :: _ => chunks ++ [join PARAGRAPH current_chunk]
      end
  | para :: rest =>
      let para_size := Z.of_nat (length para) in
      if Z.ltb max_chunk_size (current_size + para_size)
         && match current_chunk with [] => false | _ :: _ => true end
      then chunk_loop max_chunk_size rest
             (chunks ++ [join PARAGRAPH current_chunk]) [para] para_size
      else chunk_loop max_chunk_size rest chunks (current_chunk ++ [para])
             (current_size + para_size)
  end.

(** [split_into_chunks(text, max_chunk_size)]. *)
Definition split_into_chunks (text : str) (max_chunk_size : Z) : list str :=
  chunk_loop max_chunk_size (split_on PARAGRAPH text) [] [] 0.

End TextProcessing.

Module TextProcessingLemmas.
Import TextProcessing.

Lemma startswith_app : forall sep s,
  startswith sep s = true -> exists rest, s = sep ++ rest.
Proof.
  induction sep as [|p sep IH]; intros s H.
  - exists s. reflexivity.
  - destruct s as [|c s]; [discriminate|]. cbn [startswith] in H.
    apply andb_true_iff in H. destruct H as [Hc H]. apply N.eqb_eq in Hc.
    destruct (IH s H) as [rest ->]. exists rest. subst c. reflexivity.
Qed.

Lemma split_from_skip : forall sep pre rest cur,
  split_from sep (length pre) cur (pre ++ rest) = split_from sep 0 cur rest.
Proof.
  intros sep. induction pre as [|c pre IH]; intros rest cur; [reflexivity|].
  cbn [length app split_from]. apply IH.
Qed.

Lemma split_from_not_nil : forall sep s skip cur, split_from sep skip cur s <> [].
Proof.
  intros sep. induction s as [|c s IH]; intros skip cur; [discriminate|].
  cbn [split_from]. destruct skip; [|apply IH].
  destruct (startswith sep (c :: s)); [discriminate | apply IH].
Qed.

Lemma join_cons : forall sep (p : str) parts,
  parts <> [] -> join sep (p :: parts) = p ++ sep ++ join sep parts.
Proof. intros sep p [|q parts] H; [congruence | reflexivity]. Qed.

(** [sep.join(s.split(sep)) == s]. *)
Lemma join_split_from : forall sep, sep <> [] ->
  forall n s, (length s <= n)%nat ->
  forall cur, join sep (split_from sep 0 cur s) = cur ++ s.
Proof.
  intros sep Hsep. induction n as [|n IH]; intros s Hn cur.
  - destruct s; [|cbn [length] in Hn; lia]. cbn. rewrite app_nil_r. reflexivity.
  - destruct s as [|c s]; [cbn; rewrite app_nil_r; reflexivity|].
    cbn [split_from]. destruct (startswith sep (c :: s)) eqn:E.
    + destruct (startswith_app _ _ E) as [rest Hr].
      destruct sep as [|p sep']; [congruence|].
      cbn [app] in Hr. inversion Hr; subst.
      cbn [length Nat.sub]. rewrite Nat.sub_0_r, split_from_skip.
      rewrite join_cons by apply split_from_not_nil.
      rewrite IH.
      * reflexivity.
      * cbn [length] in Hn. rewrite length_app in Hn. lia.
    + rewrite IH by (cbn [length] in Hn; lia).
      rewrite <- app_assoc. reflexivity.
Qed.

Lemma join_split_on : forall sep s,
  sep <> [] -> join sep (split_on sep s) = s.
Proof.
  intros sep s H. unfold split_on.
  exact (@join_split_from sep H (length s) s (le_n _) []).
Qed.

(** A one-character separator: the parts hold no separator, and splitting a
    join of such parts gives the parts back. *)
Lemma split_char_parts : forall a s cur,
  ~ In a cur -> Forall (fun part => ~ In a part) (split_from [a] 0 cur s).
Proof.
  intros a. induction s as [|c s IH]; intros cur Hc.
  - constructor; [exact Hc | constructor].
  - cbn [split_from startswith length Nat.sub]. unfold char_eqb.
    destruct (N.eqb_spec a c) as [->|Hne]; cbn [andb].
    + constructor; [exact Hc|]. apply IH. intros [].
    + apply IH. intro H. apply in_app_or in H.
      destruct H as [H|[H|[]]]; [exact (Hc H) | congruence].
Qed.

Lemma split_char_app : forall a part rest cur,
  ~ In a part ->
  split_from [a] 0 cur (part ++ rest) = split_from [a] 0 (cur ++ part) rest.
Proof.
  intros a. induction part as [|c part IH]; intros rest cur H.
  - rewrite app_nil_r. reflexivity.
  - cbn [app split_from startswith]. unfold char_eqb.
    destruct (N.eqb_spec a c) as [->|Hne];
      [exfalso; apply H; left; reflexivity|].
    cbn [andb]. rewrite IH by (intro Hin; apply H; right; exact Hin).
    rewrite <- app_assoc. reflexivity.
Qed.

Lemma split_join_char : forall a parts part cur,
  Forall (fun p => ~ In a p) (part :: parts) ->
  split_from [a] 0 cur (join [a] (part :: parts)) = (cur ++ part) :: parts.
Proof.
  intros a. induction parts as [|q parts IH]; intros part cur H.
  - inversion H; subst. cbn [join].
    rewrite <- (app_nil_r part) at 1. rewrite split_char_app by assumption.
    reflexivity.
  - inversion H as [|? ? Hp Hrest]; subst.
    rewrite join_cons by discriminate.
    rewrite split_char_app by exact Hp.
    cbn [app split_from startswith length Nat.sub]. unfold char_eqb.
    rewrite N.eqb_refl. cbn [andb].
    rewrite (IH q [] Hrest). reflexivity.
Qed.

Lemma split_on_join_lines : forall lines,
  lines <> [] -> Forall (fun l => ~ In NEWLINE l) lines ->
  split_on LINE (join LINE lines) = lines.
Proof.
  intros [|l lines] Hne H; [congruence|].
  unfold split_on, LINE. rewrite (@split_join_char NEWLINE lines l [] H).
  reflexivity.
Qed.

Lemma split_on_lines_clean : forall s,
  Forall (fun l => ~ In NEWLINE l) (split_on LINE s).
Proof. intro s. apply split_char_parts. intros []. Qed.

Lemma lstrip_by_incl : forall p s x, In x (lstrip_by p s) -> In x s.
Proof.
  intros p. induction s as [|c s IH]; intros x H; [exact H|].
  cbn [lstrip_by] in H. destruct (p c); [right; apply IH; exact H | exact H].
Qed.

Lemma strip_by_incl : forall p s x, In x (strip_by p s) -> In x s.
Proof.
  intros p s x H. unfold strip_by, rstrip_by in H.
  apply in_rev in H. apply lstrip_by_incl in H. apply in_rev in H.
  apply lstrip_by_incl in H. exact H.
Qed.

(** A stripped string neither starts nor ends with a character of the
    class. *)
Lemma strip_by_first : forall p s c r, strip_by p s = c :: r -> p c = false.
Proof.
  intros p s c r H. unfold strip_by, rstrip_by in H.
  destruct (lstrip_by p s) as [|x t] eqn:E; [discriminate H|].
  pose proof (PipelineLayers.lstrip_by_head p s E) as Hx.
  assert (forall l, exists l', lstrip_by p (l ++ [x]) = l' ++ [x]) as Hl.
  { induction l as [|y l IH].
    - exists []. cbn [app lstrip_by]. rewrite Hx. reflexivity.
    - cbn [app lstrip_by]. destruct (p y); [exact IH|].
      exists (y :: l). reflexivity. }
  cbn [rev] in H. destruct (Hl (rev t)) as [l' El]. rewrite El in H.
  rewrite rev_app_distr in H. cbn [rev app] in H. inversion H; subst.
  exact Hx.
Qed.

Lemma strip_by_last : forall p s c r, strip_by p s = r ++ [c] -> p c = false.
Proof.
  intros p s c r H. unfold strip_by, rstrip_by in H.
  apply (f_equal (@rev N)) in H. rewrite rev_involutive, rev_app_distr in H.
  cbn [rev app] in H. exact (PipelineLayers.lstrip_by_head _ _ H).
Qed.

Lemma lstrip_by_stop : forall p s,
  (forall c r, s = c :: r -> p c = false) -> lstrip_by p s = s.
Proof.
  intros p [|c s] H; [reflexivity|]. cbn [lstrip_by].
  rewrite (H c s eq_refl). reflexivity.
Qed.

Lemma lstrip_by_pass : forall p pre s,
  Forall (fun c => p c = true) pre -> lstrip_by p (pre ++ s) = lstrip_by p s.
Proof.
  intros p. induction pre as [|c pre IH]; intros s H; [reflexivity|].
  inversion H; subst. cbn [app lstrip_by].
  match goal with Hc : p c = true |- _ => rewrite Hc end. apply IH. assumption.
Qed.

Lemma strip_by_stripped : forall p s, strip_by p (strip_by p s) = strip_by p s.
Proof.
  intros p s. unfold strip_by at 1.
  rewrite (@lstrip_by_stop p (strip_by p s)) by (apply strip_by_first).
  unfold rstrip_by.
  rewrite (@lstrip_by_stop p (rev (strip_by p s))).
  - apply rev_involutive.
  - intros c r H. apply (f_equal (@rev N)) in H. rewrite rev_involutive in H.
    cbn [rev] in H. eapply strip_by_last. exact H.
Qed.

(** The invariant of the loop of [split_into_chunks]. *)
Definition within (max_chunk_size : Z) (group : list str) : Prop :=
  group <> [] /\
  (length group = 1%nat \/
   (Z.of_nat (length (concat group)) <= max_chunk_size)%Z).

Lemma chunk_loop_groups : forall max paragraphs chunks current size,
  size = Z.of_nat (length (concat current)) ->
  (current = [] \/ within max current) ->
  exists groups,
    chunk_loop max paragraphs chunks current size
    = chunks ++ map (join PARAGRAPH) groups /\
    concat groups = current ++ paragraphs /\
    Forall (within max) groups.
Proof.
  intros max. induction paragraphs as [|para rest IH];
    intros chunks current size Hs Hc.
  - cbn [chunk_loop]. destruct current as [|p0 current'] eqn:E.
    + exists []. cbn [map concat app]. rewrite app_nil_r.
      split; [reflexivity|]. split; [reflexivity | constructor].
    + rewrite <- E in *. exists [current]. cbn [map concat].
      rewrite !app_nil_r. split; [reflexivity|]. split; [reflexivity|].
      constructor; [|constructor].
      destruct Hc as [Hc|Hc]; [congruence | exact Hc].
  - cbn [chunk_loop].
    destruct (Z.ltb max (size + Z.of_nat (length para))
              && match current with [] => false | _ :: _ => true end) eqn:Ec.
    + apply andb_true_iff in Ec. destruct Ec as [_ Hne].
      assert (within max current) as Hw.
      { destruct Hc as [->|Hw]; [discriminate Hne | exact Hw]. }
      destruct (IH (chunks ++ [join PARAGRAPH current]) [para]
                   (Z.of_nat (length para))) as [groups [E [C F]]].
      * cbn [concat]. rewrite app_nil_r. reflexivity.
      * right. split; [discriminate | left; reflexivity].
      * exists (current :: groups). rewrite E. cbn [map concat].
        rewrite <- app_assoc. split; [reflexivity|].
        split; [rewrite C; reflexivity|]. constructor; assumption.
    + destruct (IH chunks (current ++ [para])
                   (size + Z.of_nat (length para))%Z) as [groups [E [C F]]].
      * rewrite concat_app, length_app. cbn [concat].
        rewrite app_nil_r. lia.
      * right. split; [destruct current; discriminate|].
        destruct current as [|p0 current'] eqn:Ecur; [left; reflexivity|].
        right. rewrite <- Ecur in *.
        rewrite andb_true_r in Ec. apply Z.ltb_ge in Ec.
        rewrite concat_app, length_app. cbn [concat].
        rewrite app_nil_r. lia.
      * exists groups. rewrite E. split; [reflexivity|].
        split; [rewrite C, <- app_assoc; reflexivity | exact F].
Qed.

(** An indented line: [n] spaces before a stripped string. *)
Lemma indented_line : forall (n : nat) (s : str),
  leading (List.repeat SPACE n ++ strip s) = n /\
  strip (List.repeat SPACE n ++ strip s) = strip s.
Proof.
  intros n s.
  assert (lstrip_by isspace (List.repeat SPACE n ++ strip s) = strip s) as E.
  { rewrite lstrip_by_pass.
    - apply lstrip_by_stop. intros c r H. eapply strip_by_first. exact H.
    - apply Forall_forall. intros c Hc. apply repeat_spec in Hc. subst c.
      reflexivity. }
  split.
  - unfold leading. rewrite E, length_app, repeat_length. lia.
  - unfold strip, strip_by at 1. fold (strip s). rewrite E.
    pose proof (strip_by_stripped isspace s) as H.
    unfold strip_by at 1 in H. fold (strip s) in H.
    rewrite (@lstrip_by_stop isspace (strip s)) in H; [exact H|].
    intros c r Hc. eapply strip_by_first. exact Hc.
Qed.

Lemma preserve_formatting_split : forall original modified,
  length (split_on LINE original) = length (split_on LINE modified) ->
  split_on LINE (preserve_formatting original modified)
  = map (fun lines : str * str =>
           List.repeat SPACE (leading (fst lines)) ++ strip (snd lines))
        (List.combine (split_on LINE original) (split_on LINE modified)).
Proof.
  intros original modified L. unfold preserve_formatting.
  rewrite L, Nat.eqb_refl. apply split_on_join_lines.
  - intro E. apply map_eq_nil in E.
    pose proof (@split_from_not_nil LINE original 0 []) as H1.
    pose proof (@split_from_not_nil LINE modified 0 []) as H2.
    unfold split_on in *.
    destruct (split_from LINE 0 [] original); [congruence|].
    destruct (split_from LINE 0 [] modified); [congruence|].
    discriminate E.
  - apply Forall_forall. intros l Hl. apply in_map_iff in Hl.
    destruct Hl as [[lo lm] [<- Hin]]. cbn [fst snd].
    apply in_combine_r in Hin. intro Hn. apply in_app_or in Hn.
    destruct Hn as [Hn|Hn].
    + apply repeat_spec in Hn. discriminate Hn.
    + apply strip_by_incl in Hn.
      pose proof (split_on_lines_clean modified) as Hc.
      rewrite Forall_forall in Hc. exact (Hc lm Hin Hn).
Qed.

(** ['  ' in s], step by step. *)
Definition DOUBLE_SPACE : str := [SPACE; SPACE].

Definition starts_space (s : str) : bool :=
  match s with
  | c :: _ => char_eqb SPACE c
  | [] => false
  end.

Lemma contains_double_cons : forall x s,
  contains DOUBLE_SPACE (x :: s)
  = (char_eqb SPACE x && starts_space s) || contains DOUBLE_SPACE s.
Proof.
  intros x [|y s]; cbn [contains startswith DOUBLE_SPACE starts_space].
  - rewrite andb_false_r. reflexivity.
  - rewrite andb_true_r. reflexivity.
Qed.

Lemma starts_space_app : forall a b,
  a <> [] -> starts_space (a ++ b) = starts_space a.
Proof. intros [|x a] b H; [congruence | reflexivity]. Qed.

Lemma clean_app_l : forall a b,
  contains DOUBLE_SPACE (a ++ b) = false -> contains DOUBLE_SPACE a = false.
Proof.
  induction a as [|x a IH]; intros b H; [reflexivity|].
  cbn [app] in H. rewrite contains_double_cons in *.
  apply orb_false_iff in H. destruct H as [H1 H2].
  apply orb_false_iff. split; [|exact (IH b H2)].
  destruct a as [|y a]; [apply andb_false_r|].
  rewrite starts_space_app in H1 by discriminate. exact H1.
Qed.

Lemma clean_app_r : forall a b,
  contains DOUBLE_SPACE (a ++ b) = false -> contains DOUBLE_SPACE b = false.
Proof.
  induction a as [|x a IH]; intros b H; [exact H|].
  cbn [app] in H. rewrite contains_double_cons in H.
  apply orb_false_iff in H. apply IH. apply H.
Qed.

Lemma clean_around_newline : forall a b,
  contains DOUBLE_SPACE a = false -> contains DOUBLE_SPACE b = false ->
  contains DOUBLE_SPACE (a ++ NEWLINE :: b) = false.
Proof.
  induction a as [|x a IH]; intros b Ha Hb.
  - cbn [app]. rewrite contains_double_cons. rewrite Hb. reflexivity.
  - cbn [app]. rewrite contains_double_cons in *.
    apply orb_false_iff in Ha. destruct Ha as [H1 H2].
    rewrite (IH b H2 Hb), orb_false_r.
    destruct a as [|y a]; [cbn; apply andb_false_r|].
    rewrite starts_space_app by discriminate. exact H1.
Qed.

Lemma lstrip_by_suffix : forall p s, exists pre, s = pre ++ lstrip_by p s.
Proof.
  intros p. induction s as [|c s [pre IH]]; [exists []; reflexivity|].
  cbn [lstrip_by]. destruct (p c).
  - exists (c :: pre). cbn [app]. f_equal. exact IH.
  - exists []. reflexivity.
Qed.

Lemma clean_strip : forall p s,
  contains DOUBLE_SPACE s = false -> contains DOUBLE_SPACE (strip_by p s) = false.
Proof.
  intros p s H. unfold strip_by, rstrip_by.
  destruct (lstrip_by_suffix p s) as [pre E].
  rewrite E in H. apply clean_app_r in H.
  destruct (lstrip_by_suffix p (rev (lstrip_by p s))) as [pre' E'].
  apply (f_equal (@rev N)) in E'. rewrite rev_involutive, rev_app_distr in E'.
  rewrite E' in H. exact (clean_app_l _ _ H).
Qed.

Lemma clean_lines : forall s cur,
  contains DOUBLE_SPACE (cur ++ s) = false ->
  Forall (fun line => contains DOUBLE_SPACE line = false)
         (split_from LINE 0 cur s).
Proof.
  induction s as [|x s IH]; intros cur H.
  - rewrite app_nil_r in H. constructor; [exact H | constructor].
  - cbn [split_from LINE startswith length Nat.sub]. unfold char_eqb.
    destruct (N.eqb_spec NEWLINE x) as [<-|Hne]; cbn [andb].
    + constructor; [exact (clean_app_l _ _ H)|].
      apply (IH []). apply clean_app_r in H.
      rewrite contains_double_cons in H. apply orb_false_iff in H. apply H.
    + apply IH. rewrite <- app_assoc. exact H.
Qed.

Lemma clean_join : forall lines,
  Forall (fun line => contains DOUBLE_SPACE line = false) lines ->
  contains DOUBLE_SPACE (join LINE lines) = false.
Proof.
  intros lines H. induction H as [|l [|l' lines] Hl Hrest IH]; [reflexivity| |].
  - exact Hl.
  - rewrite join_cons by discriminate.
    apply clean_around_newline; [exact Hl | exact IH].
Qed.

(** After [re.sub(r' +', ' ', text)] no two spaces are adjacent. *)
Lemma squeeze_spaces_clean : forall s run,
  contains DOUBLE_SPACE (squeeze_from SPACE 1 run s) = false /\
  ((1 <= run)%nat -> starts_space (squeeze_from SPACE 1 run s) = false).
Proof.
  induction s as [|x s IH]; intro run; [split; reflexivity|].
  cbn [squeeze_from]. destruct (char_eqb x SPACE) eqn:Ex.
  - destruct (Nat.ltb run 1) eqn:Er.
    + apply Nat.ltb_lt in Er. destruct (IH (S run)) as [C S1]. split; [|lia].
      rewrite contains_double_cons, C, (S1 ltac:(lia)), andb_false_r.
      reflexivity.
    + destruct (IH (S run)) as [C S1]. split; [exact C|].
      intros _. apply S1. lia.
  - destruct (IH 0%nat) as [C _].
    assert (char_eqb SPACE x = false) as Ex'
      by (unfold char_eqb in *; rewrite N.eqb_sym; exact Ex).
    split.
    + rewrite contains_double_cons, C, Ex'. reflexivity.
    + intros _. exact Ex'.
Qed.

(** [re.sub(r'\n\n+', '\n\n', text)] brings no two spaces together. *)
Lemma squeeze_newlines_head : forall s run,
  (run < 2)%nat ->
  starts_space (squeeze_from NEWLINE 2 run s) = starts_space s.
Proof.
  intros [|x s] run H; [reflexivity|]. cbn [squeeze_from].
  destruct (char_eqb x NEWLINE); [|reflexivity].
  apply Nat.ltb_lt in H. rewrite H. reflexivity.
Qed.

Lemma squeeze_newlines_clean : forall s run,
  contains DOUBLE_SPACE s = false ->
  contains DOUBLE_SPACE (squeeze_from NEWLINE 2 run s) = false.
Proof.
  induction s as [|x s IH]; intros run H; [reflexivity|].
  rewrite contains_double_cons in H. apply orb_false_iff in H.
  destruct H as [H1 H2]. cbn [squeeze_from].
  destruct (char_eqb x NEWLINE) eqn:Ex.
  - apply N.eqb_eq in Ex. subst x.
    destruct (Nat.ltb run 2); [|exact (IH _ H2)].
    rewrite contains_double_cons, (IH _ H2). reflexivity.
  - rewrite contains_double_cons, (IH _ H2), orb_false_r.
    rewrite squeeze_newlines_head by lia. exact H1.
Qed.

End TextProcessingLemmas.

Module TextProcessingProperties.
Import TextProcessing TextProcessingLemmas.

(** X25. [split_into_chunks] loses nothing: joining its chunks with a blank
    line gives the text back, for every text and every [max_chunk_size]
    (zero and negative sizes included). *)
Theorem split_into_chunks_round_trip :
  forall (text : str) (max_chunk_size : Z),
  join PARAGRAPH (split_into_chunks text max_chunk_size) = text.
Proof.
  intros text max. unfold split_into_chunks.
  destruct (@chunk_loop_groups max (split_on PARAGRAPH text) [] [] 0%Z
              eq_refl (or_introl eq_refl)) as [groups [E [C F]]].
  rewrite E. cbn [app] in *.
  rewrite <- SplitJoin.join_concat.
  - rewrite C. apply join_split_on. discriminate.
  - eapply Forall_impl; [|exact F]. intros g [H _]. exact H.
Qed.

(** X26. The chunks of [split_into_chunks] are runs of consecutive
    paragraphs of the text, none empty, each joined with a blank line. A
    chunk of several paragraphs has at most [max_chunk_size] characters in
    its paragraphs (the separators are not counted); a chunk may exceed the
    size only when it is a single paragraph, which is never cut. There is
    always at least one chunk. *)
Theorem split_into_chunks_groups :
  forall (text : str) (max_chunk_size : Z),
  exists groups : list (list str),
    split_into_chunks text max_chunk_size = map (join PARAGRAPH) groups /\
    concat groups = split_on PARAGRAPH text /\
    groups <> [] /\
    forall group, In group groups ->
      group <> [] /\
      (length group = 1%nat \/
       (Z.of_nat (length (concat group)) <= max_chunk_size)%Z).
Proof.
  intros text max. unfold split_into_chunks.
  destruct (@chunk_loop_groups max (split_on PARAGRAPH text) [] [] 0%Z
              eq_refl (or_introl eq_refl)) as [groups [E [C F]]].
  exists groups. cbn [app] in *. split; [exact E|]. split; [exact C|]. split.
  - intros ->. cbn [concat] in C. symmetry in C.
    exact (split_from_not_nil _ _ _ _ C).
  - intros g Hg. rewrite Forall_forall in F. exact (F g Hg).
Qed.

(** X27. In the text that [normalize_whitespace] returns no line starts or
    ends with white space: its lines are the stripped lines of the text
    with the runs of spaces and of newlines cut. *)
Theorem normalize_whitespace_lines_stripped :
  forall (text : str) (line : str),
  In line (split_on LINE (normalize_whitespace text)) ->
  (forall c rest, line = c :: rest -> isspace c = false) /\
  (forall c rest, line = rest ++ [c] -> isspace c = false).
Proof.
  intros text line H. unfold normalize_whitespace in H.
  set (lines := split_on LINE (squeeze NEWLINE 2 (squeeze SPACE 1 text))) in H.
  rewrite split_on_join_lines in H.
  - apply in_map_iff in H. destruct H as [l [<- _]]. split.
    + intros c rest E. eapply strip_by_first. exact E.
    + intros c rest E. eapply strip_by_last. exact E.
  - unfold lines, split_on. intro E. apply map_eq_nil in E.
    exact (split_from_not_nil _ _ _ _ E).
  - apply Forall_forall. intros l Hl. apply in_map_iff in Hl.
    destruct Hl as [l0 [<- Hl0]]. intro Hn. apply strip_by_incl in Hn.
    pose proof (split_on_lines_clean (squeeze NEWLINE 2 (squeeze SPACE 1 text)))
      as Hc.
    rewrite Forall_forall in Hc. exact (Hc l0 Hl0 Hn).
Qed.

(** X28. When the two texts have the same number of lines,
    [preserve_formatting] returns a text with that number of lines. Its k-th
    line is the k-th modified line, stripped, behind as many ASCII spaces as
    the k-th original line has leading white-space characters (of any kind:
    a tab comes back as a space): it has the indentation width of the
    original line and the stripped content of the modified one. *)
Theorem preserve_formatting_lines :
  forall (original modified : str),
  length (split_on LINE original) = length (split_on LINE modified) ->
  let out := split_on LINE (preserve_formatting original modified) in
  length out = length (split_on LINE original) /\
  forall k orig_line mod_line,
    nth_error (split_on LINE original) k = Some orig_line ->
    nth_error (split_on LINE modified) k = Some mod_line ->
    exists line,
      nth_error out k = Some line /\
      line = List.repeat SPACE (leading orig_line) ++ strip mod_line /\
      leading line = leading orig_line /\
      strip line = strip mod_line.
Proof.
  intros original modified L out. unfold out.
  rewrite (preserve_formatting_split original modified L).
  split; [rewrite length_map, length_combine, <- L; apply Nat.min_id|].
  intros k lo lm Ho Hm.
  exists (List.repeat SPACE (leading lo) ++ strip lm).
  split; [|split; [reflexivity | apply indented_line]].
  change (List.repeat SPACE (leading lo) ++ strip lm)
    with ((fun lines : str * str =>
             List.repeat SPACE (leading (fst lines)) ++ strip (snd lines))
          (lo, lm)).
  apply map_nth_error.
  clear L. revert k Ho Hm.
  generalize (split_on LINE original) (split_on LINE modified).
  induction l as [|x l IH]; intros [|y l'] [|k] Ho Hm; try discriminate.
  - cbn in *. congruence.
  - cbn in *. apply IH; assumption.
Qed.

(** X29. The text that [normalize_whitespace] returns never holds two
    ASCII spaces in a row (['  ' in normalize_whitespace(text)] is false):
    the runs are cut to one space, and neither the cut of the newline runs
    nor the stripping of the lines brings two spaces together. *)
Theorem normalize_whitespace_no_double_space :
  forall text : str,
  contains DOUBLE_SPACE (normalize_whitespace text) = false.
Proof.
  intro text. unfold normalize_whitespace.
  apply clean_join. apply Forall_forall. intros line Hl.
  apply in_map_iff in Hl. destruct Hl as [l [<- Hin]].
  apply clean_strip.
  pose proof (@clean_lines (squeeze NEWLINE 2 (squeeze SPACE 1 text)) []) as C.
  rewrite Forall_forall in C. apply C; [|exact Hin].
  cbn [app]. apply squeeze_newlines_clean.
  apply (squeeze_spaces_clean text 0).
Qed.

End TextProcessingProperties.

(* ================================================================== *)
(** * The properties above on concrete runs *)
(* ================================================================== *)

(** A parser that answers on every text: one token per word of
    [text.split()], tagged as a noun, and the text as its one sentence. *)
Module ScriptedWords.

Definition word_token (iw : nat * str) : Spacy.Token :=
  {| Spacy.i := fst iw; Spacy.text := snd iw;
     Spacy.text_with_ws := snd iw ++ [SPACE];
     Spacy.pos_ := "NOUN"; Spacy.tag_ := "NN"; Spacy.dep_ := "dep";
     Spacy.lemma_ := snd iw; Spacy.head := fst iw; Spacy.children := [];
     Spacy.subtree := [fst iw] |}.

Definition word_parser : NLPModel :=
  {| nlp := fun text =>
       inr {| Spacy.tokens := map word_token (enumerate (split text));
              Spacy.sents := [text] |} |}.

Lemma word_parser_answers : LexicalLayers.parser_answers (P := word_parser).
Proof. intro text. eexists. reflexivity. Qed.

Lemma small_wordnet_answers :
  LexicalLayers.wordnet_answers (W := Scripted.small_wordnet).
Proof.
  intros word pos. cbn [synsets Scripted.small_wordnet Scripted.scripted_wordnet].
  destruct (str_dict_get word _); eexists; reflexivity.
Qed.

End ScriptedWords.

Module PropertyRuns.
Import PipelineRuns.

Definition codec_half : SpaceManipulator.obj (G := LCG.lcg) :=
  {| SpaceManipulator.intensity := 1 # 2;
     SpaceManipulator.random_state := rng_seed 7%Z;
     SpaceManipulator.variants := SpaceManipulator.variants_of_table |}.

Definition codec_full : SpaceManipulator.obj (G := LCG.lcg) :=
  {| SpaceManipulator.intensity := 1;
     SpaceManipulator.random_state := rng_seed 7%Z;
     SpaceManipulator.variants := SpaceManipulator.variants_of_table |}.

Lemma codec_half_built : SpaceCodec.built codec_half.
Proof. split; reflexivity. Qed.

Lemma codec_full_built : SpaceCodec.built codec_full.
Proof. split; reflexivity. Qed.

Definition mixed_spaces : str :=
  u "one two" ++ [160%N] ++ u "three four" ++ [8201%N] ++ u "five".

Lemma replace_spaces_without_ascii_space_witness :
  ~ In SPACE (u "Hello,world") /\
  SpaceManipulator.replace_spaces (u "Hello,world") true codec_half
  = (inr (u "Hello,world"), codec_half).
Proof.
  assert (~ In SPACE (u "Hello,world")) as H
    by (vm_compute; intuition discriminate).
  split; [exact H|].
  exact (@SpaceCodecProperties.replace_spaces_without_ascii_space LCG.lcg
           codec_half (u "Hello,world") true H).
Defined.

Lemma replace_spaces_keeps_distribution_total_witness :
  SpaceCodec.built codec_half /\
  exists out,
    fst (SpaceManipulator.replace_spaces mixed_spaces false codec_half)
    = inr out /\
    SpaceStatistics.total (SpaceManipulator.analyze_distribution out)
    = SpaceStatistics.total (SpaceManipulator.analyze_distribution mixed_spaces).
Proof.
  split; [exact codec_half_built|].
  exact (@SpaceCodecProperties.replace_spaces_keeps_distribution_total LCG.lcg
           codec_half mixed_spaces false codec_half_built).
Defined.

Lemma replacement_stats_in_range_witness :
  SpaceCodec.built codec_half /\
  exists out,
    fst (SpaceManipulator.replace_spaces mixed_spaces true codec_half)
    = inr out /\
    fst (SpaceManipulator.get_replacement_stats mixed_spaces out)
      = Z.of_nat (length (filter SpaceStatistics.table_space mixed_spaces)) /\
    (0 <= snd (SpaceManipulator.get_replacement_stats mixed_spaces out)
       <= fst (SpaceManipulator.get_replacement_stats mixed_spaces out))%Z.
Proof.
  split; [exact codec_half_built|].
  exact (@SpaceCodecProperties.replacement_stats_in_range LCG.lcg
           codec_half mixed_spaces true codec_half_built).
Defined.

Lemma replace_spaces_second_pass_witness :
  SpaceCodec.built codec_full /\
  SpaceManipulator.intensity codec_full == 1 /\
  exists out self1,
    SpaceManipulator.replace_spaces mixed_spaces false codec_full
    = (inr out, self1) /\
    SpaceManipulator.replace_spaces out true self1 = (inr out, self1).
Proof.
  assert (SpaceManipulator.intensity codec_full == 1) as H1 by reflexivity.
  split; [exact codec_full_built|]. split; [exact H1|].
  exact (@SpaceCodecProperties.replace_spaces_second_pass LCG.lcg
           codec_full mixed_spaces true codec_full_built H1).
Defined.

Definition plain_text : str := u "We improve results".
Definition marked_text : str := u "However, we agree in order to go on".

Lemma replace_semantics_low_intensity_witness :
  1 # 5 <= 3 # 10 /\
  exists out g',
    forall (P : NLPModel) (W : WordNetCorpus) (formality : string),
    SemanticReplacer.replace_semantics (G := LCG.lcg) (U := ascii_tables)
      formality marked_text (1 # 5) (rng_seed 3%Z) = (inr out, g').
Proof.
  assert (1 # 5 <= 3 # 10) as H by discriminate.
  split; [exact H|].
  exact (@LexicalProperties.replace_semantics_low_intensity LCG.lcg ascii_tables
           marked_text (1 # 5) (rng_seed 3%Z) H).
Defined.

Lemma plain_text_no_marker :
  forall marker alternatives,
    In (marker, alternatives) SemanticReplacer.DISCOURSE_MARKERS ->
    contains (lower (PyUnicode := ascii_tables) marker)
             (lower (PyUnicode := ascii_tables) plain_text) = false.
Proof.
  intros marker alternatives Hin.
  unfold SemanticReplacer.DISCOURSE_MARKERS in Hin. cbn [In] in Hin.
  repeat (destruct Hin as [Hin|Hin];
          [injection Hin as <- <-; vm_compute; reflexivity|]).
  contradiction.
Qed.

Lemma plain_text_no_phrase :
  forall phrase alternatives,
    In (phrase, alternatives) SemanticReplacer.PHRASE_SUBSTITUTIONS ->
    contains phrase (lower (PyUnicode := ascii_tables) plain_text) = false.
Proof.
  intros phrase alternatives Hin.
  unfold SemanticReplacer.PHRASE_SUBSTITUTIONS in Hin. cbn [In] in Hin.
  repeat (destruct Hin as [Hin|Hin];
          [injection Hin as <- <-; vm_compute; reflexivity|]).
  contradiction.
Qed.

Lemma replace_semantics_identity_witness :
  1 # 5 <= 3 # 10 /\
  (forall marker alternatives,
     In (marker, alternatives) SemanticReplacer.DISCOURSE_MARKERS ->
     contains (lower (PyUnicode := ascii_tables) marker)
              (lower (PyUnicode := ascii_tables) plain_text) = false) /\
  (forall phrase alternatives,
     In (phrase, alternatives) SemanticReplacer.PHRASE_SUBSTITUTIONS ->
     contains phrase (lower (PyUnicode := ascii_tables) plain_text) = false) /\
  SemanticReplacer.replace_semantics (G := LCG.lcg) (U := ascii_tables)
    (P := Scripted.small_parser) (W := Scripted.small_wordnet)
    "formal" plain_text (1 # 5) (rng_seed 3%Z)
  = (inr plain_text, rng_seed 3%Z).
Proof.
  assert (1 # 5 <= 3 # 10) as H by discriminate.
  split; [exact H|]. split; [exact plain_text_no_marker|].
  split; [exact plain_text_no_phrase|].
  exact (@LexicalProperties.replace_semantics_identity LCG.lcg ascii_tables
           Scripted.small_parser Scripted.small_wordnet "formal"%string
           plain_text (1 # 5) (rng_seed 3%Z) H plain_text_no_marker
           plain_text_no_phrase).
Defined.

Lemma replace_semantics_returns_witness :
  LexicalLayers.parser_answers (P := ScriptedWords.word_parser) /\
  LexicalLayers.wordnet_answers (W := Scripted.small_wordnet) /\
  exists out g',
    SemanticReplacer.replace_semantics (G := LCG.lcg) (U := ascii_tables)
      (P := ScriptedWords.word_parser) (W := Scripted.small_wordnet)
      "formal" marked_text (7 # 10) (rng_seed 3%Z) = (inr out, g').
Proof.
  split; [exact ScriptedWords.word_parser_answers|].
  split; [exact ScriptedWords.small_wordnet_answers|].
  exact (@LexicalProperties.replace_semantics_returns LCG.lcg ascii_tables
           ScriptedWords.word_parser Scripted.small_wordnet "formal"%string
           marked_text (7 # 10) (rng_seed 3%Z)
           ScriptedWords.word_parser_answers
           ScriptedWords.small_wordnet_answers).
Defined.

Lemma replace_tokens_one_word_per_token_witness :
  LexicalLayers.wordnet_answers (W := Scripted.small_wordnet) /\
  exists words g',
    SemanticReplacer.replace_tokens (G := LCG.lcg) (U := ascii_tables)
      (W := Scripted.small_wordnet) "formal" (7 # 10)
      (Spacy.tokens Scripted.we_improve_results) [] (rng_seed 6%Z)
    = (inr words, g') /\
    length words = length (Spacy.tokens Scripted.we_improve_results) /\
    forall k token,
      nth_error (Spacy.tokens Scripted.we_improve_results) k = Some token ->
      SemanticReplacer.content_word token = false ->
      nth_error words k
      = Some (rstrip_by isspace (Spacy.text_with_ws token)) /\
      (forall ws,
         Spacy.text_with_ws token = Spacy.text token ++ ws ->
         forallb isspace ws = true ->
         nth_error words k = Some (rstrip_by isspace (Spacy.text token))).
Proof.
  split; [exact ScriptedWords.small_wordnet_answers|].
  exact (@LexicalProperties.replace_tokens_one_word_per_token LCG.lcg
           ascii_tables Scripted.small_wordnet "formal"%string (7 # 10)
           (Spacy.tokens Scripted.we_improve_results) (rng_seed 6%Z)
           ScriptedWords.small_wordnet_answers).
Defined.

(** A token of white space is written as the empty word: for the tokens
    [a], a newline, [b] the loop writes ["a"; ""; "b"]. *)
Example whitespace_token_written_empty :
  fst (SemanticReplacer.replace_tokens (G := LCG.lcg) (U := ascii_tables)
         (W := Scripted.small_wordnet) "formal" (7 # 10)
         [ Scripted.word 0 "a" "" "NOUN" "NN" "dep";
           {| Spacy.i := 1; Spacy.text := [NEWLINE];
              Spacy.text_with_ws := [NEWLINE];
              Spacy.pos_ := "SPACE"; Spacy.tag_ := "_SP"; Spacy.dep_ := "dep";
              Spacy.lemma_ := [NEWLINE]; Spacy.head := 0;
              Spacy.children := []; Spacy.subtree := [1%nat] |};
           Scripted.word 2 "b" "" "NOUN" "NN" "dep" ]
         [] (rng_seed 6%Z))
  = inr [u "a"; []; u "b"].
Proof. vm_compute. reflexivity. Qed.

Definition quick_synonyms : list str :=
  Eval vm_compute in
    match SemanticReplacer.get_wordnet_synonyms (U := ascii_tables)
            (W := Scripted.small_wordnet) (u "quickly") None with
    | inr l => l
    | inl _ => []
    end.

Lemma wordnet_synonyms_clean_witness :
  SemanticReplacer.get_wordnet_synonyms (U := ascii_tables)
    (W := Scripted.small_wordnet) (u "quickly") None = inr quick_synonyms /\
  NoDup quick_synonyms /\
  forall synonym, In synonym quick_synonyms ->
    lower (PyUnicode := ascii_tables) synonym
    <> lower (PyUnicode := ascii_tables) (u "quickly")
    /\ ~ In 95%N synonym.
Proof.
  assert (SemanticReplacer.get_wordnet_synonyms (U := ascii_tables)
            (W := Scripted.small_wordnet) (u "quickly") None
          = inr quick_synonyms) as H by (vm_compute; reflexivity).
  split; [exact H|].
  exact (@LexicalProperties.wordnet_synonyms_clean ascii_tables
           Scripted.small_wordnet (u "quickly") None quick_synonyms H).
Defined.

Definition medium_sentences : list str :=
  [ u "One two three four five six seven eight nine.";
    u "Short one."; u "This one has again eight words in it, really." ].

Lemma vary_sentence_complexity_settled_witness :
  SyntaxLayers.settled medium_sentences = true /\
  SyntaxRestructurer.vary_sentence_complexity (G := LCG.lcg)
    (U := ascii_tables) medium_sentences (rng_seed 4%Z)
  = (inr (medium_sentences, 0), rng_seed 4%Z).
Proof.
  assert (SyntaxLayers.settled medium_sentences = true)
    as H by (vm_compute; reflexivity).
  split; [exact H|].
  exact (@SyntaxProperties.vary_sentence_complexity_settled LCG.lcg ascii_tables
           medium_sentences (rng_seed 4%Z) H).
Defined.

Lemma find_clauses_lists_witness :
  NLPParser.parse (P := Scripted.small_parser) plain_text
  = inr Scripted.we_improve_results /\
  exists clauses,
    NLPParser.find_clauses (P := Scripted.small_parser) plain_text
    = inr clauses /\
    NLPParser.main clauses = [] /\
    NLPParser.dependent clauses
    = map (NLPParser.subtree_text Scripted.we_improve_results)
          (filter SyntaxLayers.is_dependent
                  (Spacy.tokens Scripted.we_improve_results)) /\
    NLPParser.relative clauses
    = map (NLPParser.subtree_text Scripted.we_improve_results)
          (filter SyntaxLayers.is_relative
                  (Spacy.tokens Scripted.we_improve_results)).
Proof.
  assert (NLPParser.parse (P := Scripted.small_parser) plain_text
          = inr Scripted.we_improve_results) as H by reflexivity.
  split; [exact H|].
  exact (@SyntaxProperties.find_clauses_lists Scripted.small_parser plain_text
           Scripted.we_improve_results H).
Defined.

Lemma restructure_returns_witness :
  LexicalLayers.parser_answers (P := ScriptedWords.word_parser) /\
  exists out g',
    SyntaxRestructurer.restructure (G := LCG.lcg) (U := ascii_tables)
      (P := ScriptedWords.word_parser) marked_text true true true
      (rng_seed 3%Z) = (inr out, g').
Proof.
  split; [exact ScriptedWords.word_parser_answers|].
  exact (@SyntaxProperties.restructure_returns LCG.lcg ascii_tables
           ScriptedWords.word_parser marked_text true true true
           (rng_seed 3%Z) ScriptedWords.word_parser_answers).
Defined.

Definition no_clauses : NLPParser.Clauses :=
  {| NLPParser.main := []; NLPParser.dependent := [];
     NLPParser.relative := [] |}.

Lemma plain_text_no_nominalization :
  forall nominal verbal,
    In (nominal, verbal) SyntaxRestructurer.nominalizations ->
    contains nominal (lower (PyUnicode := ascii_tables) plain_text) = false.
Proof.
  intros nominal verbal Hin.
  unfold SyntaxRestructurer.nominalizations in Hin. cbn [In] in Hin.
  repeat (destruct Hin as [Hin|Hin];
          [injection Hin as <- <-; vm_compute; reflexivity|]).
  contradiction.
Qed.

Lemma restructure_sentence_identity_witness :
  NLPParser.is_passive_voice (P := Scripted.small_parser) plain_text
  = inr false /\
  NLPParser.find_clauses (P := Scripted.small_parser) plain_text
  = inr no_clauses /\
  NLPParser.dependent no_clauses = [] /\
  (forall nominal verbal,
     In (nominal, verbal) SyntaxRestructurer.nominalizations ->
     contains nominal (lower (PyUnicode := ascii_tables) plain_text) = false) /\
  SyntaxRestructurer.restructure_sentence (U := ascii_tables)
    (P := Scripted.small_parser) true true true plain_text = inr plain_text.
Proof.
  assert (NLPParser.is_passive_voice (P := Scripted.small_parser) plain_text
          = inr false) as Hv by (vm_compute; reflexivity).
  assert (NLPParser.find_clauses (P := Scripted.small_parser) plain_text
          = inr no_clauses) as Hc by (vm_compute; reflexivity).
  split; [exact Hv|]. split; [exact Hc|]. split; [reflexivity|].
  split; [exact plain_text_no_nominalization|].
  exact (@SyntaxProperties.restructure_sentence_identity ascii_tables
           Scripted.small_parser plain_text no_clauses Hv Hc eq_refl
           plain_text_no_nominalization).
Defined.

(** Pipelines: the lexical stage alone, and the Space stage alone. *)
Definition lexical_only : HumanizationPipeline.obj (G := LCG.lcg) :=
  {| HumanizationPipeline.intensity := 3 # 10;
     HumanizationPipeline.enable_unicode := false;
     HumanizationPipeline.enable_syntax := false;
     HumanizationPipeline.enable_semantics := true;
     HumanizationPipeline.formality := "formal";
     HumanizationPipeline.quality_threshold := 85 # 100;
     HumanizationPipeline.space_manipulator := codec_half;
     HumanizationPipeline.syntax_random := rng_seed 3%Z;
     HumanizationPipeline.semantic_random := rng_seed 3%Z |}.

Definition space_only : HumanizationPipeline.obj (G := LCG.lcg) :=
  {| HumanizationPipeline.intensity := 1 # 2;
     HumanizationPipeline.enable_unicode := true;
     HumanizationPipeline.enable_syntax := false;
     HumanizationPipeline.enable_semantics := false;
     HumanizationPipeline.formality := "formal";
     HumanizationPipeline.quality_threshold := 1 # 2;
     HumanizationPipeline.space_manipulator := codec_half;
     HumanizationPipeline.syntax_random := rng_seed 3%Z;
     HumanizationPipeline.semantic_random := rng_seed 3%Z |}.

Definition blank_text : str := u "  " ++ [NEWLINE; 9%N].

Lemma humanize_blank_text_witness :
  (forall c, In c blank_text -> isspace c = true) /\
  HumanizationPipeline.humanize (G := LCG.lcg) (U := ascii_tables)
    (P := Scripted.small_parser) (W := Scripted.small_wordnet)
    (O := ScriptedServices.ascii_sensitive) blank_text true lexical_only
  = (inr {| HumanizationPipeline.original := blank_text;
            HumanizationPipeline.humanized := blank_text;
            HumanizationPipeline.transformations_applied := [];
            HumanizationPipeline.quality_metrics := None;
            HumanizationPipeline.passed_quality_check := true |},
     lexical_only).
Proof.
  assert (forall c, In c blank_text -> isspace c = true) as H.
  { intros c Hc. cbn in Hc.
    repeat (destruct Hc as [<-|Hc]; [reflexivity|]). contradiction. }
  split; [exact H|].
  exact (@PipelineProperties.humanize_blank_text LCG.lcg ascii_tables
           Scripted.small_parser Scripted.small_wordnet
           ScriptedServices.ascii_sensitive ScriptedServices.unrounded
           blank_text true lexical_only H).
Defined.

Definition lexical_run
  : (PyExn + HumanizationPipeline.Result)
    * HumanizationPipeline.obj (G := LCG.lcg) :=
  Eval vm_compute in
    HumanizationPipeline.humanize (G := LCG.lcg) (U := ascii_tables)
      (P := Scripted.small_parser) (W := Scripted.small_wordnet)
      (O := ScriptedServices.ascii_sensitive) marked_text true lexical_only.

Definition lexical_result : HumanizationPipeline.Result :=
  Eval vm_compute in
    match fst lexical_run with
    | inr r => r
    | inl _ => PipelineLayers.short_cut []
    end.

Lemma lexical_run_evaluated :
  HumanizationPipeline.humanize (G := LCG.lcg) (U := ascii_tables)
    (P := Scripted.small_parser) (W := Scripted.small_wordnet)
    (O := ScriptedServices.ascii_sensitive) marked_text true lexical_only
  = (inr lexical_result, snd lexical_run).
Proof. evaluate_sides. reflexivity. Qed.

(** The run, read: both string layers fired, and the stage was accepted. *)
Example lexical_result_read :
  HumanizationPipeline.humanized lexical_result
    = u "Yet, we agree to go on" /\
  HumanizationPipeline.transformations_applied lexical_result
    = ["semantic_replacement"%string] /\
  HumanizationPipeline.passed_quality_check lexical_result = true.
Proof. repeat split. Qed.

Lemma humanize_result_shape_witness :
  HumanizationPipeline.humanize (G := LCG.lcg) (U := ascii_tables)
    (P := Scripted.small_parser) (W := Scripted.small_wordnet)
    (O := ScriptedServices.ascii_sensitive) marked_text true lexical_only
  = (inr lexical_result, snd lexical_run) /\
  HumanizationPipeline.original lexical_result = marked_text /\
  (exists syntax semantics unicode,
     HumanizationPipeline.transformations_applied lexical_result
     = PipelineLayers.stage_names syntax semantics unicode /\
     (syntax = true ->
      HumanizationPipeline.enable_syntax lexical_only = true) /\
     (semantics = true ->
      HumanizationPipeline.enable_semantics lexical_only = true) /\
     (unicode = true ->
      HumanizationPipeline.enable_unicode lexical_only = true)) /\
  (HumanizationPipeline.transformations_applied lexical_result = [] ->
   HumanizationPipeline.humanized lexical_result = marked_text).
Proof.
  split; [exact lexical_run_evaluated|].
  exact (@PipelineProperties.humanize_result_shape LCG.lcg ascii_tables
           Scripted.small_parser Scripted.small_wordnet
           ScriptedServices.ascii_sensitive ScriptedServices.unrounded
           marked_text true lexical_only
           lexical_result (snd lexical_run) lexical_run_evaluated).
Defined.

Lemma ascii_sensitive_readability :
  PipelineLayers.readability_answers (O := ScriptedServices.ascii_sensitive).
Proof. intro text. eexists. reflexivity. Qed.

Lemma ascii_sensitive_similarity :
  PipelineLayers.similarity_answers (O := ScriptedServices.ascii_sensitive).
Proof. intros a b. eexists. reflexivity. Qed.

Lemma no_model_readability :
  PipelineLayers.readability_answers (O := ScriptedServices.no_model).
Proof. intro text. eexists. reflexivity. Qed.

Lemma humanize_returns_witness :
  PipelineLayers.readability_answers (O := ScriptedServices.ascii_sensitive) /\
  PipelineLayers.similarity_answers (O := ScriptedServices.ascii_sensitive) /\
  exists r self',
    HumanizationPipeline.humanize (G := LCG.lcg) (U := ascii_tables)
      (P := Scripted.small_parser) (W := Scripted.small_wordnet)
      (O := ScriptedServices.ascii_sensitive) marked_text true lexical_only
    = (inr r, self').
Proof.
  split; [exact ascii_sensitive_readability|].
  split; [exact ascii_sensitive_similarity|].
  exact (@PipelineProperties.humanize_returns LCG.lcg ascii_tables
           Scripted.small_parser Scripted.small_wordnet
           ScriptedServices.ascii_sensitive ScriptedServices.unrounded
           marked_text true lexical_only
           ascii_sensitive_readability ascii_sensitive_similarity).
Defined.

Lemma humanize_without_model_witness :
  sentence_model (QualityServices := ScriptedServices.no_model) = None /\
  PipelineLayers.readability_answers (O := ScriptedServices.no_model) /\
  0 < HumanizationPipeline.quality_threshold lexical_only /\
  HumanizationPipeline.blank marked_text = false /\
  exists m self',
    HumanizationPipeline.humanize (G := LCG.lcg) (U := ascii_tables)
      (P := Scripted.small_parser) (W := Scripted.small_wordnet)
      (O := ScriptedServices.no_model) marked_text true lexical_only
    = (inr {| HumanizationPipeline.original := marked_text;
              HumanizationPipeline.humanized := marked_text;
              HumanizationPipeline.transformations_applied := [];
              HumanizationPipeline.quality_metrics := Some m;
              HumanizationPipeline.passed_quality_check := false |}, self') /\
    HumanizationPipeline.semantic_similarity m = 0.
Proof.
  assert (0 < HumanizationPipeline.quality_threshold lexical_only) as Ht
    by reflexivity.
  assert (HumanizationPipeline.blank marked_text = false) as Hb
    by reflexivity.
  split; [reflexivity|]. split; [exact no_model_readability|].
  split; [exact Ht|]. split; [exact Hb|].
  exact (@PipelineProperties.humanize_without_model LCG.lcg ascii_tables
           Scripted.small_parser Scripted.small_wordnet
           ScriptedServices.no_model ScriptedServices.unrounded
           marked_text true lexical_only
           eq_refl no_model_readability Ht Hb).
Defined.

Definition space_run
  : (PyExn + HumanizationPipeline.Result)
    * HumanizationPipeline.obj (G := LCG.lcg) :=
  Eval vm_compute in
    HumanizationPipeline.humanize (G := LCG.lcg) (U := ascii_tables)
      (P := Scripted.small_parser) (W := Scripted.small_wordnet)
      (O := ScriptedServices.ascii_sensitive) marked_text true space_only.

Definition space_result : HumanizationPipeline.Result :=
  Eval vm_compute in
    match fst space_run with
    | inr r => r
    | inl _ => PipelineLayers.short_cut []
    end.

Lemma space_run_evaluated :
  HumanizationPipeline.humanize (G := LCG.lcg) (U := ascii_tables)
    (P := Scripted.small_parser) (W := Scripted.small_wordnet)
    (O := ScriptedServices.ascii_sensitive) marked_text true space_only
  = (inr space_result, snd space_run).
Proof. evaluate_sides. reflexivity. Qed.

Lemma humanize_space_only_witness :
  HumanizationPipeline.enable_syntax space_only = false /\
  HumanizationPipeline.enable_semantics space_only = false /\
  SpaceCodec.built (HumanizationPipeline.space_manipulator space_only) /\
  HumanizationPipeline.humanize (G := LCG.lcg) (U := ascii_tables)
    (P := Scripted.small_parser) (W := Scripted.small_wordnet)
    (O := ScriptedServices.ascii_sensitive) marked_text true space_only
  = (inr space_result, snd space_run) /\
  length (HumanizationPipeline.humanized space_result) = length marked_text /\
  forall i c, nth_error marked_text i = Some c ->
    c <> SPACE \/ SpaceManipulator.at_boundary marked_text i = true ->
    nth_error (HumanizationPipeline.humanized space_result) i = Some c.
Proof.
  split; [reflexivity|]. split; [reflexivity|].
  split; [exact codec_half_built|]. split; [exact space_run_evaluated|].
  exact (@PipelineProperties.humanize_space_only LCG.lcg ascii_tables
           Scripted.small_parser Scripted.small_wordnet
           ScriptedServices.ascii_sensitive ScriptedServices.unrounded
           marked_text true space_only
           space_result (snd space_run) eq_refl eq_refl codec_half_built
           space_run_evaluated).
Defined.

Definition batch_run
  : (PyExn + list HumanizationPipeline.Result)
    * HumanizationPipeline.obj (G := LCG.lcg) :=
  Eval vm_compute in
    HumanizationPipeline.batch_humanize (G := LCG.lcg) (U := ascii_tables)
      (P := Scripted.small_parser) (W := Scripted.small_wordnet)
      (O := ScriptedServices.ascii_sensitive)
      [marked_text; blank_text; plain_text] [] lexical_only.

Definition batch_results : list HumanizationPipeline.Result :=
  Eval vm_compute in
    match fst batch_run with
    | inr rs => rs
    | inl _ => []
    end.

Lemma batch_run_evaluated :
  HumanizationPipeline.batch_humanize (G := LCG.lcg) (U := ascii_tables)
    (P := Scripted.small_parser) (W := Scripted.small_wordnet)
    (O := ScriptedServices.ascii_sensitive)
    [marked_text; blank_text; plain_text] [] lexical_only
  = (inr batch_results, snd batch_run).
Proof. evaluate_sides. reflexivity. Qed.

Lemma batch_humanize_in_order_witness :
  HumanizationPipeline.batch_humanize (G := LCG.lcg) (U := ascii_tables)
    (P := Scripted.small_parser) (W := Scripted.small_wordnet)
    (O := ScriptedServices.ascii_sensitive)
    [marked_text; blank_text; plain_text] [] lexical_only
  = (inr batch_results, snd batch_run) /\
  Forall2 (fun text r => HumanizationPipeline.original r = text)
          [marked_text; blank_text; plain_text] batch_results.
Proof.
  split; [exact batch_run_evaluated|].
  exact (@PipelineProperties.batch_humanize_in_order LCG.lcg ascii_tables
           Scripted.small_parser Scripted.small_wordnet
           ScriptedServices.ascii_sensitive ScriptedServices.unrounded
           [marked_text; blank_text; plain_text] lexical_only
           batch_results (snd batch_run) batch_run_evaluated).
Defined.

Definition ragged_text : str :=
  u "  a   b " ++ [NEWLINE] ++ u " " ++ [NEWLINE; NEWLINE; NEWLINE]
  ++ u "c  " ++ [9%N].

Lemma normalize_whitespace_lines_stripped_witness :
  In (u "a b")
     (TextProcessing.split_on TextProcessing.LINE
        (TextProcessing.normalize_whitespace ragged_text)) /\
  (forall c rest, u "a b" = c :: rest -> isspace c = false) /\
  (forall c rest, u "a b" = rest ++ [c] -> isspace c = false).
Proof.
  assert (In (u "a b")
            (TextProcessing.split_on TextProcessing.LINE
               (TextProcessing.normalize_whitespace ragged_text))) as H
    by (left; reflexivity).
  split; [exact H|].
  exact (@TextProcessingProperties.normalize_whitespace_lines_stripped
           ragged_text (u "a b") H).
Defined.

Definition indented_text : str :=
  [9%N] ++ u " def f():" ++ [NEWLINE] ++ u "pass".
Definition rewritten_text : str :=
  u "def g(): " ++ [NEWLINE] ++ u "   return".

Lemma preserve_formatting_lines_witness :
  length (TextProcessing.split_on TextProcessing.LINE indented_text)
  = length (TextProcessing.split_on TextProcessing.LINE rewritten_text) /\
  let out :=
    TextProcessing.split_on TextProcessing.LINE
      (TextProcessing.preserve_formatting indented_text rewritten_text) in
  length out
  = length (TextProcessing.split_on TextProcessing.LINE indented_text) /\
  forall k orig_line mod_line,
    nth_error (TextProcessing.split_on TextProcessing.LINE indented_text) k
    = Some orig_line ->
    nth_error (TextProcessing.split_on TextProcessing.LINE rewritten_text) k
    = Some mod_line ->
    exists line,
      nth_error out k = Some line /\
      line = List.repeat SPACE (TextProcessing.leading orig_line)
             ++ strip mod_line /\
      TextProcessing.leading line = TextProcessing.leading orig_line /\
      strip line = strip mod_line.
Proof.
  assert (length (TextProcessing.split_on TextProcessing.LINE indented_text)
          = length (TextProcessing.split_on TextProcessing.LINE rewritten_text))
    as H by reflexivity.
  split; [exact H|].
  exact (@TextProcessingProperties.preserve_formatting_lines indented_text
           rewritten_text H).
Defined.

Lemma humanize_records_space_stage_witness :
  HumanizationPipeline.enable_unicode space_only = true /\
  SpaceCodec.built (HumanizationPipeline.space_manipulator space_only) /\
  HumanizationPipeline.blank marked_text = false /\
  HumanizationPipeline.humanize (G := LCG.lcg) (U := ascii_tables)
    (P := Scripted.small_parser) (W := Scripted.small_wordnet)
    (O := ScriptedServices.ascii_sensitive) marked_text true space_only
  = (inr space_result, snd space_run) /\
  HumanizationPipeline.passed_quality_check space_result = true /\
  exists earlier,
    HumanizationPipeline.transformations_applied space_result
    = earlier ++ ["unicode_manipulation"%string].
Proof.
  split; [reflexivity|]. split; [exact codec_half_built|].
  split; [reflexivity|]. split; [exact space_run_evaluated|].
  split; [reflexivity|].
  exact (@PipelineProperties.humanize_records_space_stage LCG.lcg ascii_tables
           Scripted.small_parser Scripted.small_wordnet
           ScriptedServices.ascii_sensitive ScriptedServices.unrounded
           marked_text true space_only
           space_result (snd space_run) eq_refl codec_half_built eq_refl
           space_run_evaluated eq_refl).
Defined.

End PropertyRuns.
